(** * Voice-note recorder: the live emotion classifier of [VoiceRecorder.tsx]

    The development embeds the recording component of the voice-journal
    application: the per-tick audio analysis [analyzeAudioEmotion], the
    rolling window of samples it keeps in [emotionSamplesRef], the
    happy / neutral / sad scoring, and the session life cycle
    ([startRecording], the 200 ms interval, the 1 s timer,
    [stopRecording] and the recorder's [onstop] handler that saves the
    note).  Around it: the displayed time ([formatTime] and
    [formatDuration], with [Math.floor], [/] and [%] on binary64), the
    list of notes that receives the saved note ([handleNoteCreated],
    [handleDeleteNote]), its filter ([filteredNotes]) and the
    distribution chart (pieData).

    JavaScript numbers are kept behind one small interface, [JsNumber],
    with two interpretations:
    - [Float64]: IEEE-754 binary64 with round-to-nearest-even, the
      arithmetic the engine performs; every definition computes on it,
      and the theorems about numbers are proved on it;
    - [Exact]: the real numbers, for the same formulas without
      rounding.

    Contents: the number interface; the component ([Model]); the
    classifier in the words of the specification ([Specification]);
    concrete frames and sessions ([Examples]); whole sessions
    ([Lifecycle]); text and notes ([Text], [Notes]); then the theorems:
    the rolling window, the label across ticks and sessions, silence,
    the code against the specification's formulas, the bounds of the
    scores, the sessions and the saved rows, the list of notes, the
    decisions of the classifier on binary64, and the rounding of the
    quotient in the displayed time. *)

From Stdlib Require Import ZArith QArith List Bool Lia Floats Reals Qreals Lra.
From Stdlib Require String Ascii DecimalString DecimalZ DecimalPos.
Import ListNotations.

Close Scope Q_scope.
Close Scope R_scope.
Close Scope Z_scope.

Set Implicit Arguments.
Set Warnings "-inexact-float".


(* ================================================================== *)
(** * JavaScript numbers *)
(* ================================================================== *)

(** The operations on numbers that the component uses.  [lit] gives the
    value of a decimal literal of the source text, [of_int] the number
    that holds an integer (an array length, a loop index, a [Uint8Array]
    element). *)
Class JsNumber : Type := {
  num : Type;
  lit : Q -> num;
  of_int : Z -> num;
  add : num -> num -> num;
  sub : num -> num -> num;
  mul : num -> num -> num;
  div : num -> num -> num;
  lt : num -> num -> bool;
  truthy : num -> bool;
  Math_sqrt : num -> num;
  Math_max : num -> num -> num;
  Math_min : num -> num -> num;
  Math_abs : num -> num
}.

Declare Scope js_scope.
Delimit Scope js_scope with js.
Bind Scope js_scope with num.
Infix "+" := add : js_scope.
Infix "-" := sub : js_scope.
Infix "*" := mul : js_scope.
Infix "/" := div : js_scope.
Notation "a < b" := (lt a b) : js_scope.
Notation "a > b" := (lt b a) : js_scope.

(** [Math.pow(x, 2)]: engines return the correctly rounded square. *)
Definition Math_pow2 {J : JsNumber} (x : num) : num := mul x x.

(** [a || b] on a number and a fallback. *)
Definition or_else {J : JsNumber} (a : option num) (b : num) : num :=
  match a with
  | Some x => if truthy x then x else b
  | None => b
  end.

(** ** IEEE-754 binary64 *)

Module F64.

Definition of_int (z : Z) : float := PrimFloat.of_uint63 (Uint63.of_Z z).

(** A decimal literal denotes the double nearest to its value; the
    correctly rounded quotient of numerator and denominator is that
    double (see [literals_agree] below for the constants of the
    source). *)
Definition lit (q : Q) : float :=
  PrimFloat.div (of_int (Qnum q)) (of_int (Zpos (Qden q))).

Definition is_nan (x : float) : bool := negb (PrimFloat.eqb x x).

Definition is_neg_zero (x : float) : bool :=
  match PrimFloat.classify x with NZero => true | _ => false end.

(** Falsy numbers are [+0], [-0] and [NaN]. *)
Definition truthy (x : float) : bool :=
  negb (PrimFloat.eqb x PrimFloat.zero || is_nan x).

(** [Math.max]: [NaN] if either argument is, and [+0] above [-0]. *)
Definition max (a b : float) : float :=
  if is_nan a || is_nan b then PrimFloat.nan
  else if PrimFloat.ltb a b then b
  else if PrimFloat.ltb b a then a
  else if is_neg_zero a then b else a.

(** [Math.min]: [NaN] if either argument is, and [-0] below [+0]. *)
Definition min (a b : float) : float :=
  if is_nan a || is_nan b then PrimFloat.nan
  else if PrimFloat.ltb a b then a
  else if PrimFloat.ltb b a then b
  else if is_neg_zero b then b else a.

(** Positive and finite, as every sample rate of an audio context is. *)
Definition positive_finite (x : float) : Prop :=
  PrimFloat.ltb PrimFloat.zero x = true /\
  PrimFloat.ltb x PrimFloat.infinity = true.

(** A length that a typed array can have. *)
Definition array_length (N : nat) : Prop := (1 <= Z.of_nat N < 2 ^ 53)%Z.

End F64.

Definition Float64 : JsNumber := {|
  num := float;
  lit := F64.lit;
  of_int := F64.of_int;
  add := PrimFloat.add;
  sub := PrimFloat.sub;
  mul := PrimFloat.mul;
  div := PrimFloat.div;
  lt := PrimFloat.ltb;
  truthy := F64.truthy;
  Math_sqrt := PrimFloat.sqrt;
  Math_max := F64.max;
  Math_min := F64.min;
  Math_abs := PrimFloat.abs
|}.

(** ** Exact arithmetic *)

Module Real.

Definition lt (a b : R) : bool := if Rlt_dec a b then true else false.

Definition truthy (x : R) : bool := if Req_dec_T x 0%R then false else true.

End Real.

Definition Exact : JsNumber := {|
  num := R;
  lit := Q2R;
  of_int := IZR;
  add := Rplus;
  sub := Rminus;
  mul := Rmult;
  div := Rdiv;
  lt := Real.lt;
  truthy := Real.truthy;
  Math_sqrt := sqrt;
  Math_max := Rmax;
  Math_min := Rmin;
  Math_abs := Rabs
|}.

(* ================================================================== *)
(** * Data model *)
(* ================================================================== *)

(** [EmotionType] of [types/voice-note]. *)
Inductive EmotionType : Type := happy | neutral | sad.

Definition EmotionType_eq_dec (a b : EmotionType) : {a = b} + {a <> b}.
Proof. decide equality. Defined.

(** Abrupt completion of a call: the only exception the analysis can
    raise is the [TypeError] of [reduce] on an empty array without an
    initial value. *)
Inductive exn : Type := TypeError.

Inductive completion (A : Type) : Type :=
| Normal (a : A)
| Throw (e : exn).
Arguments Normal {A} a.
Arguments Throw {A} e.

Section Model.

Context {J : JsNumber}.
Local Open Scope js_scope.

(** One element of [emotionSamplesRef.current]. *)
Record Sample : Type := mkSample {
  pitch : num;
  volume : num;
  variance : num
}.

(** What the analyser node writes into the two arrays of a tick:
    [dataArray] (a [Uint8Array], elements in 0..255) and
    [timeDomainArray] (a [Float32Array]).  Both arrays are allocated
    with [bufferLength = analyser.frequencyBinCount] elements. *)
Record Frame : Type := mkFrame {
  dataArray : list Z;
  timeDomainArray : list num
}.

Definition uint8 (z : Z) : Prop := (0 <= z < 256)%Z.

(** A frame as the analyser delivers it: [N] bins and [N]
    time-domain values. *)
Definition frame_of_size (N : nat) (fr : Frame) : Prop :=
  length (dataArray fr) = N /\ length (timeDomainArray fr) = N /\
  Forall uint8 (dataArray fr).

(* ---------------------------------------------------------------- *)
(** ** Feature extraction (lines 42-62) *)
(* ---------------------------------------------------------------- *)

(** [for (i ...) sum += timeDomainArray[i] * timeDomainArray[i]] and
    [Math.sqrt(sum / timeDomainArray.length)]. *)
Definition sumSquares (timeDomainArray : list num) : num :=
  fold_left (fun sum x => sum + x * x) timeDomainArray (lit 0).

Definition volumeOf (timeDomainArray : list num) : num :=
  Math_sqrt (sumSquares timeDomainArray
             / of_int (Z.of_nat (length timeDomainArray))).

(** The scan for the dominant bin: [i] is the index of the head of
    the remaining array, [(maxValue, maxIndex)] the loop variables. *)
Fixpoint maxScan (rest : list Z) (i : nat) (maxValue : Z) (maxIndex : nat)
  : Z * nat :=
  match rest with
  | [] => (maxValue, maxIndex)
  | x :: rest' =>
      if (maxValue <? x)%Z
      then maxScan rest' (S i) x i
      else maxScan rest' (S i) maxValue maxIndex
  end.

(** What the loop variables hold after [i] bins of [l]. *)
Definition scanned (l : list Z) (i : nat) (maxValue : Z) (maxIndex : nat)
  : Prop :=
  (forall j, (j < i)%nat -> (nth j l 0 <= maxValue)%Z) /\
  (forall j, (j < maxIndex)%nat -> (nth j l 0 < maxValue)%Z) /\
  (i = 0%nat /\ maxIndex = 0%nat /\ maxValue = 0%Z \/
   (maxIndex < i)%nat /\ nth maxIndex l 0%Z = maxValue).

Definition maxIndexOf (dataArray : list Z) : nat :=
  snd (maxScan dataArray 0 0%Z 0).

(** [maxIndex * (sampleRate || 44100) / (bufferLength * 2)]. *)
Definition pitchOf (sampleRate : option num) (dataArray : list Z) : num :=
  let bufferLength := of_int (Z.of_nat (length dataArray)) in
  of_int (Z.of_nat (maxIndexOf dataArray)) * or_else sampleRate (lit 44100)
  / (bufferLength * lit 2).

(** [array.reduce(f)] without an initial value. *)
Definition reduce1 (f : num -> num -> num) (xs : list num) : completion num :=
  match xs with
  | [] => Throw TypeError
  | x :: rest => Normal (fold_left f rest x)
  end.

(** [dataArray.reduce((sum, val) => sum + Math.pow(val - mean, 2), 0)
     / bufferLength]. *)
Definition varianceAround (mean : num) (dataArray : list Z) : num :=
  fold_left (fun sum val => sum + Math_pow2 (val - mean))
            (map of_int dataArray) (lit 0)
  / of_int (Z.of_nat (length dataArray)).

(** Lines 42-62: the sample of one frame. *)
Definition extractSample (sampleRate : option num) (fr : Frame)
  : completion Sample :=
  let volume := volumeOf (timeDomainArray fr) in
  let pitch := pitchOf sampleRate (dataArray fr) in
  match reduce1 add (map of_int (dataArray fr)) with
  | Throw e => Throw e
  | Normal total =>
      let mean := total / of_int (Z.of_nat (length (dataArray fr))) in
      Normal (mkSample pitch volume (varianceAround mean (dataArray fr)))
  end.

(* ---------------------------------------------------------------- *)
(** ** Scoring (lines 69-112) *)
(* ---------------------------------------------------------------- *)

(** [samples.reduce((sum, s) => sum + s.f, 0) / samples.length]. *)
Definition average (f : Sample -> num) (samples : list Sample) : num :=
  fold_left (fun sum s => sum + f s) samples (lit 0)
  / of_int (Z.of_nat (length samples)).

Definition pitchScoreOf (avgPitch : num) : num :=
  Math_min (Math_max ((avgPitch - lit 150) / lit 200) (lit 0)) (lit 1).

Definition volumeScoreOf (avgVolume : num) : num :=
  Math_min (Math_max (avgVolume / lit 0.15) (lit 0)) (lit 1).

Definition varianceScoreOf (avgVariance : num) : num :=
  Math_min (Math_max (avgVariance / lit 800) (lit 0)) (lit 1).

Definition happyScoreOf (pitchScore volumeScore varianceScore : num) : num :=
  (if pitchScore > lit 0.5 then lit 1 else pitchScore * lit 2) * lit 0.35
  + (if volumeScore > lit 0.6 then lit 1 else volumeScore) * lit 0.35
  + (if varianceScore > lit 0.4 then lit 1 else varianceScore * lit 1.5)
    * lit 0.3.

Definition sadScoreOf (pitchScore volumeScore varianceScore : num) : num :=
  (if pitchScore < lit 0.4 then lit 1
   else (lit 1 - pitchScore) * lit 1.5) * lit 0.35
  + (if volumeScore < lit 0.5 then lit 1
     else (lit 1 - volumeScore) * lit 1.2) * lit 0.4
  + (if varianceScore < lit 0.35 then lit 1
     else (lit 1 - varianceScore) * lit 1.3) * lit 0.25.

(** Lines 102-112. *)
Definition decideEmotion (happyScore sadScore : num) : EmotionType :=
  if (happyScore > lit 0.45) && (happyScore > sadScore + lit 0.1)
  then happy
  else if (sadScore > lit 0.45) && (sadScore > happyScore + lit 0.1)
  then sad
  else if (Math_abs (happyScore - sadScore) < lit 0.1)
          && ((happyScore > lit 0.3) || (sadScore > lit 0.3))
  then (if happyScore > sadScore then happy else sad)
  else neutral.

Definition pitchScore (samples : list Sample) : num :=
  pitchScoreOf (average pitch samples).
Definition volumeScore (samples : list Sample) : num :=
  volumeScoreOf (average volume samples).
Definition varianceScore (samples : list Sample) : num :=
  varianceScoreOf (average variance samples).

Definition happyScore (samples : list Sample) : num :=
  happyScoreOf (pitchScore samples) (volumeScore samples)
               (varianceScore samples).
Definition sadScore (samples : list Sample) : num :=
  sadScoreOf (pitchScore samples) (volumeScore samples)
             (varianceScore samples).

(** The emotion computed from the samples held at lines 69-112. *)
Definition classify (samples : list Sample) : EmotionType :=
  decideEmotion (happyScore samples) (sadScore samples).

(* ---------------------------------------------------------------- *)
(** ** The component and its session life cycle *)
(* ---------------------------------------------------------------- *)

Definition UserId : Type := nat.

(** The values of the render in which [startRecording] was created.
    The [onstop] handler is built inside that call, so [user],
    [detectedEmotion] and [recordingTime] in its body are the
    bindings of that render. *)
Record Render : Type := mkRender {
  r_user : option UserId;
  r_detectedEmotion : option EmotionType;
  r_recordingTime : Z
}.

Record MediaRecorder : Type := mkMediaRecorder { onstop : Render }.

Record AudioContext : Type := mkAudioContext { sampleRate : num }.

Record AnalyserNode : Type := mkAnalyserNode { fftSize : Z }.

(** State of one mounted [VoiceRecorder]: the hook values of the
    latest render and the contents of the refs. *)
Record Component : Type := mkComponent {
  user : option UserId;
  isRecording : bool;
  recordingTime : Z;
  detectedEmotion : option EmotionType;
  waveformData : list num;
  mediaRecorderRef : option MediaRecorder;
  audioContextRef : option AudioContext;
  analyserRef : option AnalyserNode;
  emotionSamplesRef : list Sample
}.

(** The component as mounted (lines 17-28). *)
Definition mount (u : option UserId) : Component :=
  mkComponent u false 0 None (repeat (lit 0.3) 20) None None None [].

Definition set_detectedEmotion (e : option EmotionType) (c : Component) :=
  mkComponent (user c) (isRecording c) (recordingTime c) e (waveformData c)
              (mediaRecorderRef c) (audioContextRef c) (analyserRef c)
              (emotionSamplesRef c).

Definition set_emotionSamples (w : list Sample) (c : Component) :=
  mkComponent (user c) (isRecording c) (recordingTime c) (detectedEmotion c)
              (waveformData c) (mediaRecorderRef c) (audioContextRef c)
              (analyserRef c) w.

Definition set_waveformData (w : list num) (c : Component) :=
  mkComponent (user c) (isRecording c) (recordingTime c) (detectedEmotion c)
              w (mediaRecorderRef c) (audioContextRef c) (analyserRef c)
              (emotionSamplesRef c).

Definition set_recordingTime (t : Z) (c : Component) :=
  mkComponent (user c) (isRecording c) t (detectedEmotion c) (waveformData c)
              (mediaRecorderRef c) (audioContextRef c) (analyserRef c)
              (emotionSamplesRef c).

Definition set_isRecording (b : bool) (c : Component) :=
  mkComponent (user c) b (recordingTime c) (detectedEmotion c)
              (waveformData c) (mediaRecorderRef c) (audioContextRef c)
              (analyserRef c) (emotionSamplesRef c).

(** [array.slice(-n)]. *)
Definition slice_last {A : Type} (n : nat) (l : list A) : list A :=
  skipn (length l - n) l.

(** [analyzeAudioEmotion] (lines 31-119). *)
Definition analyzeAudioEmotion (c : Component) (fr : Frame)
  : completion Component :=
  match analyserRef c with
  | None => Normal c
  | Some _ =>
      match extractSample (option_map sampleRate (audioContextRef c)) fr with
      | Throw e => Throw e
      | Normal s =>
          let samples := emotionSamplesRef c ++ [s] in
          if (10 <=? length samples)%nat then
            let emotion := classify samples in
            Normal (set_emotionSamples
                      (if (100 <? length samples)%nat
                       then slice_last 100 samples else samples)
                      (set_detectedEmotion (Some emotion) c))
          else Normal (set_emotionSamples samples c)
      end
  end.

(** [updateWaveform] (lines 122-126); [random i] is the value of the
    [i]-th call of [Math.random] in the tick. *)
Definition updateWaveform (random : nat -> num) (c : Component) : Component :=
  set_waveformData
    (map (fun i => random i * lit 0.7 + lit 0.3)
         (seq 0 (length (waveformData c)))) c.

(** The 200 ms interval callback (lines 230-233).  An exception of
    the analysis ends the callback; the waveform update stays. *)
Definition onInterval (c : Component) (random : nat -> num) (fr : Frame)
  : Component :=
  let c1 := updateWaveform random c in
  match analyzeAudioEmotion c1 fr with
  | Normal c2 => c2
  | Throw _ => c1
  end.

(** The 1 s timer (lines 225-227). *)
Definition onTimer (c : Component) : Component :=
  set_recordingTime (recordingTime c + 1)%Z c.

(** [startRecording] (lines 128-237); [stream] is the sample rate of
    the audio context when [getUserMedia] resolves, [None] when it
    rejects. *)
Definition startRecording (c : Component) (stream : option num) : Component :=
  match stream with
  | None => c
  | Some rate =>
      mkComponent (user c) true (recordingTime c) (detectedEmotion c)
                  (waveformData c)
                  (Some (mkMediaRecorder
                           (mkRender (user c) (detectedEmotion c)
                                     (recordingTime c))))
                  (Some (mkAudioContext rate))
                  (Some (mkAnalyserNode 2048))
                  []
  end.

(** [stopRecording] (lines 239-251): the recorder whose [stop] was
    called, if any. *)
Definition stopRecording (c : Component) : Component * option MediaRecorder :=
  match mediaRecorderRef c with
  | Some recorder =>
      if isRecording c then (set_isRecording false c, Some recorder)
      else (c, None)
  | None => (c, None)
  end.

(** The row inserted into [voice_notes] (lines 178-184). *)
Record NoteRow : Type := mkNoteRow {
  user_id : UserId;
  emotion : EmotionType;
  duration : Z
}.

Inductive StorageOutcome : Type := UploadError | DbError | Saved.

(** The cleanup at the end of [onstop] (lines 209-218). *)
Definition cleanup (c : Component) : Component :=
  mkComponent (user c) (isRecording c) 0 None (repeat (lit 0.3) 20)
              (mediaRecorderRef c) None None (emotionSamplesRef c).

(** The [onstop] handler of a recorder (lines 148-219). *)
Definition run_onstop (recorder : MediaRecorder) (outcome : StorageOutcome)
           (c : Component) : Component * option NoteRow :=
  let env := onstop recorder in
  let finalEmotion :=
    match r_detectedEmotion env with Some e => e | None => neutral end in
  match r_user env with
  | None => (c, None)
  | Some u =>
      match outcome with
      | Saved =>
          (cleanup c, Some (mkNoteRow u finalEmotion (r_recordingTime env)))
      | UploadError | DbError => (cleanup c, None)
      end
  end.

(** The sample a frame contributes when the analysis completes. *)
Definition sampleOf (rate : option num) (fr : Frame) : Sample :=
  match extractSample rate fr with
  | Normal s => s
  | Throw _ => mkSample (lit 0) (lit 0) (lit 0)
  end.

Definition samplesOf (rate : option num)
           (inputs : list ((nat -> num) * Frame)) : list Sample :=
  map (fun i => sampleOf rate (snd i)) inputs.

(** A recording is under way on an audio context of the given rate. *)
Definition recording (rate : num) (c : Component) : Prop :=
  analyserRef c <> None /\ audioContextRef c = Some (mkAudioContext rate).

(** The frames of the inputs all have at least one bin. *)
Definition nonempty_frames (inputs : list ((nat -> num) * Frame)) : Prop :=
  Forall (fun i => dataArray (snd i) <> []) inputs.

(** The parts of the component that the analysis reads and writes. *)
Definition classifier_state (c : Component) :=
  (detectedEmotion c, emotionSamplesRef c, analyserRef c, audioContextRef c).

(** A run of interval ticks. *)
Definition ticks (c : Component) (inputs : list ((nat -> num) * Frame))
  : Component :=
  fold_left (fun c i => onInterval c (fst i) (snd i)) inputs c.

(** Stopping a recording and letting the recorder's handler run. *)
Definition stopAndSave (c : Component) (outcome : StorageOutcome)
  : Component * option NoteRow :=
  match stopRecording c with
  | (c', Some recorder) => run_onstop recorder outcome c'
  | (c', None) => (c', None)
  end.

End Model.

(* ================================================================== *)
(** * The classifier as the specification words it *)
(* ================================================================== *)

Section Specification.

Context {J : JsNumber}.
Local Open Scope js_scope.

(** Arithmetic mean: the sum of the values, in order, over their
    count. *)
Definition spec_mean (xs : list num) : num :=
  fold_left add xs (lit 0) / of_int (Z.of_nat (length xs)).

Definition spec_square (x : num) : num := x * x.

(** clamp(x, lo, hi) = min(max(x, lo), hi). *)
Definition spec_clamp (x lo hi : num) : num := Math_min (Math_max x lo) hi.

(** Loudness = sqrt(mean(x_i^2)). *)
Definition spec_loudness (timeDomainSignal : list num) : num :=
  Math_sqrt (spec_mean (map spec_square timeDomainSignal)).

(** [i] is the index of the maximum bin, the lowest one among equal
    maxima. *)
Definition first_maximum (spectrum : list Z) (i : nat) : Prop :=
  (i < length spectrum)%nat /\
  (forall j, (j < length spectrum)%nat ->
             (nth j spectrum 0 <= nth i spectrum 0)%Z) /\
  (forall j, (j < i)%nat -> (nth j spectrum 0 < nth i spectrum 0)%Z).

(** Pitch = indexOfMaxEnergyBin * sampleRate / (N * 2). *)
Definition spec_pitch (indexOfMaxEnergyBin : nat) (rate : num) (N : nat)
  : num :=
  of_int (Z.of_nat indexOfMaxEnergyBin) * rate
  / (of_int (Z.of_nat N) * lit 2).

(** Spectral variance = mean((s_i - mean(s))^2). *)
Definition spec_variance (spectrum : list num) : num :=
  let m := spec_mean spectrum in
  spec_mean (map (fun s => spec_square (s - m)) spectrum).

Definition spec_avgPitch (window : list Sample) : num :=
  spec_mean (map pitch window).
Definition spec_avgLoudness (window : list Sample) : num :=
  spec_mean (map volume window).
Definition spec_avgVariance (window : list Sample) : num :=
  spec_mean (map variance window).

Definition spec_pitchScore (window : list Sample) : num :=
  spec_clamp ((spec_avgPitch window - lit 150) / lit 200) (lit 0) (lit 1).
Definition spec_loudnessScore (window : list Sample) : num :=
  spec_clamp (spec_avgLoudness window / lit 0.15) (lit 0) (lit 1).
Definition spec_varianceScore (window : list Sample) : num :=
  spec_clamp (spec_avgVariance window / lit 800) (lit 0) (lit 1).

Definition spec_happyScore (window : list Sample) : num :=
  let p := spec_pitchScore window in
  let l := spec_loudnessScore window in
  let v := spec_varianceScore window in
  lit 0.35 * (if p > lit 0.5 then lit 1 else p * lit 2)
  + lit 0.35 * (if l > lit 0.6 then lit 1 else l)
  + lit 0.30 * (if v > lit 0.4 then lit 1 else v * lit 1.5).

Definition spec_sadScore (window : list Sample) : num :=
  let p := spec_pitchScore window in
  let l := spec_loudnessScore window in
  let v := spec_varianceScore window in
  lit 0.35 * (if p < lit 0.4 then lit 1 else (lit 1 - p) * lit 1.5)
  + lit 0.40 * (if l < lit 0.5 then lit 1 else (lit 1 - l) * lit 1.2)
  + lit 0.25 * (if v < lit 0.35 then lit 1 else (lit 1 - v) * lit 1.3).

(** The four-branch decision policy, in priority order. *)
Definition spec_currentLabel (window : list Sample) : EmotionType :=
  let h := spec_happyScore window in
  let s := spec_sadScore window in
  if (h > lit 0.45) && (h > s + lit 0.1) then happy
  else if (s > lit 0.45) && (s > h + lit 0.1) then sad
  else if (Math_abs (h - s) < lit 0.1) && ((h > lit 0.3) || (s > lit 0.3))
  then (if h > s then happy else sad)
  else neutral.

End Specification.

(* ================================================================== *)
(** * Concrete sessions *)
(* ================================================================== *)

Module Examples.

Definition rate : @num Float64 := 44100%float.

Definition zero : @num Float64 := 0%float.

Definition level : @num Float64 := 0.09033203125%float.

(** No sound at all: every bin and every time-domain value is zero. *)
Definition silentFrame : Frame (J := Float64) :=
  mkFrame (repeat 0%Z 1024) (repeat zero 1024).

(** A silent frame of [N] bins, and the sample it yields. *)
Definition silentFrameOf (N : nat) : Frame (J := Float64) :=
  mkFrame (repeat 0%Z N) (repeat zero N).

Definition zeroSample : Sample (J := Float64) := mkSample zero zero zero.

(** The sample rate read through [audioContextRef.current?.sampleRate]
    is the rate of an audio context whenever there is one. *)
Definition rate_ok (rate : option (@num Float64)) : Prop :=
  forall r, rate = Some r -> F64.positive_finite r.

(** Inputs whose frames are all silent, with [N] bins each. *)
Definition silent_inputs (N : nat)
           (inputs : list ((nat -> @num Float64) * Frame)) : Prop :=
  Forall (fun i => snd i = silentFrameOf N) inputs.

(** A steady hum: the lower half of the spectrum saturated, a
    constant time-domain level of 185/2048. *)
Definition humFrame : Frame (J := Float64) :=
  mkFrame (repeat 255%Z 512 ++ repeat 0%Z 512) (repeat level 1024).

Definition random : nat -> @num Float64 := fun _ => 0.5%float.

Definition otherRandom : nat -> @num Float64 :=
  fun i => F64.of_int (Z.of_nat i).

(** Ten frames of the hum, with the two random sources of the waveform
    animation. *)
Definition tenFrames : list ((nat -> @num Float64) * Frame (J := Float64)) :=
  repeat (random, humFrame) 10.

Definition tenFramesAgain
  : list ((nat -> @num Float64) * Frame (J := Float64)) :=
  repeat (otherRandom, humFrame) 10.

(** A session of [n] silent ticks on a freshly mounted component. *)
Definition silentSession (u : option UserId) (n : nat)
  : Component (J := Float64) :=
  ticks (startRecording (mount u) (Some rate))
        (repeat (random, silentFrame) n).

(** One silent tick followed by a hundred ticks of hum. *)
Definition humInputs : list ((nat -> @num Float64) * Frame (J := Float64)) :=
  (random, silentFrame) :: repeat (random, humFrame) 100.

Definition humSession : Component (J := Float64) :=
  ticks (startRecording (mount (Some 1%nat)) (Some rate)) humInputs.

(** The last tick of [humInputs] and the hundred before it. *)
Definition humPrefix : list ((nat -> @num Float64) * Frame (J := Float64)) :=
  (random, silentFrame) :: repeat (random, humFrame) 99.

Definition humLast : (nat -> @num Float64) * Frame (J := Float64) :=
  (random, humFrame).

(** Nine silent ticks into a recording. *)
Definition nineTicks : Component (J := Float64) := silentSession (Some 1%nat) 9.

End Examples.

(* ================================================================== *)
(** * Binary64 numbers as reals: definitions *)
(* ================================================================== *)

Module F64Value.

Local Open Scope R_scope.

Definition bpow (e : Z) : R := powerRZ 2 e.

(** The real number a non-negative finite binary64 value stands for. *)
Definition value (x : spec_float) : R :=
  match x with
  | S754_finite false m e => IZR (Z.pos m) * bpow e
  | _ => 0
  end.

(** Zero of either sign, or positive and finite. *)
Definition nonneg (x : spec_float) : Prop :=
  match x with
  | S754_zero _ | S754_finite false _ _ => True
  | _ => False
  end.

(** What [k] right shifts of [M] leave: the quotient, and whether
    anything was shifted out. *)
Definition shifted (M : Z) (k : nat) (mrs : shr_record) : Prop :=
  shr_m mrs = (M / 2 ^ Z.of_nat k)%Z /\
  ((shr_r mrs = false /\ shr_s mrs = false) <-> (M mod 2 ^ Z.of_nat k = 0)%Z).

(** [x] is zero or positive and finite, and stands for at most [b]. *)
Definition below (x : float) (b : R) : Prop :=
  nonneg (Prim2SF x) /\ value (Prim2SF x) <= b.

(** [c] is a positive normal number. *)
Definition normal (c : float) : Prop :=
  exists m e, Prim2SF c = S754_finite false m e /\ digits2_pos m = 53%positive.

Definition positive_float (c : float) : Prop :=
  exists m e, Prim2SF c = S754_finite false m e.

(** A result of sign [s], never NaN. *)
Definition signed (s : bool) (x : spec_float) : Prop :=
  match x with
  | S754_zero s' | S754_infinity s' | S754_finite s' _ _ => s' = s
  | S754_nan => False
  end.

(** Not NaN. *)
Definition number (x : spec_float) : Prop := x <> S754_nan.

(** Zero, or positive, possibly infinite. *)
Definition nonneg_inf (x : spec_float) : Prop :=
  match x with
  | S754_zero _ | S754_finite false _ _ | S754_infinity false => True
  | _ => False
  end.

(** A feature value: zero, positive, or [+Infinity]; never NaN. *)
Definition feature (x : @num Float64) : Prop := nonneg_inf (Prim2SF x).

Definition feature_sample (s : Sample (J := Float64)) : Prop :=
  feature (pitch s) /\ feature (volume s) /\ feature (variance s).

(** What the analyser delivers on a tick: [N] bytes and [N] time-domain
    values, none of them NaN. *)
Definition clean_input (i : (nat -> @num Float64) * Frame) : Prop :=
  exists N, F64.array_length N /\ frame_of_size N (snd i) /\
            Forall (fun x : @num Float64 => F64.is_nan x = false)
                   (timeDomainArray (snd i)).

End F64Value.

(* ================================================================== *)
(** * Recording sessions *)
(* ================================================================== *)

Section Lifecycle.

Context {J : JsNumber}.

(** What fires between [startRecording] and [stopRecording]: the
    200 ms interval (lines 230-233) and the 1 s timer (lines 225-227).
    Both are set at the end of [startRecording] and cleared by
    [stopRecording]. *)
Inductive Tick : Type :=
| IntervalTick (random : nat -> num) (fr : Frame)
| TimerTick.

Definition onTick (c : Component) (t : Tick) : Component :=
  match t with
  | IntervalTick random fr => onInterval c random fr
  | TimerTick => onTimer c
  end.

(** One recording: the round button pressed to start (line 274 calls
    [startRecording] while [isRecording] is false), the ticks, the
    button pressed again ([stopRecording]) and the recorder's handler
    run to its end. *)
Record Session : Type := mkSession {
  stream : option num;
  events : list Tick;
  outcome : StorageOutcome
}.

Definition runSession (c : Component) (s : Session)
  : Component * option NoteRow :=
  match stream s with
  | None => (startRecording c None, None)
  | Some rate =>
      stopAndSave (fold_left onTick (events s) (startRecording c (Some rate)))
                  (outcome s)
  end.

(** Recordings one after the other, with the rows they insert. *)
Fixpoint runSessions (c : Component) (ss : list Session)
  : Component * list NoteRow :=
  match ss with
  | [] => (c, [])
  | s :: rest =>
      let (c1, row) := runSession c s in
      let (c2, rows) := runSessions c1 rest in
      (c2, match row with Some r => r :: rows | None => rows end)
  end.

(** The frames that the interval ticks of a session hand to the
    analysis, and the number of timer ticks. *)
Fixpoint intervalInputs (evs : list Tick) : list ((nat -> num) * Frame) :=
  match evs with
  | [] => []
  | IntervalTick random fr :: rest => (random, fr) :: intervalInputs rest
  | TimerTick :: rest => intervalInputs rest
  end.


(** A session whose upload and insert went through. *)
Definition saved (s : Session) : bool :=
  match stream s, outcome s with
  | Some _, Saved => true
  | _, _ => false
  end.

End Lifecycle.

(* ================================================================== *)
(** * Text: the displayed time *)
(* ================================================================== *)

Module Text.

Import String.
Local Open Scope string_scope.

(** The decimal numeral of an integer. *)
Definition decimal (n : Z) : string :=
  DecimalString.NilZero.string_of_int (Z.to_int n).

(** The first [n] characters of [padString] repeated; [rest] is what
    is left of the copy being written. *)
Fixpoint fill (padString rest : string) (n : nat) : string :=
  match n with
  | O => ""
  | S n' =>
      match rest with
      | String a r => String a (fill padString r n')
      | EmptyString =>
          match padString with
          | String a r => String a (fill padString r n')
          | EmptyString => ""
          end
      end
  end.

(** [s.padStart(targetLength, padString)]. *)
Definition padStart (s : string) (targetLength : nat) (padString : string)
  : string :=
  if (targetLength <=? length s)%nat then s
  else match padString with
       | EmptyString => s
       | _ => fill padString padString (targetLength - length s) ++ s
       end.

(** The number of an integer [n] with [|n| <= 2^53]. *)
Definition of_integer (n : Z) : float :=
  if (0 <=? n)%Z then F64.of_int n else PrimFloat.opp (F64.of_int (- n)).

(** [Math.floor] on binary64.  A finite number [m * 2^e] with
    [0 <= e] is an integer; with [e < 0] it lies within [2^53] of
    zero, so that the integer below it is a binary64 number.  NaN,
    the infinities and the zeros are returned as they are. *)
Definition Math_floor (x : float) : float :=
  match Prim2SF x with
  | S754_finite s m e =>
      if (e <? 0)%Z then of_integer (cond_Zopp s (Z.pos m) / 2 ^ (- e))
      else x
  | _ => x
  end.

(** [n % d] on binary64: the remainder of the division truncated
    towards zero, which has the sign of [n] and is a binary64 number
    itself, so that nothing is rounded. *)
Definition remainder (n d : float) : float :=
  match Prim2SF n, Prim2SF d with
  | S754_nan, _ | _, S754_nan => PrimFloat.nan
  | S754_infinity _, _ => PrimFloat.nan
  | _, S754_infinity _ => n
  | _, S754_zero _ => PrimFloat.nan
  | S754_zero _, _ => n
  | S754_finite sn mn en, S754_finite _ md ed =>
      let e := Z.min en ed in
      let N := (Z.pos mn * 2 ^ (en - e))%Z in
      let D := (Z.pos md * 2 ^ (ed - e))%Z in
      SF2Prim (binary_normalize prec emax (cond_Zopp sn (N mod D)) e sn)
  end.

Section Time.

(** [Number.prototype.toString], which the template literal applies
    to the minutes and the source calls on the seconds. *)
Variable toString : float -> string.

(** [formatTime] (VoiceRecorder, lines 253-257). *)
Definition formatTime (seconds : float) : string :=
  let mins := Math_floor (PrimFloat.div seconds (F64.lit 60)) in
  let secs := remainder seconds (F64.lit 60) in
  toString mins ++ ":" ++ padStart (toString secs) 2 "0".

(** [formatDuration] (VoiceNoteList, lines 65-69). *)
Definition formatDuration (seconds : float) : string :=
  let mins := Math_floor (PrimFloat.div seconds (F64.lit 60)) in
  let secs := remainder seconds (F64.lit 60) in
  toString mins ++ ":" ++ padStart (toString secs) 2 "0".

End Time.

(** What the language promises of [toString] on the integers that
    binary64 holds exactly: their decimal numeral. *)
Definition prints_integers (toString : float -> string) : Prop :=
  forall n : Z, (0 <= n < 2 ^ 53)%Z -> toString (F64.of_int n) = decimal n.

(** The character of a decimal digit. *)
Definition digit (d : Z) : Ascii.ascii := Ascii.ascii_of_nat (48 + Z.to_nat d).

(** [s.includes(sub)]. *)
Fixpoint includes (s sub : string) : bool :=
  prefix sub s
  || match s with
     | EmptyString => false
     | String _ rest => includes rest sub
     end.

End Text.

(* ================================================================== *)
(** * The list of notes ([VoiceNotes], [VoiceNoteList], [EmotionChart]) *)
(* ================================================================== *)

Module Notes.

Import String.
Local Open Scope string_scope.

(** [VoiceNote] of [types/voice-note]; [createdAt] in milliseconds.
    The blob of the audio plays no part in what follows. *)
Record VoiceNote : Type := mkVoiceNote {
  id : string;
  title : string;
  audioUrl : string;
  emotion : EmotionType;
  duration : Z;
  createdAt : Z;
  transcript : option string
}.

Record Toast : Type := mkToast {
  toast_title : string;
  description : string;
  destructive : bool
}.

Definition emotionName (e : EmotionType) : string :=
  match e with
  | happy => "happy"
  | neutral => "neutral"
  | sad => "sad"
  end.

(** What the insert returns in [noteData] (lines 176-186). *)
Record NoteData : Type := mkNoteData {
  data_id : string;
  data_title : string;
  created_at : Z
}.

(** [newNote] of the recorder's handler (lines 190-198);
    [signedUrl] is [urlData?.signedUrl]. *)
Definition newNote (row : NoteRow) (noteData : NoteData)
           (signedUrl : option string) : VoiceNote :=
  match row with
  | mkNoteRow _ finalEmotion recordingTime =>
      mkVoiceNote (data_id noteData) (data_title noteData)
                  (match signedUrl with
                   | Some (String a r) => String a r
                   | _ => ""
                   end)
                  finalEmotion recordingTime (created_at noteData) None
  end.

(** [handleNoteCreated] (VoiceNotes, lines 74-80). *)
Definition handleNoteCreated (newNote : VoiceNote) (notes : list VoiceNote)
  : list VoiceNote * Toast :=
  (newNote :: notes,
   mkToast "Voice note saved!"
           ("Detected emotion: " ++ emotionName (emotion newNote)) false).

(** [handleDeleteNote] (VoiceNotes, lines 82-105); [error] is the
    answer of the delete request.  The result holds the notes, the
    id of the delete request if one was sent, and the toast. *)
Definition handleDeleteNote (notes : list VoiceNote) (noteId : string)
           (error : bool) : list VoiceNote * option string * option Toast :=
  match find (fun note => id note =? noteId) notes with
  | None => (notes, None, None)
  | Some _ =>
      if error
      then (notes, Some noteId,
            Some (mkToast "Error" "Failed to delete note" true))
      else (filter (fun note => negb (id note =? noteId)) notes, Some noteId,
            Some (mkToast "Note deleted" "Voice note has been removed." false))
  end.

(** What the recorder's handler does to the list when it is given
    [handleNoteCreated] (VoiceNotes, line 165; VoiceRecorder, line
    200). *)
Definition finishRecording {J : JsNumber} (c : Component)
           (outcome : StorageOutcome) (noteData : NoteData)
           (signedUrl : option string) (notes : list VoiceNote)
  : Component * list VoiceNote :=
  match stopAndSave c outcome with
  | (c', Some row) =>
      (c', fst (handleNoteCreated (newNote row noteData signedUrl) notes))
  | (c', None) => (c', notes)
  end.

(** The "Recent Notes" preview (VoiceNotes, line 173). *)
Definition recentNotes (notes : list VoiceNote) : list VoiceNote :=
  firstn 3 notes.

(** ** The filter of [VoiceNoteList] (lines 20-24) *)

(** [EmotionType | 'all']. *)
Inductive EmotionFilter : Type :=
| all
| only (e : EmotionType).

Definition emotion_eqb (a b : EmotionType) : bool :=
  if EmotionType_eq_dec a b then true else false.

Section Filter.

(** [String.prototype.toLowerCase]. *)
Variable toLowerCase : string -> string.

Definition matches (searchTerm : string) (selectedEmotion : EmotionFilter)
           (note : VoiceNote) : bool :=
  let matchesSearch :=
    Text.includes (toLowerCase (title note)) (toLowerCase searchTerm) in
  let matchesEmotion :=
    match selectedEmotion with
    | all => true
    | only e => emotion_eqb (emotion note) e
    end in
  matchesSearch && matchesEmotion.

Definition filteredNotes (notes : list VoiceNote) (searchTerm : string)
           (selectedEmotion : EmotionFilter) : list VoiceNote :=
  filter (matches searchTerm selectedEmotion) notes.

End Filter.

(** ** The distribution chart of [EmotionChart] (pieData) *)

(** [{ happy, neutral, sad }], a count for each emotion. *)
Definition Totals : Type := EmotionType -> Z.

(** [acc[note.emotion]++]. *)
Definition increment (acc : Totals) (e : EmotionType) : Totals :=
  fun e' => if EmotionType_eq_dec e' e then (acc e' + 1)%Z else acc e'.

Definition totals (notes : list VoiceNote) : Totals :=
  fold_left (fun acc note => increment acc (emotion note)) notes
            (fun _ => 0%Z).

Record Slice : Type := mkSlice {
  name : string;
  value : Z;
  color : string
}.

Definition pieData (notes : list VoiceNote) : list Slice :=
  let totals := totals notes in
  filter (fun item => (0 <? value item)%Z)
         [ mkSlice "Happy" (totals happy) "#22c55e";
           mkSlice "Neutral" (totals neutral) "#3b82f6";
           mkSlice "Sad" (totals sad) "#f97316" ].

End Notes.

(* ================================================================== *)
(** * Binary64 numbers as reals: lower bounds *)
(* ================================================================== *)

Module F64Lower.

Import F64Value.
Local Open Scope R_scope.

(** [x] is zero, positive or [+Infinity], and stands for at least
    [b]. *)
Definition above (x : float) (b : R) : Prop :=
  nonneg_inf (Prim2SF x) /\
  (Prim2SF x = S754_infinity false \/ b <= value (Prim2SF x)).

(** The same of a rounded result. *)
Definition above_sf (x : spec_float) (b : R) : Prop :=
  nonneg_inf x /\ (x = S754_infinity false \/ b <= value x).

End F64Lower.

(* ================================================================== *)
(** * More concrete frames, sessions and notes *)
(* ================================================================== *)

Module Scenes.

Import Examples String.

(** The upper half of the spectrum saturated, at the level of the
    hum: a high dominant bin, a loud signal, a wide spread. *)
Definition brightFrame : Frame (J := Float64) :=
  mkFrame (repeat 0%Z 512 ++ repeat 255%Z 512) (repeat level 1024).

Definition notANumber : @num Float64 := PrimFloat.nan.

(** A silent frame whose first time-domain value is NaN. *)
Definition nanFrame : Frame (J := Float64) :=
  mkFrame (repeat 0%Z 1024) (notANumber :: repeat zero 1023).

(** A frame of an analyser without bins. *)
Definition emptyFrame : Frame (J := Float64) := mkFrame [] [].

(** Twelve ticks of hum between three ticks of the timer. *)
Definition humEvents : list (Tick (J := Float64)) :=
  TimerTick :: repeat (IntervalTick random humFrame) 12
  ++ [TimerTick; TimerTick].

(** A saved recording, a denied microphone, a failed insert. *)
Definition threeSessions : list (Session (J := Float64)) :=
  [ mkSession (Some rate) humEvents Saved;
    mkSession None [] Saved;
    mkSession (Some rate) humEvents DbError ].


Definition started : Component (J := Float64) :=
  startRecording (mount (Some 1%nat)) (Some rate).


Definition morning : Notes.VoiceNote :=
  Notes.mkVoiceNote "a1"%string "Voice Note 1/5/2026"%string
                    String.EmptyString happy 0 0 None.

Definition evening : Notes.VoiceNote :=
  Notes.mkVoiceNote "b2"%string "Voice Note 1/6/2026"%string
                    String.EmptyString sad 0 0 None.

Definition inserted : Notes.NoteData :=
  Notes.mkNoteData "c3"%string "Voice Note 1/7/2026"%string 0.

(** The integer that a number holds, if it holds one. *)
Definition wholeOf (x : float) : option Z :=
  match Prim2SF x with
  | S754_zero _ => Some 0%Z
  | S754_finite s m e =>
      if (0 <=? e)%Z then Some (cond_Zopp s (Z.pos m * 2 ^ e))
      else if (Z.pos m mod 2 ^ (- e) =? 0)%Z
           then Some (cond_Zopp s (Z.pos m / 2 ^ (- e)))
           else None
  | _ => None
  end.

(** A [toString] for the scenes: the decimal numeral of a number
    that holds an integer within [2^53] of zero.  The scenes print
    no other number, and no text is given to one here. *)
Definition printWhole (x : float) : string :=
  match wholeOf x with
  | Some n => if (Z.abs n <? 2 ^ 53)%Z then Text.decimal n else ""
  | None => ""
  end.

(** [toLowerCase] on ASCII text. *)
Definition oldTerm : string := "Note".

Definition newTerm : string := "NOTE 1/5".

Definition lowerAscii (a : Ascii.ascii) : Ascii.ascii :=
  let n := Ascii.nat_of_ascii a in
  if (65 <=? n) && (n <=? 90) then Ascii.ascii_of_nat (n + 32) else a.

Fixpoint asciiLower (s : String.string) : String.string :=
  match s with
  | String.EmptyString => String.EmptyString
  | String.String a rest => String.String (lowerAscii a) (asciiLower rest)
  end.

End Scenes.

Unset Implicit Arguments.

(* ================================================================== *)
(** * Lists: the last [n] elements *)
(* ================================================================== *)

Section SliceFacts.

Context {A : Type}.
Implicit Types (l : list A) (n : nat).

Lemma slice_last_all n l : length l <= n -> slice_last n l = l.
Proof.
  intros H. unfold slice_last.
  replace (length l - n) with 0 by lia. reflexivity.
Qed.

Lemma slice_last_length n l : length (slice_last n l) = Nat.min n (length l).
Proof. unfold slice_last. rewrite length_skipn. lia. Qed.

Lemma slice_last_snoc n l x :
  1 <= n -> slice_last n (slice_last n l ++ [x]) = slice_last n (l ++ [x]).
Proof.
  intros Hn. destruct (Nat.le_gt_cases (length l) n) as [Hl|Hl].
  - now rewrite (slice_last_all n l Hl).
  - unfold slice_last at 2.
    assert (E : skipn (length l - n) l ++ [x]
                = skipn (length l - n) (l ++ [x])).
    { rewrite skipn_app. replace (length l - n - length l) with 0 by lia.
      reflexivity. }
    rewrite E. unfold slice_last. rewrite skipn_skipn.
    rewrite length_skipn, !length_app. simpl.
    f_equal. lia.
Qed.

Lemma slice_last_app n l l' :
  length l' = n -> slice_last n (l ++ l') = l'.
Proof.
  intros H. unfold slice_last. rewrite length_app, skipn_app.
  replace (length l + length l' - n) with (length l) by lia.
  rewrite skipn_all, Nat.sub_diag. reflexivity.
Qed.

End SliceFacts.

(* ================================================================== *)
(** * One tick of the analysis *)
(* ================================================================== *)

Section TickFacts.

Context {J : JsNumber}.

Lemma extractSample_Normal (rate : option num) (fr : Frame) :
  dataArray fr <> [] -> extractSample rate fr = Normal (sampleOf rate fr).
Proof.
  intros H. unfold sampleOf, extractSample.
  destruct (dataArray fr) as [|x rest]; [congruence|reflexivity].
Qed.

Lemma extractSample_Throw (rate : option num) (fr : Frame) :
  dataArray fr = [] -> extractSample rate fr = Throw TypeError.
Proof. intros H. unfold extractSample. now rewrite H. Qed.

(** The window and the label after a tick that completes. *)
Lemma analyze_Normal (c : Component) (fr : Frame) (rate : num) :
  recording rate c -> dataArray fr <> [] ->
  let samples := emotionSamplesRef c ++ [sampleOf (Some rate) fr] in
  exists c',
    analyzeAudioEmotion c fr = Normal c' /\
    emotionSamplesRef c' = slice_last 100 samples /\
    detectedEmotion c' =
      (if 10 <=? length samples then Some (classify samples)
       else detectedEmotion c) /\
    analyserRef c' = analyserRef c /\
    audioContextRef c' = audioContextRef c.
Proof.
  intros [Ha Hc] Hfr samples. unfold analyzeAudioEmotion.
  destruct (analyserRef c) as [a|] eqn:Ea; [|congruence].
  rewrite Hc. cbn [option_map sampleRate].
  rewrite (extractSample_Normal _ _ Hfr). fold samples.
  destruct (10 <=? length samples) eqn:E10.
  - eexists. split; [reflexivity|].
    cbn [emotionSamplesRef detectedEmotion analyserRef audioContextRef
         set_emotionSamples set_detectedEmotion].
    rewrite Ea, Hc. repeat split.
    destruct (100 <? length samples) eqn:E100; [reflexivity|].
    apply Nat.ltb_ge in E100. now rewrite slice_last_all.
  - eexists. split; [reflexivity|].
    cbn [emotionSamplesRef detectedEmotion analyserRef audioContextRef
         set_emotionSamples set_detectedEmotion].
    rewrite Ea, Hc. repeat split.
    apply Nat.leb_gt in E10. rewrite slice_last_all; [reflexivity|lia].
Qed.

Lemma updateWaveform_refs (random : nat -> num) (c : Component) :
  emotionSamplesRef (updateWaveform random c) = emotionSamplesRef c /\
  detectedEmotion (updateWaveform random c) = detectedEmotion c /\
  analyserRef (updateWaveform random c) = analyserRef c /\
  audioContextRef (updateWaveform random c) = audioContextRef c.
Proof. repeat split. Qed.

Lemma onInterval_Normal (c : Component) (random : nat -> num) (fr : Frame)
      (rate : num) :
  recording rate c -> dataArray fr <> [] ->
  let samples := emotionSamplesRef c ++ [sampleOf (Some rate) fr] in
  emotionSamplesRef (onInterval c random fr) = slice_last 100 samples /\
  detectedEmotion (onInterval c random fr) =
    (if 10 <=? length samples then Some (classify samples)
     else detectedEmotion c) /\
  recording rate (onInterval c random fr).
Proof.
  intros Hrec Hfr samples. unfold onInterval.
  assert (Hrec' : recording rate (updateWaveform random c)) by exact Hrec.
  destruct (analyze_Normal _ fr rate Hrec' Hfr) as (c' & E & Hw & Hl & Ha & Hc).
  rewrite E. unfold recording. rewrite Hw, Hl, Ha, Hc.
  repeat split; apply Hrec.
Qed.

Lemma ticks_snoc (c : Component) inputs i :
  ticks c (inputs ++ [i]) = onInterval (ticks c inputs) (fst i) (snd i).
Proof. unfold ticks. now rewrite fold_left_app. Qed.

Lemma samplesOf_snoc (rate : option num) inputs i :
  samplesOf rate (inputs ++ [i]) = samplesOf rate inputs ++ [sampleOf rate (snd i)].
Proof. unfold samplesOf. now rewrite map_app. Qed.

Lemma samplesOf_length (rate : option num) inputs :
  length (samplesOf rate inputs) = length inputs.
Proof. unfold samplesOf. apply length_map. Qed.

Lemma startRecording_recording (c : Component) (rate : num) :
  recording rate (startRecording c (Some rate)) /\
  emotionSamplesRef (startRecording c (Some rate)) = [] /\
  detectedEmotion (startRecording c (Some rate)) = detectedEmotion c.
Proof. repeat split. discriminate. Qed.

(** The window between ticks holds the last hundred samples of the
    session, oldest first. *)
Lemma ticks_window (c : Component) (rate : num) inputs :
  nonempty_frames inputs ->
  let c' := ticks (startRecording c (Some rate)) inputs in
  recording rate c' /\
  emotionSamplesRef c' = slice_last 100 (samplesOf (Some rate) inputs).
Proof.
  induction inputs as [|i inputs IH] using rev_ind; intros Hne.
  - split; [apply startRecording_recording|reflexivity].
  - apply Forall_app in Hne. destruct Hne as [Hne Hi].
    apply Forall_inv in Hi. destruct (IH Hne) as [Hrec Hw].
    rewrite ticks_snoc.
    destruct (onInterval_Normal _ (fst i) (snd i) rate Hrec Hi)
      as (Hw' & _ & Hrec').
    split; [exact Hrec'|].
    rewrite Hw', Hw, samplesOf_snoc. apply slice_last_snoc. lia.
Qed.

(** The label set by the tick that takes the session from [inputs]
    to [inputs ++ [i]]. *)
Lemma ticks_label (c : Component) (rate : num) inputs i :
  nonempty_frames (inputs ++ [i]) ->
  let before := ticks (startRecording c (Some rate)) inputs in
  let samples := emotionSamplesRef before ++ [sampleOf (Some rate) (snd i)] in
  detectedEmotion (ticks (startRecording c (Some rate)) (inputs ++ [i])) =
    (if 10 <=? length samples then Some (classify samples)
     else detectedEmotion before).
Proof.
  intros Hne before samples. apply Forall_app in Hne. destruct Hne as [Hne Hi].
  apply Forall_inv in Hi.
  destruct (ticks_window c rate inputs Hne) as [Hrec _].
  rewrite ticks_snoc.
  now destruct (onInterval_Normal _ (fst i) (snd i) rate Hrec Hi) as (_ & Hl & _).
Qed.

End TickFacts.

(* ================================================================== *)
(** * The rolling window *)
(* ================================================================== *)

Section WindowClaims.

Context {J : JsNumber}.

(** C4.  Once more than a hundred frames have been ingested, the
    window left by a tick has exactly a hundred samples: those of the
    hundred most recent frames, in arrival order.  Whatever the number
    of frames, the window left by a tick never has more than a
    hundred.  (Every prefix of a session is a session, so this holds
    after each tick.) *)
Theorem window_is_last_hundred (c : Component) (rate : num)
        (inputs : list ((nat -> num) * Frame)) :
  nonempty_frames inputs ->
  let window := emotionSamplesRef (ticks (startRecording c (Some rate)) inputs) in
  length window <= 100 /\
  (100 < length inputs ->
   length window = 100 /\
   window = skipn (length inputs - 100) (samplesOf (Some rate) inputs)).
Proof.
  intros Hne window.
  destruct (ticks_window c rate inputs Hne) as [_ Hw].
  fold window in Hw. split.
  - rewrite Hw, slice_last_length. lia.
  - intros Hlen. split.
    + rewrite Hw, slice_last_length, samplesOf_length. lia.
    + rewrite Hw. unfold slice_last. now rewrite samplesOf_length.
Qed.

(** C6, as the code has it.  A tick classifies the window as it is
    after the push and before the eviction: the samples kept by the
    previous tick followed by the new one, at most a hundred and one
    of them.  The eviction to a hundred comes after the label is set.
    The tick of the 101st frame classifies all 101 samples of the
    session. *)
Theorem classification_precedes_eviction (c : Component) (rate : num)
        (inputs : list ((nat -> num) * Frame)) (i : (nat -> num) * Frame) :
  nonempty_frames (inputs ++ [i]) ->
  let before := ticks (startRecording c (Some rate)) inputs in
  let after := ticks (startRecording c (Some rate)) (inputs ++ [i]) in
  let samples := emotionSamplesRef before ++ [sampleOf (Some rate) (snd i)] in
  10 <= length samples ->
  detectedEmotion after = Some (classify samples) /\
  length samples <= 101 /\
  emotionSamplesRef after = slice_last 100 samples /\
  (length inputs = 100 -> samples = samplesOf (Some rate) (inputs ++ [i])).
Proof.
  intros Hne before after samples H10.
  pose proof (ticks_label c rate inputs i Hne) as Hl.
  cbv zeta in Hl. fold before samples after in Hl.
  apply Nat.leb_le in H10. rewrite H10 in Hl.
  pose proof Hne as Hne'. apply Forall_app in Hne'. destruct Hne' as [Hne' _].
  destruct (ticks_window c rate inputs Hne') as [_ Hw]. fold before in Hw.
  destruct (ticks_window c rate (inputs ++ [i]) Hne) as [_ Hw']. fold after in Hw'.
  repeat split.
  - exact Hl.
  - unfold samples. rewrite length_app, Hw, slice_last_length. cbn [length]. lia.
  - rewrite Hw', samplesOf_snoc. unfold samples. rewrite Hw.
    symmetry. apply slice_last_snoc. lia.
  - intros H100. unfold samples. rewrite Hw, samplesOf_snoc.
    rewrite slice_last_all; [reflexivity|]. rewrite samplesOf_length. lia.
Qed.

End WindowClaims.

(* ================================================================== *)
(** * The label while the window is short, and across ticks *)
(* ================================================================== *)

Section LabelFacts.

Context {J : JsNumber}.

(** A tick that leaves fewer than ten samples does not touch the
    label. *)
Lemma onInterval_below_minimum (c : Component) (random : nat -> num)
      (fr : Frame) :
  length (emotionSamplesRef c) < 9 ->
  detectedEmotion (onInterval c random fr) = detectedEmotion c /\
  length (emotionSamplesRef (onInterval c random fr))
    <= S (length (emotionSamplesRef c)).
Proof.
  intros H. unfold onInterval, analyzeAudioEmotion.
  cbn [analyserRef audioContextRef emotionSamplesRef updateWaveform
       set_waveformData].
  destruct (analyserRef c); [|split; [reflexivity|cbn; lia]].
  destruct (extractSample _ fr) as [s|e]; [|split; [reflexivity|cbn; lia]].
  assert (E : (10 <=? length (emotionSamplesRef c ++ [s])) = false).
  { apply Nat.leb_gt. rewrite length_app. simpl. lia. }
  rewrite E. cbn [detectedEmotion emotionSamplesRef set_emotionSamples].
  split; [reflexivity|]. rewrite length_app. simpl. lia.
Qed.

Lemma ticks_below_minimum (c : Component) inputs :
  length (emotionSamplesRef c) + length inputs < 10 ->
  detectedEmotion (ticks c inputs) = detectedEmotion c.
Proof.
  revert c. induction inputs as [|i inputs IH]; intros c H; [reflexivity|].
  simpl in H. change (ticks c (i :: inputs))
    with (ticks (onInterval c (fst i) (snd i)) inputs).
  destruct (onInterval_below_minimum c (fst i) (snd i)) as [Hl Hn]; [lia|].
  rewrite IH; [exact Hl|lia].
Qed.

(** Fewer than ten ticks after [startRecording] leave the label that
    the component had when the recording was started. *)
Lemma label_after_restart (c : Component) (rate : num) inputs :
  length inputs < 10 ->
  detectedEmotion (ticks (startRecording c (Some rate)) inputs)
  = detectedEmotion c.
Proof.
  intros H. rewrite ticks_below_minimum; [reflexivity|]. simpl. lia.
Qed.

(** When the handler of the previous recording ran for a logged-in
    user, the label is unset until the tenth frame. *)
Lemma unset_after_cleanup (c : Component) (recorder : MediaRecorder)
      (outcome : StorageOutcome) (rate : num) inputs :
  r_user (onstop recorder) <> None -> length inputs < 10 ->
  detectedEmotion
    (ticks (startRecording (fst (run_onstop recorder outcome c)) (Some rate))
           inputs) = None.
Proof.
  intros Hu H. rewrite label_after_restart by exact H.
  unfold run_onstop. destruct (r_user (onstop recorder)); [|congruence].
  now destruct outcome.
Qed.

Lemma onInterval_classifier_state (c c' : Component)
      (random random' : nat -> num) (fr : Frame) :
  classifier_state c = classifier_state c' ->
  classifier_state (onInterval c random fr)
  = classifier_state (onInterval c' random' fr).
Proof.
  unfold classifier_state. intros E. injection E as El Ew Ea Ec.
  unfold onInterval, analyzeAudioEmotion.
  cbn [analyserRef audioContextRef emotionSamplesRef updateWaveform
       set_waveformData].
  rewrite <- Ea, <- Ec, <- Ew.
  destruct (analyserRef c) eqn:Eref;
    [destruct (extractSample _ fr) as [s|e];
     [destruct (10 <=? length (emotionSamplesRef c ++ [s]))|]|];
    cbn [detectedEmotion emotionSamplesRef analyserRef audioContextRef
         set_emotionSamples set_detectedEmotion updateWaveform
         set_waveformData];
    rewrite <- ?Ea, <- ?Ec, <- ?Ew, <- ?El, ?Eref; reflexivity.
Qed.

Lemma ticks_classifier_state (c c' : Component) inputs inputs' :
  classifier_state c = classifier_state c' ->
  map snd inputs = map snd inputs' ->
  classifier_state (ticks c inputs) = classifier_state (ticks c' inputs').
Proof.
  revert c c' inputs'.
  induction inputs as [|i inputs IH]; intros c c' [|i' inputs'] E Hf;
    try discriminate; [exact E|].
  simpl in Hf. injection Hf as Hi Hf.
  change (ticks c (i :: inputs)) with (ticks (onInterval c (fst i) (snd i)) inputs).
  change (ticks c' (i' :: inputs'))
    with (ticks (onInterval c' (fst i') (snd i')) inputs').
  apply IH; [|exact Hf]. rewrite <- Hi.
  now apply onInterval_classifier_state.
Qed.

Lemma slice_last_grows {A : Type} (n : nat) (l : list A) (x : A) :
  slice_last n l ++ [x] = slice_last (S n) (l ++ [x]).
Proof.
  unfold slice_last. rewrite length_app, skipn_app. cbn [length].
  replace (length l + 1 - S n) with (length l - n) by lia.
  replace (length l - n - length l) with 0 by lia. reflexivity.
Qed.

(** From the tenth frame on, the label of a session is the class of
    the last hundred and one samples of its frames. *)
Lemma label_of_frames (c : Component) (rate : num)
      (inputs : list ((nat -> num) * Frame)) :
  nonempty_frames inputs -> 10 <= length inputs ->
  detectedEmotion (ticks (startRecording c (Some rate)) inputs)
  = Some (classify (slice_last 101 (samplesOf (Some rate) inputs))).
Proof.
  intros Hne Hlen.
  destruct (exists_last (l := inputs)) as (pre & i & ->).
  { intros ->. simpl in Hlen. lia. }
  rewrite (ticks_label c rate pre i Hne).
  apply Forall_app in Hne. destruct Hne as [Hpre _].
  destruct (ticks_window c rate pre Hpre) as [_ ->].
  rewrite slice_last_grows, <- samplesOf_snoc.
  assert (E : (10 <=? length (slice_last 101 (samplesOf (Some rate) (pre ++ [i]))))
              = true).
  { apply Nat.leb_le. rewrite slice_last_length, samplesOf_length. lia. }
  now rewrite E.
Qed.

(** C8.  Two freshly mounted components that are fed the same frames
    at the same sample rate show the same label, whatever the values
    [Math.random] returns to the waveform animation in either of
    them and whoever is logged in; from the tenth frame on that label
    is set, and it is the class that [classify] gives to the last
    hundred and one samples of the frames. *)
Theorem label_is_deterministic (u u' : option UserId) (rate : num)
        (inputs inputs' : list ((nat -> num) * Frame)) :
  map snd inputs = map snd inputs' ->
  let c := ticks (startRecording (mount u) (Some rate)) inputs in
  let c' := ticks (startRecording (mount u') (Some rate)) inputs' in
  detectedEmotion c = detectedEmotion c' /\
  (nonempty_frames inputs -> 10 <= length inputs ->
   let window := slice_last 101 (samplesOf (Some rate) inputs) in
   detectedEmotion c = Some (classify window) /\
   detectedEmotion c' = Some (classify window)).
Proof.
  intros Hf c c'.
  assert (E : classifier_state c = classifier_state c').
  { apply ticks_classifier_state; [reflexivity|exact Hf]. }
  assert (El : detectedEmotion c = detectedEmotion c').
  { unfold classifier_state in E. congruence. }
  split; [exact El|].
  intros Hne Hlen window.
  assert (Ec : detectedEmotion c = Some (classify window)).
  { exact (label_of_frames (mount u) rate inputs Hne Hlen). }
  split; [exact Ec|]. rewrite <- El. exact Ec.
Qed.

(** Ticks leave the recorder and the recording flag alone. *)
Lemma onInterval_recorder (c : Component) (random : nat -> num) (fr : Frame) :
  mediaRecorderRef (onInterval c random fr) = mediaRecorderRef c /\
  isRecording (onInterval c random fr) = isRecording c.
Proof.
  unfold onInterval, analyzeAudioEmotion.
  cbn [analyserRef audioContextRef emotionSamplesRef updateWaveform
       set_waveformData].
  destruct (analyserRef c); [|split; reflexivity].
  destruct (extractSample _ fr) as [s|e]; [|split; reflexivity].
  destruct (10 <=? length (emotionSamplesRef c ++ [s])); split; reflexivity.
Qed.

Lemma ticks_recorder (c : Component) inputs :
  mediaRecorderRef (ticks c inputs) = mediaRecorderRef c /\
  isRecording (ticks c inputs) = isRecording c.
Proof.
  revert c. induction inputs as [|i inputs IH]; intros c; [split; reflexivity|].
  change (ticks c (i :: inputs)) with (ticks (onInterval c (fst i) (snd i)) inputs).
  destruct (IH (onInterval c (fst i) (snd i))) as [E1 E2].
  destruct (onInterval_recorder c (fst i) (snd i)) as [E3 E4]. split; congruence.
Qed.

(** The emotion of the saved row is the label the component showed
    when the recording was started, not the one it shows when the
    recording is stopped. *)
Lemma saved_emotion_is_label_at_start (c : Component) (rate : num) inputs
      (outcome : StorageOutcome) (row : NoteRow) :
  snd (stopAndSave (ticks (startRecording c (Some rate)) inputs) outcome)
  = Some row ->
  emotion row = match detectedEmotion c with Some e => e | None => neutral end.
Proof.
  unfold stopAndSave, stopRecording.
  destruct (ticks_recorder (startRecording c (Some rate)) inputs) as [E1 E2].
  rewrite E1, E2. cbn [startRecording mediaRecorderRef isRecording].
  unfold run_onstop. cbn [onstop r_user r_detectedEmotion r_recordingTime].
  destruct (user c); [|discriminate].
  destruct outcome; try discriminate.
  cbn [snd]. intros E. injection E as <-. reflexivity.
Qed.

End LabelFacts.

(* ================================================================== *)
(** * Facts about binary64 arithmetic *)
(* ================================================================== *)

Module F64Facts.

Local Open Scope float_scope.

Lemma mul_comm (x y : float) : x * y = y * x.
Proof.
  apply Prim2SF_inj. rewrite !FloatAxioms.mul_spec. unfold SF64mul, SFmul.
  destruct (Prim2SF x) as [sx|sx| |sx mx ex], (Prim2SF y) as [sy|sy| |sy my ey];
    rewrite ?(xorb_comm sx sy); try reflexivity.
  now rewrite Pos.mul_comm, Z.add_comm.
Qed.

(** A canonical mantissa and exponent are left as they are by
    rounding. *)
Lemma binary_round_aux_canonical (sx : bool) (m : positive) (e : Z) :
  canonical_mantissa prec emax m e = true ->
  (e <=? emax - prec)%Z = true ->
  binary_round_aux prec emax sx (Zpos m) e loc_Exact = S754_finite sx m e.
Proof.
  intros Hc He. unfold canonical_mantissa in Hc. apply Z.eqb_eq in Hc.
  unfold binary_round_aux, shr_fexp.
  change (Zdigits2 (Z.pos m)) with (Z.pos (digits2_pos m)).
  rewrite Hc, Z.sub_diag.
  cbv beta iota delta [shr shr_record_of_loc shr_m loc_of_shr_record
                       round_nearest_even Zdigits2].
  rewrite Hc, Z.sub_diag. cbv beta iota. now rewrite He.
Qed.

Lemma digits2_pos_iter_xO (p k : positive) :
  digits2_pos (Pos.iter xO p k) = (digits2_pos p + k)%positive.
Proof.
  induction k using Pos.peano_ind.
  - simpl. lia.
  - rewrite Pos.iter_succ. simpl. rewrite IHk. lia.
Qed.

Lemma digits2_pos_le (p : positive) (n : nat) :
  (Z.pos p < 2 ^ Z.of_nat n)%Z -> (Z.pos (digits2_pos p) <= Z.of_nat n)%Z.
Proof.
  intros H. apply Zpow_facts.Zpower2_Psize in H.
  assert (E : forall q, Pos.to_nat (digits2_pos q) = Pos.size_nat q).
  { induction q; simpl; rewrite ?Pos2Nat.inj_succ, ?IHq; reflexivity. }
  rewrite <- (positive_nat_Z (digits2_pos p)), E. lia.
Qed.

(** An integer of at most 53 bits converts to a normal number without
    rounding. *)
Lemma binary_round_small (p : positive) :
  (Z.pos (digits2_pos p) <= 53)%Z ->
  exists m e, binary_round prec emax false p 0 = S754_finite false m e
              /\ digits2_pos m = 53%positive /\ (-52 <= e <= 0)%Z.
Proof.
  intros Hd. unfold binary_round, shl_align.
  assert (Hf : fexp prec emax (Z.pos (digits2_pos p) + 0)
               = (Z.pos (digits2_pos p) - 53)%Z).
  { unfold fexp, emin, prec, emax. lia. }
  rewrite Hf.
  destruct (Z.pos (digits2_pos p) - 53 - 0)%Z as [|k|k] eqn:Hk; try lia.
  - exists p, 0%Z. split; [|split; lia].
    apply binary_round_aux_canonical; [|reflexivity].
    unfold canonical_mantissa. rewrite Hf. apply Z.eqb_eq. lia.
  - exists (Pos.iter xO p k), (Z.pos (digits2_pos p) - 53)%Z.
    split; [|split; [rewrite digits2_pos_iter_xO; lia|lia]].
    apply binary_round_aux_canonical.
    + unfold canonical_mantissa. rewrite digits2_pos_iter_xO. apply Z.eqb_eq.
      unfold fexp, emin, prec, emax. lia.
    + apply Z.leb_le. unfold emax, prec. lia.
Qed.

Lemma of_int_normal (n : Z) :
  (1 <= n < 2 ^ 53)%Z ->
  exists m e, Prim2SF (F64.of_int n) = S754_finite false m e
              /\ digits2_pos m = 53%positive /\ (-52 <= e <= 0)%Z.
Proof.
  intros Hn. unfold F64.of_int.
  rewrite FloatAxioms.of_uint63_spec, Uint63.of_Z_spec.
  rewrite Z.mod_small by (unfold Uint63.wB; simpl; lia).
  destruct n as [|p|p]; try lia. simpl.
  apply binary_round_small. apply (digits2_pos_le p 53). lia.
Qed.

Lemma Prim2SF_two : Prim2SF 2 = S754_finite false 4503599627370496 (-51).
Proof. vm_compute. reflexivity. Qed.

Lemma shr_52 (m : positive) :
  SpecFloat.iter_pos shr_1 52
    {| shr_m := Z.pos (Pos.iter xO m 52); shr_r := false; shr_s := false |}
  = {| shr_m := Z.pos m; shr_r := false; shr_s := false |}.
Proof. reflexivity. Qed.

(** Doubling a normal number adds one to its exponent. *)
Lemma double_normal (x : float) (m : positive) (e : Z) :
  Prim2SF x = S754_finite false m e ->
  digits2_pos m = 53%positive -> (-1074 <= e <= 970)%Z ->
  Prim2SF (x * 2) = S754_finite false m (e + 1).
Proof.
  intros Hx Hd He. rewrite mul_comm, FloatAxioms.mul_spec, Prim2SF_two, Hx.
  unfold SF64mul, SFmul. cbn [xorb].
  change (4503599627370496 * m)%positive with (Pos.iter xO m 52).
  unfold binary_round_aux, shr_fexp.
  change (Zdigits2 (Z.pos (Pos.iter xO m 52)))
    with (Z.pos (digits2_pos (Pos.iter xO m 52))).
  rewrite digits2_pos_iter_xO, Hd.
  replace (fexp prec emax (Z.pos (53 + 52) + (-51 + e)) - (-51 + e))%Z
    with 52%Z by (unfold fexp, emin, prec, emax; lia).
  unfold shr at 1. cbv beta iota delta [shr_record_of_loc]. rewrite shr_52.
  cbv beta iota delta [shr_m loc_of_shr_record round_nearest_even Zdigits2].
  rewrite Hd.
  replace (fexp prec emax (Z.pos 53 + (-51 + e + 52)) - (-51 + e + 52))%Z
    with 0%Z by (unfold fexp, emin, prec, emax; lia).
  cbv beta iota delta [shr].
  replace (-51 + e + 52)%Z with (e + 1)%Z by lia.
  destruct (Z.leb_spec (e + 1) (emax - prec)) as [_|H];
    [reflexivity|unfold emax, prec in H; lia].
Qed.

(** Zero over, or times, a positive finite number is zero. *)
Lemma zero_div_finite (y : float) (m : positive) (e : Z) :
  Prim2SF y = S754_finite false m e -> 0 / y = 0.
Proof.
  intros H. apply Prim2SF_inj. rewrite FloatAxioms.div_spec, H. reflexivity.
Qed.

Lemma zero_mul_finite (y : float) (m : positive) (e : Z) :
  Prim2SF y = S754_finite false m e -> 0 * y = 0.
Proof.
  intros H. apply Prim2SF_inj. rewrite FloatAxioms.mul_spec, H. reflexivity.
Qed.

Lemma zero_div_of_int (n : Z) :
  (1 <= n < 2 ^ 53)%Z -> 0 / F64.of_int n = 0.
Proof.
  intros H. destruct (of_int_normal n H) as (m & e & E & _).
  exact (zero_div_finite _ m e E).
Qed.

Lemma zero_div_twice_of_int (n : Z) :
  (1 <= n < 2 ^ 53)%Z -> 0 / (F64.of_int n * 2) = 0.
Proof.
  intros H. destruct (of_int_normal n H) as (m & e & E & Hd & He).
  apply (zero_div_finite _ m (e + 1)). apply double_normal; [exact E|exact Hd|lia].
Qed.

(** A positive finite number, as a comparison sees it. *)
Lemma positive_finite_repr (y : float) :
  F64.positive_finite y -> exists m e, Prim2SF y = S754_finite false m e.
Proof.
  unfold F64.positive_finite. intros [H0 Hi]. revert H0 Hi.
  rewrite !FloatAxioms.ltb_spec.
  replace (Prim2SF 0) with (S754_zero false) by (vm_compute; reflexivity).
  replace (Prim2SF infinity) with (S754_infinity false)
    by (vm_compute; reflexivity).
  unfold SFltb, SFcompare.
  destruct (Prim2SF y) as [s|s| |s m e]; try discriminate.
  - destruct s; discriminate.
  - destruct s; [discriminate|]. intros _ _. now exists m, e.
Qed.

End F64Facts.

(* ================================================================== *)
(** * Silence *)
(* ================================================================== *)

Module Silence.

Import Examples.

Lemma fold_zero {A} (f : @num Float64 -> A -> @num Float64) (l : list A) :
  (forall x, In x l -> f zero x = zero) ->
  fold_left f l zero = zero.
Proof.
  induction l as [|x l IH]; intros H; [reflexivity|].
  simpl. rewrite (H x) by now left. apply IH. intros y Hy. apply H. now right.
Qed.

Lemma sumSquares_zero (N : nat) :
  sumSquares (repeat zero N) = zero.
Proof.
  unfold sumSquares. change (@lit Float64 0) with zero.
  apply fold_zero. intros x Hx. apply repeat_spec in Hx. subst x. reflexivity.
Qed.

Lemma volumeOf_zero (N : nat) :
  F64.array_length N -> volumeOf (repeat zero N) = zero.
Proof.
  intros HN. unfold volumeOf. rewrite sumSquares_zero, repeat_length.
  change (@div Float64) with PrimFloat.div. change (@of_int Float64) with F64.of_int.
  unfold zero. rewrite (F64Facts.zero_div_of_int _ HN). reflexivity.
Qed.

Lemma maxScan_zero (N i : nat) : maxScan (repeat 0%Z N) i 0%Z 0%nat = (0%Z, 0%nat).
Proof. revert i. induction N as [|N IH]; intros i; [reflexivity|]. simpl. apply IH. Qed.

Lemma or_else_finite (rate : option (@num Float64)) :
  rate_ok rate ->
  exists m e, Prim2SF (or_else rate (lit 44100)) = S754_finite false m e.
Proof.
  intros H. unfold or_else. destruct rate as [r|]; [destruct (truthy r)|].
  - apply F64Facts.positive_finite_repr. now apply H.
  - vm_compute. eauto.
  - vm_compute. eauto.
Qed.

Lemma pitchOf_zero (N : nat) (rate : option (@num Float64)) :
  F64.array_length N -> rate_ok rate ->
  pitchOf rate (repeat 0%Z N) = 0%float.
Proof.
  intros HN Hr. unfold pitchOf, maxIndexOf. rewrite maxScan_zero, repeat_length.
  destruct (or_else_finite rate Hr) as (m & e & E).
  cbn [snd]. change (@of_int Float64 (Z.of_nat 0%nat)) with 0%float.
  change (@mul Float64) with PrimFloat.mul. change (@div Float64) with PrimFloat.div.
  rewrite (F64Facts.zero_mul_finite _ m e E).
  change (@lit Float64 2) with 2%float.
  apply (F64Facts.zero_div_twice_of_int _ HN).
Qed.

Lemma fold_add_zero (N : nat) :
  fold_left (@add Float64) (repeat zero N) zero = 0%float.
Proof.
  apply fold_zero. intros x Hx. apply repeat_spec in Hx. now subst x.
Qed.

Lemma map_of_int_zero (N : nat) :
  map (@of_int Float64) (repeat 0%Z N) = repeat zero N.
Proof. now rewrite map_repeat. Qed.

Lemma varianceAround_zero (N : nat) :
  F64.array_length N ->
  varianceAround (J := Float64) zero (repeat 0%Z N) = 0%float.
Proof.
  intros HN. unfold varianceAround. rewrite map_of_int_zero, repeat_length.
  change (@lit Float64 0) with 0%float.
  change 0%float with zero. rewrite fold_zero.
  - unfold zero. apply (F64Facts.zero_div_of_int _ HN).
  - intros x Hx. apply repeat_spec in Hx. now subst x.
Qed.

Lemma reduce1_zero (N : nat) :
  1 <= N -> reduce1 (@add Float64) (repeat zero N) = Normal zero.
Proof.
  destruct N as [|N]; [lia|]. intros _. cbn [repeat reduce1].
  now rewrite fold_add_zero.
Qed.

(** A silent frame yields the zero sample. *)
Lemma extractSample_silent (N : nat) (rate : option (@num Float64)) :
  F64.array_length N -> rate_ok rate ->
  extractSample rate (silentFrameOf N) = Normal zeroSample.
Proof.
  intros HN Hr. unfold extractSample, silentFrameOf.
  cbn [dataArray timeDomainArray].
  rewrite (volumeOf_zero N HN), (pitchOf_zero N rate HN Hr), map_of_int_zero.
  rewrite reduce1_zero by (unfold F64.array_length in HN; lia).
  rewrite repeat_length.
  change (@div Float64 zero (of_int (Z.of_nat N)))
    with (PrimFloat.div 0 (F64.of_int (Z.of_nat N))).
  rewrite (F64Facts.zero_div_of_int _ HN).
  change 0%float with zero.
  now rewrite (varianceAround_zero N HN).
Qed.

Lemma average_zero (f : Sample -> @num Float64) (m : nat) :
  F64.array_length m -> f zeroSample = 0%float ->
  average f (repeat zeroSample m) = 0%float.
Proof.
  intros Hm Hf. unfold average. rewrite repeat_length.
  change (@lit Float64 0) with 0%float.
  change 0%float with zero. rewrite fold_zero.
  - unfold zero. apply (F64Facts.zero_div_of_int _ Hm).
  - intros x Hx. apply repeat_spec in Hx. subst x. now rewrite Hf.
Qed.

(** The scores of a window of zero samples. *)
Lemma scores_of_silence (m : nat) :
  F64.array_length m ->
  let w := repeat zeroSample m in
  pitchScore w = 0%float /\ volumeScore w = 0%float /\
  varianceScore w = 0%float /\ happyScore w = 0%float /\
  sadScore w = 1%float /\ classify w = sad.
Proof.
  intros Hm w.
  assert (Ep : pitchScore w = 0%float).
  { unfold pitchScore, w. rewrite average_zero by (exact Hm || reflexivity).
    vm_compute. reflexivity. }
  assert (Ev : volumeScore w = 0%float).
  { unfold volumeScore, w. rewrite average_zero by (exact Hm || reflexivity).
    vm_compute. reflexivity. }
  assert (Ex : varianceScore w = 0%float).
  { unfold varianceScore, w. rewrite average_zero by (exact Hm || reflexivity).
    vm_compute. reflexivity. }
  assert (Eh : happyScore w = 0%float).
  { unfold happyScore. rewrite Ep, Ev, Ex. vm_compute. reflexivity. }
  assert (Es : sadScore w = 1%float).
  { unfold sadScore. rewrite Ep, Ev, Ex. vm_compute. reflexivity. }
  repeat split; try assumption.
  unfold classify. rewrite Eh, Es. vm_compute. reflexivity.
Qed.

Lemma skipn_repeat {A} (x : A) (k n : nat) :
  skipn k (repeat x n) = repeat x (n - k).
Proof.
  revert k. induction n as [|n IH]; intros [|k]; simpl; try reflexivity. apply IH.
Qed.

Lemma slice_last_repeat {A} (x : A) (k n : nat) :
  slice_last k (repeat x n) = repeat x (Nat.min k n).
Proof.
  unfold slice_last. rewrite skipn_repeat, repeat_length. f_equal. lia.
Qed.

Lemma silent_inputs_nonempty N inputs :
  1 <= N -> silent_inputs N inputs -> nonempty_frames inputs.
Proof.
  intros HN H. unfold nonempty_frames. eapply Forall_impl; [|exact H].
  intros i E. cbv beta in *. rewrite E. destruct N; [lia|discriminate].
Qed.

Lemma samplesOf_silent N (r : @num Float64) inputs :
  F64.array_length N -> F64.positive_finite r -> silent_inputs N inputs ->
  samplesOf (Some r) inputs = repeat zeroSample (length inputs).
Proof.
  intros HN Hr H. induction H as [|i inputs Hi H IH]; [reflexivity|].
  unfold samplesOf in *. cbn [map length repeat]. rewrite IH. f_equal.
  unfold sampleOf. rewrite Hi.
  rewrite extractSample_silent; [reflexivity|exact HN|].
  intros r' E. now injection E as <-.
Qed.

(** C5, as the code has it.  In a session of at least ten frames, all
    silent (every bin and every time-domain value zero), the scores of
    the window are pitchScore = 0, volumeScore = 0, varianceScore = 0,
    happyScore = 0 and sadScore = 1, and the label is sad: sadScore is
    above 0.45 and above happyScore + 0.1, the second branch of the
    decision. *)
Theorem silent_session_is_sad (c0 : Component) (r : @num Float64) (N : nat)
        (inputs : list ((nat -> @num Float64) * Frame)) :
  F64.array_length N -> F64.positive_finite r ->
  silent_inputs N inputs -> 10 <= length inputs ->
  let c := ticks (startRecording c0 (Some r)) inputs in
  let window := emotionSamplesRef c in
  detectedEmotion c = Some sad /\
  pitchScore window = 0%float /\ volumeScore window = 0%float /\
  varianceScore window = 0%float /\
  happyScore window = 0%float /\ sadScore window = 1%float.
Proof.
  intros HN Hr Hs Hlen c window.
  assert (H1 : 1 <= N) by (unfold F64.array_length in HN; lia).
  pose proof (silent_inputs_nonempty N inputs H1 Hs) as Hne.
  destruct (ticks_window c0 r inputs Hne) as [_ Hw]. fold c window in Hw.
  rewrite (samplesOf_silent N r inputs HN Hr Hs), slice_last_repeat in Hw.
  assert (Hm : F64.array_length (Nat.min 100 (length inputs))).
  { unfold F64.array_length. change (2 ^ 53)%Z with 9007199254740992%Z. lia. }
  destruct (scores_of_silence _ Hm) as (Ep & Ev & Ex & Eh & Es & _).
  rewrite <- Hw in Ep, Ev, Ex, Eh, Es.
  split; [|now repeat split].
  destruct (exists_last (l := inputs)) as (inputs' & i & E);
    [intros ->; simpl in Hlen; lia|].
  subst inputs. unfold c. rewrite (ticks_label c0 r inputs' i Hne).
  pose proof Hs as Hs'. apply Forall_app in Hs'. destruct Hs' as [Hs' Hi].
  apply Forall_inv in Hi.
  pose proof Hne as Hne'. apply Forall_app in Hne'. destruct Hne' as [Hne' _].
  destruct (ticks_window c0 r inputs' Hne') as [_ Hw'].
  rewrite Hw', (samplesOf_silent N r inputs' HN Hr Hs'), slice_last_repeat.
  unfold sampleOf. rewrite Hi, extractSample_silent;
    [|exact HN|intros r' E; now injection E as <-].
  rewrite <- repeat_cons.
  change (zeroSample :: repeat zeroSample ?n)
    with (repeat zeroSample (S n)).
  rewrite length_app in Hlen. cbn [length] in Hlen.
  rewrite repeat_length.
  destruct (10 <=? S (Nat.min 100 (length inputs'))) eqn:E10;
    [|apply Nat.leb_gt in E10; lia].
  f_equal. apply scores_of_silence.
  unfold F64.array_length. change (2 ^ 53)%Z with 9007199254740992%Z. lia.
Qed.

(** The all-silent session of ten frames of 1024 bins ends on the
    label sad, not neutral. *)
Lemma silent_session_is_not_neutral :
  detectedEmotion (silentSession (Some 1) 10) <> Some neutral.
Proof.
  assert (E : detectedEmotion (silentSession (Some 1) 10) = Some sad)
    by (vm_compute; reflexivity).
  rewrite E. discriminate.
Qed.

Lemma rate_is_positive_finite : F64.positive_finite rate.
Proof. split; vm_compute; reflexivity. Qed.

Lemma rate_ok_rate : rate_ok (Some rate).
Proof. intros r E. injection E as <-. exact rate_is_positive_finite. Defined.

Lemma array_length_1024 : F64.array_length 1024.
Proof. unfold F64.array_length. split; [lia|reflexivity]. Defined.

Lemma silent_inputs_repeat (N n : nat) (random : nat -> @num Float64) :
  silent_inputs N (repeat (random, silentFrameOf N) n).
Proof.
  apply Forall_forall. intros i Hi. apply repeat_spec in Hi. now subst i.
Defined.

Lemma silent_session_is_sad_witness :
  let c := silentSession (Some 1) 12 in
  let window := emotionSamplesRef c in
  detectedEmotion c = Some sad /\
  pitchScore window = 0%float /\ volumeScore window = 0%float /\
  varianceScore window = 0%float /\
  happyScore window = 0%float /\ sadScore window = 1%float.
Proof.
  apply (silent_session_is_sad (mount (Some 1)) rate 1024
           (repeat (random, silentFrame) 12)).
  - exact array_length_1024.
  - exact rate_is_positive_finite.
  - exact (silent_inputs_repeat 1024 12 random).
  - rewrite repeat_length. lia.
Defined.

(** C9.  The analysis of a frame with at least one bin completes
    without an exception, both the extraction of the sample and the
    whole of [analyzeAudioEmotion]; on an all-zero frame the sample is
    pitch 0, volume 0, variance 0. *)
Theorem ingest_never_raises (rate : option (@num Float64)) (fr : Frame)
        (N : nat) :
  1 <= N -> frame_of_size N fr ->
  (exists s, extractSample rate fr = Normal s /\
             (F64.array_length N -> rate_ok rate -> fr = silentFrameOf N ->
              s = zeroSample)) /\
  (forall c : Component, exists c', analyzeAudioEmotion c fr = Normal c').
Proof.
  intros HN (Hd & Ht & Hu).
  assert (Hne : dataArray fr <> []) by (destruct (dataArray fr); simpl in *; [lia|discriminate]).
  split.
  - exists (sampleOf rate fr). split; [now apply extractSample_Normal|].
    intros HN' Hr ->. unfold sampleOf. now rewrite extractSample_silent.
  - intros c. unfold analyzeAudioEmotion.
    destruct (analyserRef c); [|eauto].
    rewrite (extractSample_Normal _ _ Hne).
    destruct (10 <=? _); eauto.
Qed.

Lemma silentFrame_of_size : frame_of_size 1024 silentFrame.
Proof.
  repeat split.
  apply Forall_forall. intros z Hz. apply repeat_spec in Hz. subst z.
  unfold uint8. lia.
Defined.

Lemma ingest_never_raises_witness :
  (exists s, extractSample (Some rate) silentFrame = Normal s /\
             (F64.array_length 1024 -> rate_ok (Some rate) ->
              silentFrame = silentFrameOf 1024 -> s = zeroSample)) /\
  (forall c : Component, exists c', analyzeAudioEmotion c silentFrame = Normal c').
Proof.
  apply (ingest_never_raises (Some rate) silentFrame 1024).
  - lia.
  - exact silentFrame_of_size.
Defined.

End Silence.

(* ================================================================== *)
(** * The label across sessions and in the saved note *)
(* ================================================================== *)

Module Sessions.

Import Examples.

(** C3, where the code departs from it.  A logged-out user records ten
    silent frames and stops: the handler returns before its cleanup,
    so the label sad stays.  In the next recording every run of fewer
    than ten frames still shows sad, not an unset label. *)
Theorem label_survives_logged_out_session
        (inputs : list ((nat -> @num Float64) * Frame)) :
  length inputs < 10 ->
  let ended := fst (stopAndSave (silentSession None 10) Saved) in
  detectedEmotion (ticks (startRecording ended (Some rate)) inputs) = Some sad.
Proof.
  intros H ended. rewrite label_after_restart by exact H.
  vm_compute. reflexivity.
Qed.

Lemma label_survives_logged_out_session_witness :
  let ended := fst (stopAndSave (silentSession None 10) Saved) in
  detectedEmotion
    (ticks (startRecording ended (Some rate)) (repeat (random, humFrame) 9))
  = Some sad.
Proof.
  apply (label_survives_logged_out_session (repeat (random, humFrame) 9)).
  rewrite repeat_length. lia.
Defined.

(** C10, where the code departs from it.  A logged-in user records ten
    silent frames; the component shows sad when the recording is
    stopped, and the row that is saved carries neutral: the handler
    reads the label of the render in which the recording was
    started. *)
Theorem saved_emotion_is_label_of_start :
  detectedEmotion (silentSession (Some 1) 10) = Some sad /\
  option_map emotion (snd (stopAndSave (silentSession (Some 1) 10) Saved))
  = Some neutral.
Proof. split; vm_compute; reflexivity. Qed.

(** The window classified by the 101st tick of [humSession] and the
    window of the hundred most recent frames get different labels. *)
Lemma hum_session_labels :
  detectedEmotion humSession = Some sad /\
  classify (slice_last 100 (samplesOf (Some rate) humInputs)) = happy.
Proof. split; vm_compute; reflexivity. Qed.

(** The label set at the 101st frame is not the label of the hundred
    most recent frames. *)
Lemma label_at_101_is_not_of_last_hundred :
  length humInputs = 101 /\
  detectedEmotion humSession
  <> Some (classify (slice_last 100 (samplesOf (Some rate) humInputs))).
Proof.
  split; [reflexivity|].
  destruct hum_session_labels as [E1 E2]. rewrite E1, E2. discriminate.
Qed.

Lemma humInputs_nonempty : nonempty_frames humInputs.
Proof.
  apply Forall_forall. intros i [<-|Hi]; [discriminate|].
  apply repeat_spec in Hi. subst i. discriminate.
Defined.

End Sessions.

(* ================================================================== *)
(** * The code against the formulas of the specification *)
(* ================================================================== *)

Section ScoringRefinement.
Context {J : JsNumber}.

Lemma fold_left_map_add {A} (f : A -> num) (l : list A) (a : num) :
  fold_left (fun sum s => add sum (f s)) l a = fold_left add (map f l) a.
Proof. revert a. induction l as [|x l IH]; intros a; [reflexivity|]. simpl. apply IH. Qed.

Lemma average_is_mean (f : Sample -> num) (w : list Sample) :
  average f w = spec_mean (map f w).
Proof. unfold average, spec_mean. now rewrite fold_left_map_add, length_map. Qed.

Lemma pitchScore_spec w : pitchScore w = spec_pitchScore w.
Proof. unfold pitchScore, pitchScoreOf, spec_pitchScore, spec_clamp, spec_avgPitch. now rewrite average_is_mean. Qed.

Lemma volumeScore_spec w : volumeScore w = spec_loudnessScore w.
Proof. unfold volumeScore, volumeScoreOf, spec_loudnessScore, spec_clamp, spec_avgLoudness. now rewrite average_is_mean. Qed.

Lemma varianceScore_spec w : varianceScore w = spec_varianceScore w.
Proof. unfold varianceScore, varianceScoreOf, spec_varianceScore, spec_clamp, spec_avgVariance. now rewrite average_is_mean. Qed.
End ScoringRefinement.

Lemma js_mul_comm (x y : @num Float64) : mul x y = mul y x.
Proof. exact (F64Facts.mul_comm x y). Qed.

(** Binary64 multiplication commutes, so the order of weight and
    sub-term does not matter. *)
Lemma happyScore_spec (w : list (Sample (J := Float64))) : happyScore w = spec_happyScore w.
Proof.
  unfold happyScore, happyScoreOf, spec_happyScore.
  rewrite pitchScore_spec, volumeScore_spec, varianceScore_spec.
  cbv zeta. change (@lit Float64 0.30) with (@lit Float64 0.3).
  now rewrite !(js_mul_comm (lit _)).
Qed.

Lemma sadScore_spec (w : list (Sample (J := Float64))) : sadScore w = spec_sadScore w.
Proof.
  unfold sadScore, sadScoreOf, spec_sadScore.
  rewrite pitchScore_spec, volumeScore_spec, varianceScore_spec.
  cbv zeta. change (@lit Float64 0.40) with (@lit Float64 0.4).
  now rewrite !(js_mul_comm (lit _)).
Qed.

Lemma classify_spec (w : list (Sample (J := Float64))) : classify w = spec_currentLabel w.
Proof.
  unfold classify, decideEmotion, spec_currentLabel.
  now rewrite happyScore_spec, sadScore_spec.
Qed.

(** C1.  On a window of at least ten samples the tick sets the label
    that the formulas give: arithmetic means of pitch, volume and
    variance over the window, the three clamped scores, the two
    weighted composites with their boosts, and the four-branch decision
    in its priority order. *)
Theorem currentLabel_follows_formulas (c : Component) (fr : Frame)
        (r : @num Float64) :
  recording r c -> dataArray fr <> [] ->
  let window := emotionSamplesRef c ++ [sampleOf (Some r) fr] in
  10 <= length window ->
  (exists c', analyzeAudioEmotion c fr = Normal c' /\
              detectedEmotion c' = Some (spec_currentLabel window)) /\
  pitchScore window = spec_pitchScore window /\
  volumeScore window = spec_loudnessScore window /\
  varianceScore window = spec_varianceScore window /\
  happyScore window = spec_happyScore window /\
  sadScore window = spec_sadScore window.
Proof.
  intros Hrec Hfr window H10. split.
  - destruct (analyze_Normal c fr r Hrec Hfr) as (c' & E & _ & Hl & _).
    exists c'. split; [exact E|]. rewrite Hl. fold window.
    apply Nat.leb_le in H10. rewrite H10. now rewrite classify_spec.
  - repeat split.
    + apply pitchScore_spec.
    + apply volumeScore_spec.
    + apply varianceScore_spec.
    + apply happyScore_spec.
    + apply sadScore_spec.
Qed.

(* ================================================================== *)
(** * Feature extraction against the specification *)
(* ================================================================== *)

Lemma maxScan_scanned (l : list Z) :
  Forall (fun z => 0 <= z)%Z l ->
  forall rest pre maxValue maxIndex,
    l = pre ++ rest ->
    scanned l (length pre) maxValue maxIndex ->
    scanned l (length l) (fst (maxScan rest (length pre) maxValue maxIndex))
            (snd (maxScan rest (length pre) maxValue maxIndex)).
Proof.
  intros Hpos. induction rest as [|x rest IH]; intros pre mv mi El Hs.
  - rewrite app_nil_r in El. subst pre. exact Hs.
  - assert (Ex : nth (length pre) l 0%Z = x).
    { rewrite El, app_nth2, Nat.sub_diag by lia. reflexivity. }
    assert (Hx : (0 <= x)%Z).
    { rewrite Forall_forall in Hpos. apply Hpos. rewrite El. apply in_elt. }
    assert (El' : l = (pre ++ [x]) ++ rest) by now rewrite <- app_assoc.
    assert (Hlen : length (pre ++ [x]) = S (length pre))
      by (rewrite length_app; simpl; lia).
    destruct Hs as (Hle & Hlt & Hat).
    cbn [maxScan]. rewrite <- Hlen.
    destruct (Z.ltb_spec mv x) as [Hlt'|Hge]; apply IH; try exact El'; rewrite Hlen.
    + repeat split.
      * intros j Hj. destruct (Nat.eq_dec j (length pre)) as [->|Hn]; [lia|].
        specialize (Hle j). lia.
      * intros j Hj. specialize (Hle j). lia.
      * right. split; [lia|exact Ex].
    + repeat split.
      * intros j Hj. destruct (Nat.eq_dec j (length pre)) as [->|Hn]; [lia|].
        specialize (Hle j). lia.
      * exact Hlt.
      * right. destruct Hat as [(Hi & Hm & Hv)|[Hm Hv]].
        -- subst mi mv. rewrite Hi in *. split; [lia|]. lia.
        -- split; [lia|exact Hv].
Qed.

Lemma maxIndexOf_first_maximum (l : list Z) :
  l <> [] -> Forall (fun z => 0 <= z)%Z l ->
  first_maximum l (maxIndexOf l).
Proof.
  intros Hne Hpos.
  pose proof (maxScan_scanned l Hpos l [] 0%Z 0 eq_refl) as H.
  cbn [length] in H. unfold maxIndexOf.
  destruct H as (Hle & Hlt & Hat).
  { repeat split; try (intros j Hj; lia). left. repeat split. }
  destruct Hat as [(Hi & _)|[Hm Hv]].
  - destruct l; [congruence|discriminate].
  - rewrite <- Hv in Hle, Hlt. now repeat split.
Qed.

Section FeatureRefinement.
Context {J : JsNumber}.

Lemma volumeOf_spec (timeDomainArray : list num) :
  volumeOf timeDomainArray = spec_loudness timeDomainArray.
Proof.
  unfold volumeOf, sumSquares, spec_loudness, spec_mean.
  now rewrite (fold_left_map_add (fun x => mul x x)), length_map.
Qed.

Lemma pitchOf_spec (r : num) (dataArray : list Z) :
  truthy r = true ->
  pitchOf (Some r) dataArray
  = spec_pitch (maxIndexOf dataArray) r (length dataArray).
Proof. intros H. unfold pitchOf, spec_pitch, or_else. now rewrite H. Qed.

Lemma varianceAround_spec (mean : num) (dataArray : list Z) :
  mean = spec_mean (map of_int dataArray) ->
  varianceAround mean dataArray = spec_variance (map of_int dataArray).
Proof.
  intros ->. unfold varianceAround, spec_variance, spec_mean at 2.
  rewrite (fold_left_map_add (fun val => Math_pow2 (sub val (spec_mean (map of_int dataArray))))).
  now rewrite !length_map.
Qed.

End FeatureRefinement.

Lemma zero_add_of_int (n : Z) :
  (0 <= n < 2 ^ 53)%Z ->
  @add Float64 (lit 0) (of_int n) = of_int n.
Proof.
  intros H. destruct (Z.eq_dec n 0) as [->|Hn]; [reflexivity|].
  destruct (F64Facts.of_int_normal n) as (m & e & E & _); [lia|].
  apply Prim2SF_inj. change (@add Float64) with PrimFloat.add.
  change (@of_int Float64) with F64.of_int.
  rewrite FloatAxioms.add_spec, E. reflexivity.
Qed.

Lemma reduce1_is_sum (dataArray : list Z) :
  dataArray <> [] -> Forall uint8 dataArray ->
  reduce1 (@add Float64) (map of_int dataArray)
  = Normal (fold_left add (map of_int dataArray) (lit 0)).
Proof.
  intros Hne Hu. destruct dataArray as [|x rest]; [congruence|].
  cbn [map reduce1 fold_left]. rewrite zero_add_of_int; [reflexivity|].
  apply Forall_inv in Hu. unfold uint8 in Hu.
  change (2 ^ 53)%Z with 9007199254740992%Z. lia.
Qed.

(** C2.  For a frame of [N] bins and [N] time-domain values the sample
    has volume sqrt(mean(x_i^2)), pitch
    maxIndex * sampleRate / (N * 2) where maxIndex is the first index
    at which the spectrum reaches its maximum, and variance
    mean((s_i - mean(s))^2). *)
Theorem ingestFrame_features (r : @num Float64) (fr : Frame) (N : nat) :
  1 <= N -> frame_of_size N fr -> truthy r = true ->
  first_maximum (dataArray fr) (maxIndexOf (dataArray fr)) /\
  extractSample (Some r) fr
  = Normal (mkSample (spec_pitch (maxIndexOf (dataArray fr)) r N)
                     (spec_loudness (timeDomainArray fr))
                     (spec_variance (map of_int (dataArray fr)))).
Proof.
  intros HN (Hd & Ht & Hu) Hr.
  assert (Hne : dataArray fr <> [])
    by (destruct (dataArray fr); simpl in *; [lia|discriminate]).
  split.
  - apply maxIndexOf_first_maximum; [exact Hne|].
    eapply Forall_impl; [|exact Hu]. unfold uint8. intros z Hz. lia.
  - unfold extractSample. rewrite (reduce1_is_sum _ Hne Hu).
    rewrite volumeOf_spec, (pitchOf_spec r _ Hr), Hd.
    rewrite varianceAround_spec; [reflexivity|].
    unfold spec_mean. now rewrite length_map, Hd.
Qed.

(* ================================================================== *)
(** * Bounds of the scores in exact arithmetic *)
(* ================================================================== *)

Module ExactFacts.
Local Open Scope R_scope.

Lemma clamp_unit (x : R) : 0 <= Rmin (Rmax x 0) 1 <= 1.
Proof.
  split.
  - apply Rmin_glb; [apply Rmax_r|lra].
  - apply Rmin_r.
Qed.

Ltac exact_arith :=
  cbn [lit add sub mul div lt Exact Math_max Math_min Math_abs];
  unfold Real.lt, Q2R; cbn [Qnum Qden];
  repeat match goal with |- context [Rlt_dec ?a ?b] => destruct (Rlt_dec a b) end;
  try lra.

Lemma pitchScore_unit (w : list (Sample (J := Exact))) : 0 <= pitchScore w <= 1.
Proof. unfold pitchScore, pitchScoreOf. cbn [lit Math_max Math_min Exact]. 
  replace (Q2R 0) with 0 by (unfold Q2R; simpl; lra).
  replace (Q2R 1) with 1 by (unfold Q2R; simpl; lra).
  apply clamp_unit. Qed.

Lemma happyScoreOf_unit (p v x : R) :
  0 <= p <= 1 -> 0 <= v <= 1 -> 0 <= x <= 1 ->
  0 <= happyScoreOf (J := Exact) p v x <= 1.
Proof. intros Hp Hv Hx. unfold happyScoreOf. exact_arith. Qed.

Lemma sadScoreOf_unit (p v x : R) :
  0 <= p <= 1 -> 0 <= v <= 1 -> 0 <= x <= 1 ->
  0 <= sadScoreOf (J := Exact) p v x <= 1.
Proof. intros Hp Hv Hx. unfold sadScoreOf. exact_arith. Qed.


Lemma volumeScore_unit (w : list (Sample (J := Exact))) : 0 <= volumeScore w <= 1.
Proof.
  unfold volumeScore, volumeScoreOf. cbn [lit Math_max Math_min Exact].
  replace (Q2R 0) with 0 by (unfold Q2R; simpl; lra).
  replace (Q2R 1) with 1 by (unfold Q2R; simpl; lra).
  apply clamp_unit.
Qed.

Lemma varianceScore_unit (w : list (Sample (J := Exact))) :
  0 <= varianceScore w <= 1.
Proof.
  unfold varianceScore, varianceScoreOf. cbn [lit Math_max Math_min Exact].
  replace (Q2R 0) with 0 by (unfold Q2R; simpl; lra).
  replace (Q2R 1) with 1 by (unfold Q2R; simpl; lra).
  apply clamp_unit.
Qed.

(** With the formulas read over the real numbers, the three clamped
    scores of a window lie in [0, 1], and so do happyScore and
    sadScore: every boosted sub-term is at most 1 and the weights of
    each composite add up to 1. *)
Lemma composite_scores_bounded_exact (samples : list (Sample (J := Exact))) :
  (10 <= length samples)%nat ->
  0 <= happyScore samples <= 1 /\ 0 <= sadScore samples <= 1.
Proof.
  intros _. split.
  - apply happyScoreOf_unit;
      [apply pitchScore_unit|apply volumeScore_unit|apply varianceScore_unit].
  - apply sadScoreOf_unit;
      [apply pitchScore_unit|apply volumeScore_unit|apply varianceScore_unit].
Qed.

End ExactFacts.

(* ================================================================== *)
(** * Rounding to binary64 never exceeds a representable bound *)
(* ================================================================== *)

Module Rounding.

Import F64Value.
Local Open Scope R_scope.

Lemma bpow_pos (e : Z) : 0 < bpow e.
Proof. apply powerRZ_lt. lra. Qed.

Lemma bpow_add (a b : Z) : bpow (a + b) = bpow a * bpow b.
Proof. apply powerRZ_add. lra. Qed.

Lemma bpow_nonneg_exp (k : Z) : (0 <= k)%Z -> bpow k = IZR (2 ^ k).
Proof.
  intros H. unfold bpow. rewrite <- (Z2Nat.id k H), <- pow_powerRZ, pow_IZR.
  reflexivity.
Qed.

Lemma bpow_le (a b : Z) : (a <= b)%Z -> bpow a <= bpow b.
Proof.
  intros H. replace b with (a + (b - a))%Z by lia. rewrite bpow_add.
  rewrite (bpow_nonneg_exp (b - a)) by lia.
  assert (1 <= IZR (2 ^ (b - a))).
  { apply IZR_le. assert (0 < 2 ^ (b - a))%Z by (apply Z.pow_pos_nonneg; lia). lia. }
  pose proof (bpow_pos a). nra.
Qed.

Lemma bpow_lt_inv (a b : Z) : bpow a < bpow b -> (a < b)%Z.
Proof.
  intros H. destruct (Z_lt_le_dec a b) as [L|L]; [exact L|].
  apply bpow_le in L. lra.
Qed.

(** Digits of a mantissa. *)
Lemma digits2_pos_size (p : positive) : digits2_pos p = Pos.size p.
Proof. induction p; simpl; congruence. Qed.

Lemma digits_bounds (p : positive) :
  (2 ^ (Z.pos (digits2_pos p) - 1) <= Z.pos p < 2 ^ Z.pos (digits2_pos p))%Z.
Proof.
  rewrite digits2_pos_size. split.
  - pose proof (Pos.size_le p) as H.
    assert (E : (2 ^ Z.pos (Pos.size p) = 2 * 2 ^ (Z.pos (Pos.size p) - 1))%Z).
    { rewrite <- Z.pow_succ_r by lia. f_equal. lia. }
    assert (H' : (2 ^ Z.pos (Pos.size p) <= Z.pos p~0)%Z).
    { rewrite <- Pos2Z.inj_pow. apply Pos2Z.pos_le_pos. exact H. }
    rewrite E in H'. lia.
  - rewrite <- Pos2Z.inj_pow. apply Pos2Z.pos_lt_pos. apply Pos.size_gt.
Qed.

Lemma digits_bounds_R (p : positive) (e : Z) :
  bpow (Z.pos (digits2_pos p) - 1 + e) <= IZR (Z.pos p) * bpow e
  /\ IZR (Z.pos p) * bpow e < bpow (Z.pos (digits2_pos p) + e).
Proof.
  destruct (digits_bounds p) as [L U]. rewrite !bpow_add.
  rewrite (bpow_nonneg_exp (Z.pos (digits2_pos p) - 1)) by lia.
  rewrite (bpow_nonneg_exp (Z.pos (digits2_pos p))) by lia.
  apply IZR_le in L. apply IZR_lt in U. pose proof (bpow_pos e). split; nra.
Qed.

(** Canonical mantissas. *)
Lemma canonical_facts (m : positive) (e : Z) :
  canonical_mantissa prec emax m e = true ->
  (-1074 <= e)%Z /\ (Z.pos (digits2_pos m) <= 53)%Z /\
  ((-1074 < e)%Z -> Z.pos (digits2_pos m) = 53%Z).
Proof.
  unfold canonical_mantissa, fexp, emin, prec, emax. intros H.
  apply Z.eqb_eq in H. lia.
Qed.

Lemma valid_finite (s : bool) (m : positive) (e : Z) :
  valid_binary (S754_finite s m e) = true ->
  canonical_mantissa prec emax m e = true /\ (e <= 971)%Z.
Proof.
  unfold valid_binary, bounded. intros H. apply andb_prop in H.
  destruct H as [H1 H2]. apply Z.leb_le in H2. unfold emax, prec in H2.
  split; [exact H1|lia].
Qed.

(** Comparison agrees with the order of the values. *)
Lemma compare_finite (m1 m2 : positive) (e1 e2 : Z) :
  canonical_mantissa prec emax m1 e1 = true ->
  canonical_mantissa prec emax m2 e2 = true ->
  match SFcompare (S754_finite false m1 e1) (S754_finite false m2 e2) with
  | Some Lt => IZR (Z.pos m1) * bpow e1 < IZR (Z.pos m2) * bpow e2
  | Some Eq => IZR (Z.pos m1) * bpow e1 = IZR (Z.pos m2) * bpow e2
  | Some Gt => IZR (Z.pos m1) * bpow e1 > IZR (Z.pos m2) * bpow e2
  | None => False
  end.
Proof.
  intros C1 C2. cbn [SFcompare].
  destruct (canonical_facts _ _ C1) as (L1 & D1 & N1).
  destruct (canonical_facts _ _ C2) as (L2 & D2 & N2).
  destruct (digits_bounds_R m1 e1) as [Lo1 Up1].
  destruct (digits_bounds_R m2 e2) as [Lo2 Up2].
  destruct (Z.compare_spec e1 e2) as [E|E|E].
  - subst e2. change (Pos.compare_cont Eq m1 m2) with (Pos.compare m1 m2).
    pose proof (bpow_pos e1).
    destruct (Pos.compare_spec m1 m2) as [E|E|E].
    + now subst.
    + apply Pos2Z.pos_lt_pos, IZR_lt in E. nra.
    + apply Pos2Z.pos_lt_pos, IZR_lt in E. nra.
  - rewrite N2 in Lo2 by lia.
    assert (bpow (Z.pos (digits2_pos m1) + e1) <= bpow (53 - 1 + e2))
      by (apply bpow_le; lia). lra.
  - rewrite N1 in Lo1 by lia.
    assert (bpow (Z.pos (digits2_pos m2) + e2) <= bpow (53 - 1 + e1))
      by (apply bpow_le; lia). lra.
Qed.

Lemma compare_nonneg (x y : spec_float) :
  valid_binary x = true -> valid_binary y = true -> nonneg x -> nonneg y ->
  match SFcompare x y with
  | Some Lt => value x < value y
  | Some Eq => value x = value y
  | Some Gt => value x > value y
  | None => False
  end.
Proof.
  intros Vx Vy Nx Ny.
  destruct x as [sx|sx| |sx mx ex]; try contradiction;
    destruct y as [sy|sy| |sy my ey]; try contradiction.
  - reflexivity.
  - destruct sy; [contradiction|]. cbn.
    pose proof (bpow_pos ey). assert (0 < IZR (Z.pos my)) by (apply IZR_lt; lia). nra.
  - destruct sx; [contradiction|]. cbn.
    pose proof (bpow_pos ex). assert (0 < IZR (Z.pos mx)) by (apply IZR_lt; lia). nra.
  - destruct sx, sy; try contradiction.
    apply valid_finite in Vx, Vy. now apply compare_finite.
Qed.

Lemma value_nonneg (x : spec_float) : 0 <= value x.
Proof.
  destruct x as [s|s| |s m e]; cbn; try lra. destruct s; [lra|].
  pose proof (bpow_pos e). assert (0 < IZR (Z.pos m)) by (apply IZR_lt; lia). nra.
Qed.

(** ** Right shifts *)

Lemma iter_pos_nat {A : Type} (f : A -> A) (n : positive) (x : A) :
  SpecFloat.iter_pos f n x = Nat.iter (Pos.to_nat n) f x.
Proof.
  revert x. induction n as [n IH|n IH|]; intros x; cbn [SpecFloat.iter_pos].
  - rewrite !IH, Pos2Nat.inj_xI. 
    replace (S (2 * Pos.to_nat n)) with (Pos.to_nat n + S (Pos.to_nat n))%nat by lia.
    rewrite Nat.iter_add. f_equal. now rewrite Nat.iter_succ_r.
  - rewrite !IH, Pos2Nat.inj_xO.
    replace (2 * Pos.to_nat n)%nat with (Pos.to_nat n + Pos.to_nat n)%nat by lia.
    now rewrite Nat.iter_add.
  - reflexivity.
Qed.

Lemma shr_1_shifted (M : Z) (k : nat) (mrs : shr_record) :
  (0 <= M)%Z -> shifted M k mrs -> shifted M (S k) (shr_1 mrs).
Proof.
  intros HM [Hm Hrs]. destruct mrs as [m r s]. cbn [shr_m shr_r shr_s] in *.
  assert (P : (0 < 2 ^ Z.of_nat k)%Z) by (apply Z.pow_pos_nonneg; lia).
  assert (E : (2 ^ Z.of_nat (S k) = 2 ^ Z.of_nat k * 2)%Z).
  { rewrite Nat2Z.inj_succ, Z.pow_succ_r by lia. lia. }
  assert (Hq : (M / 2 ^ Z.of_nat (S k) = m / 2)%Z).
  { rewrite E, <- Z.div_div by lia. now rewrite Hm. }
  assert (Hr : (M mod 2 ^ Z.of_nat (S k)
                = M mod 2 ^ Z.of_nat k + 2 ^ Z.of_nat k * (m mod 2))%Z).
  { rewrite E, Z.rem_mul_r by lia. now rewrite Hm. }
  assert (Hm0 : (0 <= m)%Z) by (rewrite Hm; apply Z.div_pos; lia).
  pose proof (Z.mod_pos_bound M (2 ^ Z.of_nat k) P) as HB.
  unfold shifted. rewrite Hq, Hr.
  destruct m as [|[p|p|]|p]; try lia; cbn [shr_1 shr_m shr_r shr_s].
  - split; [reflexivity|]. change (0 mod 2)%Z with 0%Z.
    rewrite orb_false_iff. split.
    + intros [_ H]. apply Hrs in H. lia.
    + intros H. split; [reflexivity|]. apply Hrs. lia.
  - split; [rewrite Pos2Z.inj_xI; Z.to_euclidean_division_equations; lia|].
    replace (Z.pos p~1 mod 2)%Z with 1%Z
      by (rewrite Pos2Z.inj_xI; Z.to_euclidean_division_equations; lia).
    split; [intros [H _]; discriminate|lia].
  - split; [rewrite Pos2Z.inj_xO; Z.to_euclidean_division_equations; lia|].
    replace (Z.pos p~0 mod 2)%Z with 0%Z
      by (rewrite Pos2Z.inj_xO; Z.to_euclidean_division_equations; lia).
    rewrite orb_false_iff. split.
    + intros [_ H]. apply Hrs in H. lia.
    + intros H. split; [reflexivity|]. apply Hrs. lia.
  - split; [reflexivity|]. change (1 mod 2)%Z with 1%Z.
    split; [intros [H _]; discriminate|lia].
Qed.

Lemma iter_shr_1_shifted (M : Z) (k : nat) :
  (0 <= M)%Z ->
  shifted M k (Nat.iter k shr_1 (Build_shr_record M false false)).
Proof.
  intros HM. induction k as [|k IH].
  - unfold shifted. cbn [Nat.iter shr_m shr_r shr_s].
    change (2 ^ Z.of_nat 0)%Z with 1%Z. rewrite Z.div_1_r, Z.mod_1_r. tauto.
  - cbn [Nat.iter]. now apply shr_1_shifted.
Qed.

(** [shr] on an exact mantissa. *)
Lemma shr_exact_spec (M E n : Z) :
  (0 <= M)%Z ->
  exists mrs,
    shr (Build_shr_record M false false) E n = (mrs, (E + Z.max n 0)%Z) /\
    shr_m mrs = (M / 2 ^ Z.max n 0)%Z /\
    (loc_of_shr_record mrs = loc_Exact <-> (M mod 2 ^ Z.max n 0 = 0)%Z).
Proof.
  intros HM. destruct n as [|p|p]; cbn [shr].
  - exists (Build_shr_record M false false). cbn. rewrite Z.add_0_r, Z.div_1_r, Z.mod_1_r.
    repeat split; reflexivity.
  - eexists. rewrite Z.max_l by lia. split; [reflexivity|].
    rewrite iter_pos_nat. destruct (iter_shr_1_shifted M (Pos.to_nat p) HM) as [Hm Hrs].
    rewrite positive_nat_Z in Hm, Hrs. split; [exact Hm|].
    rewrite <- Hrs. destruct (Nat.iter _ _ _) as [m [|] [|]]; cbn; split;
      try discriminate; try tauto; intros [? ?]; discriminate.
  - exists (Build_shr_record M false false). cbn. rewrite Z.add_0_r, Z.div_1_r, Z.mod_1_r.
    repeat split; reflexivity.
Qed.

Lemma round_nearest_even_bounds (m : Z) (l : location) :
  (m <= round_nearest_even m l <= m + 1)%Z /\
  (l = loc_Exact -> round_nearest_even m l = m).
Proof.
  destruct l as [|[| |]]; cbn; try (split; [lia|]; try reflexivity; discriminate).
  destruct (Z.even m); split; try lia; discriminate.
Qed.

Lemma digits_le_of_lt_pow (p : positive) (k : Z) :
  (Z.pos p < 2 ^ k)%Z -> (Z.pos (digits2_pos p) <= k)%Z.
Proof.
  intros H. destruct (digits_bounds p) as [L _].
  destruct (Z_lt_le_dec k 0) as [Hk|Hk].
  - rewrite Z.pow_neg_r in H by lia. lia.
  - destruct (Z_lt_le_dec k (Z.pos (digits2_pos p))) as [Hd|Hd]; [|exact Hd].
    assert (2 ^ k <= 2 ^ (Z.pos (digits2_pos p) - 1))%Z
      by (apply Z.pow_le_mono_r; lia). lia.
Qed.

(** Rounding an exact product or sum that lies below a representable
    bound gives a non-negative number that does not exceed the
    bound. *)
Lemma binary_round_aux_upper (M : positive) (E : Z) (mc : positive) (ec : Z) :
  (E <= fexp prec emax (Z.pos (digits2_pos M) + E))%Z ->
  canonical_mantissa prec emax mc ec = true -> (ec <= 971)%Z ->
  IZR (Z.pos M) * bpow E <= IZR (Z.pos mc) * bpow ec ->
  nonneg (binary_round_aux prec emax false (Z.pos M) E loc_Exact) /\
  value (binary_round_aux prec emax false (Z.pos M) E loc_Exact)
    <= IZR (Z.pos mc) * bpow ec.
Proof.
  intros Hn Hc Hec Hq.
  destruct (canonical_facts _ _ Hc) as (Lc & Dc & _).
  set (d := Z.pos (digits2_pos M)) in *.
  set (e1 := fexp prec emax (d + E)) in *.
  destruct (digits_bounds_R M E) as [LoM _]. fold d in LoM.
  destruct (digits_bounds_R mc ec) as [_ UpC].
  (* the grid of the result is at least as fine as that of the bound *)
  assert (He1 : (e1 <= ec)%Z).
  { assert (bpow (d - 1 + E) < bpow (Z.pos (digits2_pos mc) + ec)) by lra.
    apply bpow_lt_inv in H. unfold e1, fexp, emin, prec, emax. lia. }
  assert (He1' : (-1074 <= e1)%Z) by (unfold e1, fexp, emin, prec, emax; lia).
  set (n := (e1 - E)%Z).
  set (K := (Z.pos mc * 2 ^ (ec - e1))%Z).
  assert (HK : IZR (Z.pos mc) * bpow ec = IZR K * bpow e1).
  { unfold K. rewrite mult_IZR, <- bpow_nonneg_exp by lia.
    replace ec with ((ec - e1) + e1)%Z at 1 by lia. rewrite bpow_add. ring. }
  assert (HMK : (Z.pos M <= K * 2 ^ n)%Z).
  { apply le_IZR. rewrite mult_IZR, <- bpow_nonneg_exp by (unfold n; lia).
    pose proof (bpow_pos E) as PE.
    assert (HE : bpow e1 = bpow n * bpow E)
      by (rewrite <- bpow_add; f_equal; unfold n; lia).
    rewrite HK, HE in Hq. nra. }
  assert (Pn : (0 < 2 ^ n)%Z) by (apply Z.pow_pos_nonneg; unfold n; lia).
  unfold binary_round_aux, shr_fexp.
  change (Zdigits2 (Z.pos M)) with d. fold e1. fold n.
  change (shr_record_of_loc (Z.pos M) loc_Exact)
    with (Build_shr_record (Z.pos M) false false).
  destruct (shr_exact_spec (Z.pos M) E n) as (mrs & -> & Hm & Hloc); [lia|].
  rewrite Z.max_l in * by (unfold n; lia).
  replace (E + n)%Z with e1 by (unfold n; lia).
  set (m1 := shr_m mrs) in *.
  set (m2 := round_nearest_even m1 (loc_of_shr_record mrs)).
  destruct (round_nearest_even_bounds m1 (loc_of_shr_record mrs)) as [Hb Hex].
  fold m2 in Hb, Hex.
  assert (Hm1 : (0 <= m1)%Z) by (rewrite Hm; apply Z.div_pos; lia).
  assert (Hm2K : (m2 <= K)%Z).
  { pose proof (Z.div_mod (Z.pos M) (2 ^ n)) as DM. rewrite <- Hm in DM.
    pose proof (Z.mod_pos_bound (Z.pos M) (2 ^ n) Pn) as MB.
    destruct (Z.eq_dec (Z.pos M mod 2 ^ n) 0) as [Z0|NZ].
    - rewrite Hex by (apply Hloc; exact Z0). nia.
    - assert (m1 < K)%Z by nia. lia. }
  change (shr_record_of_loc m2 loc_Exact) with (Build_shr_record m2 false false).
  destruct (shr_exact_spec m2 e1 (fexp prec emax (Zdigits2 m2 + e1) - e1))
    as (mrs2 & -> & Hm3 & _); [lia|].
  set (k := Z.max (fexp prec emax (Zdigits2 m2 + e1) - e1) 0) in *.
  assert (Hk : (0 <= k)%Z) by (unfold k; lia).
  assert (Pk : (0 < 2 ^ k)%Z) by (apply Z.pow_pos_nonneg; lia).
  assert (Hm3' : (shr_m mrs2 * 2 ^ k <= m2)%Z).
  { rewrite Hm3. pose proof (Z.div_mod m2 (2 ^ k)).
    pose proof (Z.mod_pos_bound m2 (2 ^ k) Pk). nia. }
  assert (Hm3pos : (0 <= shr_m mrs2)%Z) by (rewrite Hm3; apply Z.div_pos; lia).
  assert (Hval : IZR (shr_m mrs2) * bpow (e1 + k) <= IZR (Z.pos mc) * bpow ec).
  { rewrite HK, (Z.add_comm e1 k), bpow_add, bpow_nonneg_exp by lia.
    rewrite <- Rmult_assoc, <- mult_IZR.
    pose proof (bpow_pos e1). apply IZR_le in Hm3', Hm2K. nra. }
  destruct (shr_m mrs2) as [|m3|m3] eqn:E3; [| |lia].
  - split; [exact I|]. cbn. rewrite HK. pose proof (bpow_pos e1).
    assert (0 <= IZR K) by (apply IZR_le; unfold K; nia). 
    pose proof (Z.pow_pos_nonneg 2 (ec - e1)). nra.
  - assert (He3 : (e1 + k <= 971)%Z).
    { unfold k. destruct (Z.max_spec (fexp prec emax (Zdigits2 m2 + e1) - e1) 0)
        as [[_ ->]|[_ ->]]; [lia|].
      assert (0 < m2)%Z by nia.
      destruct m2 as [|p2|p2]; [lia| |lia].
      change (Zdigits2 (Z.pos p2)) with (Z.pos (digits2_pos p2)).
      assert (Hp2 : (Z.pos p2 < 2 ^ (53 + ec - e1))%Z).
      { destruct (digits_bounds mc) as [_ U].
        assert (2 ^ Z.pos (digits2_pos mc) <= 2 ^ 53)%Z by (apply Z.pow_le_mono_r; lia).
        replace (53 + ec - e1)%Z with (53 + (ec - e1))%Z by lia.
        rewrite Z.pow_add_r by lia.
        pose proof (Z.pow_pos_nonneg 2 (ec - e1)). unfold K in Hm2K. nia. }
      apply digits_le_of_lt_pow in Hp2. unfold fexp, emin, prec, emax. lia. }
    destruct (Z.leb_spec (e1 + k) (emax - prec)) as [_|H];
      [|unfold emax, prec in H; lia].
    split; [exact I|exact Hval].
Qed.

(** ** Left shifts *)

Lemma iter_xO_value (p d : positive) :
  Z.pos (Pos.iter xO p d) = (Z.pos p * 2 ^ Z.pos d)%Z.
Proof.
  induction d using Pos.peano_ind.
  - cbn [Pos.iter]. rewrite Pos2Z.inj_xO. change (2 ^ 1)%Z with 2%Z. lia.
  - rewrite Pos.iter_succ, Pos2Z.inj_xO, IHd, Pos2Z.inj_succ, Z.pow_succ_r by lia.
    lia.
Qed.

Lemma shl_align_spec (m : positive) (e e' : Z) :
  exists m' e'',
    shl_align m e e' = (m', e'') /\
    e'' = Z.min e e' /\
    Z.pos m' = (Z.pos m * 2 ^ (e - e''))%Z /\
    Z.pos (digits2_pos m') = (Z.pos (digits2_pos m) + (e - e''))%Z.
Proof.
  unfold shl_align. destruct (e' - e)%Z as [|d|d] eqn:Ed.
  - exists m, e. replace (Z.min e e') with e by lia.
    rewrite Z.sub_diag, Z.mul_1_r, Z.add_0_r. repeat split.
  - exists m, e. replace (Z.min e e') with e by lia.
    rewrite Z.sub_diag, Z.mul_1_r, Z.add_0_r. repeat split.
  - exists (Pos.iter xO m d), e'. replace (Z.min e e') with e' by lia.
    replace (e - e')%Z with (Z.pos d) by lia.
    rewrite iter_xO_value, F64Facts.digits2_pos_iter_xO. repeat split. 
Qed.

Lemma bpow_shift (m : Z) (e e' : Z) :
  (e' <= e)%Z -> IZR (m * 2 ^ (e - e')) * bpow e' = IZR m * bpow e.
Proof.
  intros H. rewrite mult_IZR, <- bpow_nonneg_exp by lia.
  replace e with ((e - e') + e')%Z at 2 by lia. rewrite bpow_add. ring.
Qed.

(** Rounding after alignment, below a representable bound. *)
Lemma binary_round_upper (M : positive) (E : Z) (mc : positive) (ec : Z) :
  canonical_mantissa prec emax mc ec = true -> (ec <= 971)%Z ->
  IZR (Z.pos M) * bpow E <= IZR (Z.pos mc) * bpow ec ->
  nonneg (binary_round prec emax false M E) /\
  value (binary_round prec emax false M E) <= IZR (Z.pos mc) * bpow ec.
Proof.
  intros Hc Hec Hq. unfold binary_round.
  destruct (shl_align_spec M E (fexp prec emax (Z.pos (digits2_pos M) + E)))
    as (mz & ez & -> & He & Hm & Hd).
  apply binary_round_aux_upper; try assumption.
  - rewrite Hd. replace (Z.pos (digits2_pos M) + (E - ez) + ez)%Z
      with (Z.pos (digits2_pos M) + E)%Z by lia. lia.
  - rewrite Hm, bpow_shift by lia. exact Hq.
Qed.

(** ** Bounds through the operations *)

Lemma valid_repr (x : float) (s : bool) (m : positive) (e : Z) :
  Prim2SF x = S754_finite s m e ->
  canonical_mantissa prec emax m e = true /\ (e <= 971)%Z.
Proof.
  intros E. apply (valid_finite s). rewrite <- E. apply Prim2SF_valid.
Qed.

Lemma digits_ge_of_pow_le (p : positive) (k : Z) :
  (2 ^ (k - 1) <= Z.pos p)%Z -> (k <= Z.pos (digits2_pos p))%Z.
Proof.
  intros H. destruct (digits_bounds p) as [_ U].
  destruct (Z_lt_le_dec (Z.pos (digits2_pos p)) k) as [Hd|Hd]; [|exact Hd].
  assert (2 ^ Z.pos (digits2_pos p) <= 2 ^ (k - 1))%Z
    by (apply Z.pow_le_mono_r; lia). lia.
Qed.

Lemma mul_below (x c B : float) (a : R) :
  below x a -> normal c -> positive_float B ->
  a * value (Prim2SF c) <= value (Prim2SF B) ->
  below (x * c)%float (value (Prim2SF B)).
Proof.
  intros [Nx Vx] (mc & ec & Ec & Dc) (mB & eB & EB) Hab.
  destruct (valid_repr _ _ _ _ EB) as [CB LB].
  unfold below. rewrite FloatAxioms.mul_spec, Ec, EB in *. cbn [value] in *.
  assert (PB : 0 <= IZR (Z.pos mB) * bpow eB).
  { pose proof (bpow_pos eB). assert (0 < IZR (Z.pos mB)) by (apply IZR_lt; lia). nra. }
  destruct (Prim2SF x) as [sx|sx| |sx mx ex]; try contradiction.
  - cbn. split; [exact I|]. destruct (xorb sx false); exact PB.
  - destruct sx; [contradiction|]. cbn [SF64mul SFmul xorb].
    apply binary_round_aux_upper; try assumption.
    + assert (53 <= Z.pos (digits2_pos (mx * mc)))%Z.
      { apply digits_ge_of_pow_le. destruct (digits_bounds mc) as [L _].
        rewrite Dc in L. rewrite Pos2Z.inj_mul. change (53 - 1)%Z with 52%Z in *. nia. }
      unfold fexp, emin, prec, emax. lia.
    + cbn [value] in Vx. rewrite Pos2Z.inj_mul, mult_IZR, bpow_add.
      assert (Pc : 0 <= IZR (Z.pos mc) * bpow ec).
      { pose proof (bpow_pos ec).
        assert (0 < IZR (Z.pos mc)) by (apply IZR_lt; lia). nra. }
      apply Rle_trans with (a * (IZR (Z.pos mc) * bpow ec)); [|exact Hab].
      replace (IZR (Z.pos mx) * IZR (Z.pos mc) * (bpow ex * bpow ec))
        with (IZR (Z.pos mx) * bpow ex * (IZR (Z.pos mc) * bpow ec)) by ring.
      now apply Rmult_le_compat_r.
Qed.

Lemma value_finite_pos (m : positive) (e : Z) : 0 < IZR (Z.pos m) * bpow e.
Proof.
  pose proof (bpow_pos e). assert (0 < IZR (Z.pos m)) by (apply IZR_lt; lia). nra.
Qed.

Lemma aligned_value (m : positive) (e e' : Z) :
  (e' <= e)%Z ->
  IZR (Z.pos (fst (shl_align m e e'))) * bpow e' = IZR (Z.pos m) * bpow e.
Proof.
  intros H. destruct (shl_align_spec m e e') as (m' & e'' & -> & E & Hm & _).
  cbn [fst]. rewrite Hm. replace e'' with e' by lia. now apply bpow_shift.
Qed.

Lemma add_below (x y B : float) (a b : R) :
  below x a -> below y b -> positive_float B ->
  a + b <= value (Prim2SF B) ->
  below (x + y)%float (value (Prim2SF B)).
Proof.
  intros [Nx Vx] [Ny Vy] (mB & eB & EB) Hab.
  destruct (valid_repr _ _ _ _ EB) as [CB LB].
  pose proof (value_nonneg (Prim2SF x)) as Px.
  pose proof (value_nonneg (Prim2SF y)) as Py.
  unfold below. rewrite FloatAxioms.add_spec, EB in *. cbn [value] in Hab |- *.
  destruct (Prim2SF x) as [sx|sx| |sx mx ex]; try contradiction;
    destruct (Prim2SF y) as [sy|sy| |sy my ey]; try contradiction.
  - cbn in *. destruct sx, sy; cbn; split; try exact I; lra.
  - destruct sy; [contradiction|]. cbn in *. split; [exact I|lra].
  - destruct sx; [contradiction|]. cbn in *. split; [exact I|lra].
  - destruct sx, sy; try contradiction. cbn [SF64add SFadd cond_Zopp].
    set (ez := Z.min ex ey).
    pose proof (aligned_value mx ex ez ltac:(unfold ez; lia)) as Ax.
    pose proof (aligned_value my ey ez ltac:(unfold ez; lia)) as Ay.
    change (Z.pos (fst (shl_align mx ex ez)) + Z.pos (fst (shl_align my ey ez)))%Z
      with (Z.pos (fst (shl_align mx ex ez) + fst (shl_align my ey ez))).
    cbn [binary_normalize].
    apply binary_round_upper; try assumption.
    rewrite Pos2Z.inj_add, plus_IZR, Rmult_plus_distr_r, Ax, Ay.
    cbn [value] in Vx, Vy. lra.
Qed.

(** [x - y] for [y] between [lo] and [x]. *)
Lemma sub_below (x y B : float) (lo : R) :
  positive_float x -> below y (value (Prim2SF x)) -> lo <= value (Prim2SF y) ->
  positive_float B ->
  value (Prim2SF x) - lo <= value (Prim2SF B) ->
  below (x - y)%float (value (Prim2SF B)).
Proof.
  intros (mx & ex & Ex) [Ny Vy] Hlo (mB & eB & EB) Hab.
  destruct (valid_repr _ _ _ _ EB) as [CB LB].
  unfold below. rewrite FloatAxioms.sub_spec, Ex, EB in *. cbn [value] in *.
  destruct (Prim2SF y) as [sy|sy| |sy my ey]; try contradiction.
  - cbn in *. split; [exact I|lra].
  - destruct sy; [contradiction|]. cbn [SF64sub SFsub cond_Zopp].
    set (ez := Z.min ex ey).
    pose proof (aligned_value mx ex ez ltac:(unfold ez; lia)) as Ax.
    pose proof (aligned_value my ey ez ltac:(unfold ez; lia)) as Ay.
    set (px := fst (shl_align mx ex ez)) in *.
    set (py := fst (shl_align my ey ez)) in *.
    cbn [value] in Vy, Hlo.
    pose proof (bpow_pos ez) as Pz.
    assert (Hle : (Z.pos py <= Z.pos px)%Z).
    { apply le_IZR. nra. }
    destruct (Z.pos px - Z.pos py)%Z as [|d|d] eqn:Ed; [| |lia].
    + cbn. split; [exact I|]. apply Rlt_le, value_finite_pos.
    + cbn [binary_normalize]. apply binary_round_upper; try assumption.
      rewrite <- Ed, minus_IZR, Rmult_minus_distr_r, Ax, Ay. lra.
Qed.

(** ** Comparisons *)

Lemma ltb_true_value (x y : float) :
  nonneg (Prim2SF x) -> nonneg (Prim2SF y) ->
  (x <? y)%float = true -> value (Prim2SF x) < value (Prim2SF y).
Proof.
  intros Nx Ny. rewrite FloatAxioms.ltb_spec. unfold SFltb.
  pose proof (compare_nonneg _ _ (Prim2SF_valid x) (Prim2SF_valid y) Nx Ny) as H.
  destruct (SFcompare (Prim2SF x) (Prim2SF y)) as [[| |]|]; try discriminate.
  now intros _.
Qed.

Lemma ltb_false_value (x y : float) :
  nonneg (Prim2SF x) -> nonneg (Prim2SF y) ->
  (x <? y)%float = false -> value (Prim2SF y) <= value (Prim2SF x).
Proof.
  intros Nx Ny. rewrite FloatAxioms.ltb_spec. unfold SFltb.
  pose proof (compare_nonneg _ _ (Prim2SF_valid x) (Prim2SF_valid y) Nx Ny) as H.
  destruct (SFcompare (Prim2SF x) (Prim2SF y)) as [[| |]|];
    try discriminate; try contradiction; intros _; lra.
Qed.

Lemma below_leb (x B : float) :
  nonneg (Prim2SF B) -> below x (value (Prim2SF B)) ->
  (0 <=? x)%float = true /\ (x <=? B)%float = true.
Proof.
  intros NB [Nx Vx]. rewrite !FloatAxioms.leb_spec. unfold SFleb. split.
  - replace (Prim2SF 0) with (S754_zero false) by (vm_compute; reflexivity).
    destruct (Prim2SF x) as [s|s| |s m e]; try contradiction; [reflexivity|].
    destruct s; [contradiction|reflexivity].
  - pose proof (compare_nonneg _ _ (Prim2SF_valid x) (Prim2SF_valid B) Nx NB) as H.
    destruct (SFcompare (Prim2SF x) (Prim2SF B)) as [[| |]|];
      try reflexivity; try contradiction; lra.
Qed.



End Rounding.

(* ================================================================== *)
(** * Operations that cannot produce NaN *)
(* ================================================================== *)

Module Signs.

Import F64Value Rounding.

Lemma shr_1_nonneg (mrs : shr_record) :
  (0 <= shr_m mrs)%Z -> (0 <= shr_m (shr_1 mrs))%Z.
Proof. destruct mrs as [[|[p|p|]|p] r s]; cbn; lia. Qed.

Lemma shr_nonneg (mrs : shr_record) (e n : Z) :
  (0 <= shr_m mrs)%Z -> (0 <= shr_m (fst (shr mrs e n)))%Z.
Proof.
  intros H. destruct n as [|p|p]; cbn [shr fst]; try exact H.
  rewrite iter_pos_nat. induction (Pos.to_nat p) as [|k IH]; [exact H|].
  cbn [Nat.iter]. now apply shr_1_nonneg.
Qed.

Lemma shr_record_of_loc_m (m : Z) (l : location) :
  shr_m (shr_record_of_loc m l) = m.
Proof. destruct l as [|[| |]]; reflexivity. Qed.

Lemma binary_round_aux_signed (sx : bool) (m e : Z) (l : location) :
  (0 <= m)%Z -> signed sx (binary_round_aux prec emax sx m e l).
Proof.
  intros Hm. unfold binary_round_aux, shr_fexp.
  pose proof (shr_nonneg (shr_record_of_loc m l) e
                (fexp prec emax (Zdigits2 m + e) - e)) as H1.
  rewrite shr_record_of_loc_m in H1. specialize (H1 Hm).
  destruct (shr (shr_record_of_loc m l) e _) as [mrs1 e1]. cbn [fst] in H1.
  set (m2 := round_nearest_even (shr_m mrs1) (loc_of_shr_record mrs1)).
  assert (H2 : (0 <= m2)%Z).
  { pose proof (round_nearest_even_bounds (shr_m mrs1) (loc_of_shr_record mrs1)).
    unfold m2. lia. }
  pose proof (shr_nonneg (shr_record_of_loc m2 loc_Exact) e1
                (fexp prec emax (Zdigits2 m2 + e1) - e1)) as H3.
  rewrite shr_record_of_loc_m in H3. specialize (H3 H2).
  destruct (shr (shr_record_of_loc m2 loc_Exact) e1 _) as [mrs3 e3].
  cbn [fst] in H3. destruct (shr_m mrs3) as [|m3|m3]; [reflexivity| |lia].
  destruct (e3 <=? emax - prec)%Z; reflexivity.
Qed.

Lemma binary_normalize_number (m e : Z) :
  number (binary_normalize prec emax m e false).
Proof.
  unfold number. destruct m as [|p|p]; cbn [binary_normalize]; [discriminate| |];
    unfold binary_round;
    destruct (shl_align _ _ _) as [mz ez];
    match goal with |- binary_round_aux _ _ ?s _ _ _ <> _ =>
      pose proof (binary_round_aux_signed s (Z.pos mz) ez loc_Exact ltac:(lia)) as H
    end; intros E; rewrite E in H; exact H.
Qed.

Lemma binary_round_nonneg_inf (m : positive) (e : Z) :
  nonneg_inf (binary_round prec emax false m e).
Proof.
  unfold binary_round. destruct (shl_align _ _ _) as [mz ez].
  pose proof (binary_round_aux_signed false (Z.pos mz) ez loc_Exact ltac:(lia)) as H.
  destruct (binary_round_aux _ _ _ _ _ _) as [s|s| |s ? ?]; cbn in H;
    try contradiction; subst s; exact I.
Qed.

Lemma signed_false_nonneg_inf (x : spec_float) : signed false x -> nonneg_inf x.
Proof.
  destruct x as [s|s| |s m e]; cbn; intros H; try contradiction; subst; exact I.
Qed.

Lemma nonneg_inf_number (x : spec_float) : nonneg_inf x -> number x.
Proof. destruct x; cbn; try contradiction; discriminate. Qed.

(** Squares. *)
Lemma mul_self_nonneg_inf (x : float) :
  number (Prim2SF x) -> nonneg_inf (Prim2SF (x * x)).
Proof.
  unfold number. rewrite FloatAxioms.mul_spec.
  destruct (Prim2SF x) as [s|s| |s m e]; intros H; cbn [SF64mul SFmul].
  - now destruct s.
  - now destruct s.
  - congruence.
  - apply signed_false_nonneg_inf. rewrite xorb_nilpotent.
    apply binary_round_aux_signed. lia.
Qed.

Lemma mul_nonneg_inf (x y : float) :
  nonneg_inf (Prim2SF x) -> positive_float y -> nonneg_inf (Prim2SF (x * y)).
Proof.
  intros Hx (m & e & E). rewrite FloatAxioms.mul_spec, E.
  destruct (Prim2SF x) as [s|s| |s mx ex]; try contradiction; cbn [SF64mul SFmul].
  - exact I.
  - destruct s; [contradiction|exact I].
  - destruct s; [contradiction|]. apply signed_false_nonneg_inf.
    apply binary_round_aux_signed. lia.
Qed.

Lemma add_nonneg_inf (x y : float) :
  nonneg_inf (Prim2SF x) -> nonneg_inf (Prim2SF y) -> nonneg_inf (Prim2SF (x + y)).
Proof.
  rewrite FloatAxioms.add_spec.
  destruct (Prim2SF x) as [sx|sx| |sx mx ex]; try contradiction;
    destruct (Prim2SF y) as [sy|sy| |sy my ey]; try contradiction;
    intros Hx Hy; try (destruct sx; try contradiction);
    try (destruct sy; try contradiction); cbn [SF64add SFadd cond_Zopp]; try exact I.
  change (Z.pos ?a + Z.pos ?b)%Z with (Z.pos (a + b)).
  cbn [binary_normalize]. apply binary_round_nonneg_inf.
Qed.

Lemma div_nonneg_inf (x y : float) :
  nonneg_inf (Prim2SF x) -> positive_float y -> nonneg_inf (Prim2SF (x / y)).
Proof.
  intros Hx (m & e & E). rewrite FloatAxioms.div_spec, E.
  destruct (Prim2SF x) as [s|s| |s mx ex]; try contradiction; cbn [SF64div SFdiv].
  - exact I.
  - destruct s; [contradiction|exact I].
  - destruct s; [contradiction|].
    destruct (SFdiv_core_binary prec emax (Z.pos mx) ex (Z.pos m) e)
      as [[mz ez] lz] eqn:Ed.
    apply signed_false_nonneg_inf. apply binary_round_aux_signed.
    unfold SFdiv_core_binary in Ed.
    match type of Ed with
    | (let '(q, r) := Z.div_eucl ?a ?b in _) = _ =>
        pose proof (Z_div_mod a b ltac:(lia)) as DM;
        assert (Ha : (0 <= a)%Z);
        [|destruct (Z.div_eucl a b) as [q r]]
    end.
    + destruct (_ - _ - _)%Z; try lia. apply Z.shiftl_nonneg. lia.
    + injection Ed as <- _ _. nia.
Qed.

Lemma div_number (x y : float) :
  number (Prim2SF x) -> positive_float y -> number (Prim2SF (x / y)).
Proof.
  intros Hx (m & e & E). unfold number in *. rewrite FloatAxioms.div_spec, E.
  destruct (Prim2SF x) as [s|s| |s mx ex]; cbn [SF64div SFdiv];
    try discriminate; try congruence.
  destruct (SFdiv_core_binary prec emax (Z.pos mx) ex (Z.pos m) e)
    as [[mz ez] lz] eqn:Ed.
  assert (Hz : (0 <= mz)%Z).
  { unfold SFdiv_core_binary in Ed.
    match type of Ed with
    | (let '(q, r) := Z.div_eucl ?a ?b in _) = _ =>
        pose proof (Z_div_mod a b ltac:(lia)) as DM;
        assert (Ha : (0 <= a)%Z);
        [|destruct (Z.div_eucl a b) as [q r]]
    end.
    + destruct (_ - _ - _)%Z; try lia. apply Z.shiftl_nonneg. lia.
    + injection Ed as <- _ _. nia. }
  pose proof (binary_round_aux_signed (xorb s false) mz ez lz Hz) as H.
  intros En. rewrite En in H. exact H.
Qed.

Lemma sub_number (x y : float) :
  number (Prim2SF x) -> positive_float y -> number (Prim2SF (x - y)).
Proof.
  intros Hx (m & e & E). unfold number in *. rewrite FloatAxioms.sub_spec, E.
  destruct (Prim2SF x) as [s|s| |s mx ex]; cbn [SF64sub SFsub];
    try discriminate; try congruence.
  apply binary_normalize_number.
Qed.

Lemma sub_number_l (x y : float) :
  positive_float x \/ Prim2SF x = S754_zero false ->
  nonneg_inf (Prim2SF y) -> number (Prim2SF (x - y)).
Proof.
  intros Hx Hy. unfold number. rewrite FloatAxioms.sub_spec.
  destruct Hx as [(m & e & ->)| ->];
    destruct (Prim2SF y) as [s|s| |s my ey]; try contradiction;
    cbn [SF64sub SFsub]; try discriminate; try (destruct s; discriminate).
  apply binary_normalize_number.
Qed.

Lemma sqrt_nonneg_inf (x : float) :
  nonneg_inf (Prim2SF x) -> nonneg_inf (Prim2SF (PrimFloat.sqrt x)).
Proof.
  rewrite FloatAxioms.sqrt_spec.
  destruct (Prim2SF x) as [s|s| |s m e]; try contradiction; cbn [SF64sqrt SFsqrt].
  - intros _. exact I.
  - destruct s; [contradiction|]. intros _. exact I.
  - destruct s; [contradiction|]. intros _.
    destruct (SFsqrt_core_binary prec emax (Z.pos m) e) as [[mz ez] lz] eqn:Es.
    apply signed_false_nonneg_inf. apply binary_round_aux_signed.
    unfold SFsqrt_core_binary in Es.
    match type of Es with
    | (let (q, r) := Z.sqrtrem ?a in _) = _ =>
        pose proof (Z.sqrtrem_spec a) as SS;
        assert (Ha : (0 <= a)%Z);
        [|specialize (SS Ha); destruct (Z.sqrtrem a) as [q r]]
    end.
    + destruct (_ - _)%Z; try lia. apply Z.shiftl_nonneg. lia.
    + injection Es as <- _ _. lia.
Qed.

End Signs.

(* ================================================================== *)
(** * Bounds of the scores on binary64 *)
(* ================================================================== *)

Module ScoreBounds.

Import F64Value Rounding Signs.
Local Open Scope R_scope.

Lemma bpow_neg (p : positive) : bpow (Z.neg p) = / IZR (2 ^ Z.pos p).
Proof.
  change (Z.neg p) with (- Z.pos p)%Z. unfold bpow. rewrite powerRZ_neg'.
  f_equal. apply (bpow_nonneg_exp (Z.pos p)). lia.
Qed.

(** Inequalities between the values of binary64 constants. *)
Ltac dyadic :=
  repeat match goal with
  | |- context [Prim2SF ?c] =>
      let r := eval vm_compute in (Prim2SF c) in
      change (Prim2SF c) with r
  end;
  cbn [value]; rewrite ?bpow_neg;
  repeat match goal with
  | |- context [(2 ^ Z.pos ?p)%Z] =>
      let v := eval vm_compute in (2 ^ Z.pos p)%Z in
      change (2 ^ Z.pos p)%Z with v
  end;
  lra.

Ltac constant := eexists _, _; repeat split; vm_compute; reflexivity.

(** The literals of the scoring code as binary64 constants. *)
Ltac literals :=
  repeat match goal with
  | |- context [@lit Float64 ?q] =>
      let v := eval vm_compute in (@lit Float64 q) in
      change (@lit Float64 q) with v
  end;
  change (@mul Float64) with PrimFloat.mul;
  change (@add Float64) with PrimFloat.add;
  change (@sub Float64) with PrimFloat.sub;
  change (@lt Float64) with PrimFloat.ltb.

Lemma below_one : below 1 (value (Prim2SF 1)).
Proof. split; [vm_compute; exact I|lra]. Qed.

Lemma below_weaken (x : float) (a b : R) : below x a -> a <= b -> below x b.
Proof. intros [N V] H. split; [exact N|lra]. Qed.

Lemma nonneg_constant (c : float) : positive_float c -> nonneg (Prim2SF c).
Proof. intros (m & e & ->). exact I. Qed.

(** A knee of the form [s > k ? 1 : s * c]. *)
Lemma boosted_up (s k c : float) :
  below s (value (Prim2SF 1)) -> positive_float k -> normal c ->
  value (Prim2SF k) * value (Prim2SF c) <= value (Prim2SF 1) ->
  below (if (k <? s)%float then 1%float else (s * c)%float) (value (Prim2SF 1)).
Proof.
  intros Hs Hk Hc Hkc. destruct (k <? s)%float eqn:E; [exact below_one|].
  apply (mul_below s c 1 (value (Prim2SF k))); try assumption; [|constant].
  split; [apply Hs|].
  apply (ltb_false_value k s); [now apply nonneg_constant|apply Hs|exact E].
Qed.

(** A knee of the form [s < k ? 1 : (1 - s) * c]. *)
Lemma boosted_down (s k c B : float) :
  below s (value (Prim2SF 1)) -> positive_float k -> normal c ->
  positive_float B ->
  value (Prim2SF 1) - value (Prim2SF k) <= value (Prim2SF B) ->
  value (Prim2SF B) * value (Prim2SF c) <= value (Prim2SF 1) ->
  below (if (s <? k)%float then 1%float else ((1 - s) * c)%float)
        (value (Prim2SF 1)).
Proof.
  intros Hs Hk Hc HB H1 H2. destruct (s <? k)%float eqn:E; [exact below_one|].
  apply (mul_below (1 - s) c 1 (value (Prim2SF B))); try assumption; [|constant].
  apply (sub_below 1 s B (value (Prim2SF k))); try assumption; [constant|].
  apply (ltb_false_value s k); [apply Hs|now apply nonneg_constant|exact E].
Qed.

Lemma weighted (t w : float) :
  below t (value (Prim2SF 1)) -> normal w ->
  below (t * w)%float (value (Prim2SF w)).
Proof.
  intros Ht Hw. apply (mul_below t w w (value (Prim2SF 1))); try assumption.
  - destruct Hw as (m & e & E & _). now exists m, e.
  - replace (value (Prim2SF 1)) with 1 by dyadic. lra.
Qed.

Lemma happyScoreOf_below (p v x : @num Float64) :
  below p (value (Prim2SF 1)) -> below v (value (Prim2SF 1)) ->
  below x (value (Prim2SF 1)) ->
  below (happyScoreOf p v x) (value (Prim2SF 1)).
Proof.
  intros Hp Hv Hx. unfold happyScoreOf. literals.
  apply (add_below _ _ 1 (value (Prim2SF 0.7)) (value (Prim2SF 0.3)));
    [| |constant|dyadic].
  - apply (add_below _ _ 0.7 (value (Prim2SF 0.35)) (value (Prim2SF 0.35)));
      [| |constant|dyadic].
    + apply weighted; [|constant].
      apply boosted_up; [exact Hp|constant|constant|dyadic].
    + apply weighted; [|constant].
      destruct (0.6 <? v)%float; [exact below_one|exact Hv].
  - apply weighted; [|constant].
    apply boosted_up; [exact Hx|constant|constant|dyadic].
Qed.

Lemma sadScoreOf_below (p v x : @num Float64) :
  below p (value (Prim2SF 1)) -> below v (value (Prim2SF 1)) ->
  below x (value (Prim2SF 1)) ->
  below (sadScoreOf p v x) (value (Prim2SF 1)).
Proof.
  intros Hp Hv Hx. unfold sadScoreOf. literals.
  apply (add_below _ _ 1 (value (Prim2SF 0.75)) (value (Prim2SF 0.25)));
    [| |constant|dyadic].
  - apply (add_below _ _ 0.75 (value (Prim2SF 0.35)) (value (Prim2SF 0.4)));
      [| |constant|dyadic].
    + apply weighted; [|constant].
      apply (boosted_down p 0.4 1.5 0.625);
        [exact Hp|constant|constant|constant|dyadic|dyadic].
    + apply weighted; [|constant].
      apply (boosted_down v 0.5 1.2 0.5);
        [exact Hv|constant|constant|constant|dyadic|dyadic].
  - apply weighted; [|constant].
    apply (boosted_down x 0.35 1.3 0.75);
      [exact Hx|constant|constant|constant|dyadic|dyadic].
Qed.

Local Close Scope R_scope.

Lemma is_nan_number (x : float) :
  F64.is_nan x = false <-> number (Prim2SF x).
Proof.
  unfold F64.is_nan, number. rewrite negb_false_iff, FloatAxioms.eqb_spec.
  unfold SFeqb. destruct (Prim2SF x) as [s|s| |s m e]; cbn [SFcompare].
  - split; [discriminate|reflexivity].
  - destruct s; (split; [discriminate|reflexivity]).
  - split; [discriminate|congruence].
  - rewrite Z.compare_refl, Pcompare_refl.
    destruct s; (split; [discriminate|reflexivity]).
Qed.

Lemma ltb_zero_l (y : float) :
  (0 <? y)%float = true ->
  Prim2SF y = S754_infinity false \/ positive_float y.
Proof.
  rewrite FloatAxioms.ltb_spec.
  replace (Prim2SF 0) with (S754_zero false) by (vm_compute; reflexivity).
  unfold SFltb, SFcompare, positive_float.
  destruct (Prim2SF y) as [s|s| |s m e]; try discriminate.
  - destruct s; [discriminate|]. now left.
  - destruct s; [discriminate|]. right. now exists m, e.
Qed.

(** [Math.max(y, 0)] of a number is zero, positive, or [+Infinity]. *)
Lemma max_zero_nonneg_inf (y : float) :
  number (Prim2SF y) -> nonneg_inf (Prim2SF (F64.max y 0)).
Proof.
  intros Hy. unfold F64.max.
  rewrite (proj2 (is_nan_number y) Hy).
  change (F64.is_nan 0) with false. cbn [orb].
  destruct (y <? 0)%float eqn:E1; [vm_compute; exact I|].
  destruct (0 <? y)%float eqn:E2.
  - destruct (ltb_zero_l y E2) as [->|(m & e & ->)]; exact I.
  - destruct (F64.is_neg_zero y); [vm_compute; exact I|].
    revert E1 E2. rewrite !FloatAxioms.ltb_spec.
    replace (Prim2SF 0) with (S754_zero false) by (vm_compute; reflexivity).
    unfold number in Hy. unfold SFltb, SFcompare.
    destruct (Prim2SF y) as [s|s| |s m e]; try congruence; try (intros; exact I);
      destruct s; discriminate.
Qed.

(** [Math.min(m, 1)] of such a number is between zero and one. *)
Lemma min_one_below (m : float) :
  nonneg_inf (Prim2SF m) -> below (F64.min m 1) (value (Prim2SF 1)).
Proof.
  intros Hm. unfold F64.min.
  rewrite (proj2 (is_nan_number m) (nonneg_inf_number _ Hm)).
  change (F64.is_nan 1) with false. cbn [orb].
  change (F64.is_neg_zero 1) with false.
  assert (N1 : nonneg (Prim2SF 1)) by (vm_compute; exact I).
  assert (Hinf : Prim2SF m = S754_infinity false -> (1 <? m)%float = true).
  { intros E. rewrite FloatAxioms.ltb_spec, E. vm_compute. reflexivity. }
  assert (Hfin : (1 <? m)%float = false -> nonneg (Prim2SF m)).
  { intros E. destruct (Prim2SF m) as [s|s| |s mm e] eqn:Em; try contradiction.
    - exact I.
    - destruct s; [contradiction|]. rewrite Hinf in E by reflexivity. discriminate.
    - destruct s; [contradiction|exact I]. }
  destruct (m <? 1)%float eqn:E1.
  - assert (Nm : nonneg (Prim2SF m)).
    { destruct (Prim2SF m) as [s|s| |s mm e] eqn:Em; try contradiction.
      - exact I.
      - destruct s; [contradiction|].
        rewrite FloatAxioms.ltb_spec, Em in E1. vm_compute in E1. discriminate.
      - destruct s; [contradiction|exact I]. }
    split; [exact Nm|]. apply Rlt_le. now apply ltb_true_value.
  - destruct (1 <? m)%float eqn:E2; [exact below_one|].
    specialize (Hfin eq_refl). split; [exact Hfin|].
    now apply (ltb_false_value 1 m).
Qed.

Lemma clamp_below (y : float) :
  number (Prim2SF y) -> below (F64.min (F64.max y 0) 1) (value (Prim2SF 1)).
Proof. intros H. now apply min_one_below, max_zero_nonneg_inf. Qed.

Lemma of_int_positive (n : Z) :
  (1 <= n < 2 ^ 53)%Z -> positive_float (F64.of_int n).
Proof.
  intros H. destruct (F64Facts.of_int_normal n H) as (m & e & E & _).
  now exists m, e.
Qed.

Lemma of_int_feature (n : Z) : (0 <= n < 2 ^ 53)%Z -> feature (F64.of_int n).
Proof.
  intros H. unfold feature. destruct (Z.eq_dec n 0) as [->|Hn]; [vm_compute; exact I|].
  destruct (of_int_positive n ltac:(lia)) as (m & e & ->). exact I.
Qed.

Lemma fold_feature {A : Type} (f : @num Float64 -> A -> @num Float64)
      (l : list A) (a : @num Float64) :
  (forall acc x, In x l -> feature acc -> feature (f acc x)) ->
  feature a -> feature (fold_left f l a).
Proof.
  revert a. induction l as [|x l IH]; intros a Hf Ha; [exact Ha|].
  cbn [fold_left]. apply IH.
  - intros acc y Hy. apply Hf. now right.
  - apply Hf; [now left|exact Ha].
Qed.

Lemma average_feature (f : Sample -> @num Float64) (w : list Sample) :
  F64.array_length (length w) ->
  (forall s, In s w -> feature (f s)) ->
  feature (average f w).
Proof.
  intros Hlen Hf. unfold average.
  apply (div_nonneg_inf _ (F64.of_int (Z.of_nat (length w)))).
  - apply fold_feature; [|vm_compute; exact I].
    intros acc s Hs Hacc. apply add_nonneg_inf; [exact Hacc|now apply Hf].
  - now apply of_int_positive.
Qed.

Lemma pitchScoreOf_below (avg : @num Float64) :
  feature avg -> below (pitchScoreOf avg) (value (Prim2SF 1)).
Proof.
  intros H. unfold pitchScoreOf. apply clamp_below.
  apply div_number; [|constant].
  apply sub_number; [|constant]. now apply nonneg_inf_number.
Qed.

Lemma volumeScoreOf_below (avg : @num Float64) :
  feature avg -> below (volumeScoreOf avg) (value (Prim2SF 1)).
Proof.
  intros H. unfold volumeScoreOf. apply clamp_below.
  apply div_number; [|constant]. now apply nonneg_inf_number.
Qed.

Lemma varianceScoreOf_below (avg : @num Float64) :
  feature avg -> below (varianceScoreOf avg) (value (Prim2SF 1)).
Proof.
  intros H. unfold varianceScoreOf. apply clamp_below.
  apply div_number; [|constant]. now apply nonneg_inf_number.
Qed.

(** C7.  On binary64, for a window of at least ten samples whose
    features are non-negative numbers (what the analysis produces from
    frames that hold no NaN, see [sampleOf_feature] and
    [session_window_features]): happyScore and
    sadScore both lie between 0 and 1.  The three scores are clamped to
    [0, 1], every boosted sub-term stays at most 1, and the rounded
    sums of the weights, 0.35 + 0.35 + 0.3 and 0.35 + 0.4 + 0.25, are
    exactly 1. *)
Theorem composite_scores_bounded (samples : list (Sample (J := Float64))) :
  10 <= length samples -> F64.array_length (length samples) ->
  Forall feature_sample samples ->
  PrimFloat.leb 0 (happyScore samples) = true /\
  PrimFloat.leb (happyScore samples) 1 = true /\
  PrimFloat.leb 0 (sadScore samples) = true /\
  PrimFloat.leb (sadScore samples) 1 = true.
Proof.
  intros _ Hlen Hs. rewrite Forall_forall in Hs.
  assert (Hp : below (pitchScore samples) (value (Prim2SF 1))).
  { apply pitchScoreOf_below, average_feature; [exact Hlen|].
    intros s Hin. apply (Hs s Hin). }
  assert (Hv : below (volumeScore samples) (value (Prim2SF 1))).
  { apply volumeScoreOf_below, average_feature; [exact Hlen|].
    intros s Hin. apply (Hs s Hin). }
  assert (Hx : below (varianceScore samples) (value (Prim2SF 1))).
  { apply varianceScoreOf_below, average_feature; [exact Hlen|].
    intros s Hin. apply (Hs s Hin). }
  assert (N1 : nonneg (Prim2SF 1)) by (vm_compute; exact I).
  destruct (below_leb _ 1 N1 (happyScoreOf_below _ _ _ Hp Hv Hx)) as [H1 H2].
  destruct (below_leb _ 1 N1 (sadScoreOf_below _ _ _ Hp Hv Hx)) as [H3 H4].
  repeat split; assumption.
Qed.

Lemma volumeOf_feature (timeDomainArray : list (@num Float64)) :
  F64.array_length (length timeDomainArray) ->
  Forall (fun x : @num Float64 => F64.is_nan x = false) timeDomainArray ->
  feature (volumeOf timeDomainArray).
Proof.
  intros Hlen Hn. rewrite Forall_forall in Hn. unfold volumeOf.
  apply sqrt_nonneg_inf.
  apply (div_nonneg_inf _ (F64.of_int (Z.of_nat (length timeDomainArray))));
    [|now apply of_int_positive].
  unfold sumSquares. apply fold_feature; [|vm_compute; exact I].
  intros acc x Hx Hacc. apply add_nonneg_inf; [exact Hacc|].
  apply mul_self_nonneg_inf. apply is_nan_number. now apply Hn.
Qed.

Lemma twice_of_int_positive (n : Z) :
  (1 <= n < 2 ^ 53)%Z -> positive_float (F64.of_int n * 2)%float.
Proof.
  intros H. destruct (F64Facts.of_int_normal n H) as (m & e & E & Hd & He).
  exists m, (e + 1)%Z. apply F64Facts.double_normal; [exact E|exact Hd|lia].
Qed.

Lemma pitchOf_feature (rate : option (@num Float64)) (dataArray : list Z) :
  F64.array_length (length dataArray) -> Forall uint8 dataArray ->
  Examples.rate_ok rate ->
  feature (pitchOf rate dataArray).
Proof.
  intros Hlen Hu Hr. unfold pitchOf.
  assert (Hne : dataArray <> []).
  { destruct dataArray; [unfold F64.array_length in Hlen; simpl in Hlen; lia|discriminate]. }
  assert (Hi : maxIndexOf dataArray < length dataArray).
  { apply (maxIndexOf_first_maximum dataArray Hne).
    eapply Forall_impl; [|exact Hu]. unfold uint8. intros z Hz. lia. }
  apply (div_nonneg_inf _ (F64.of_int (Z.of_nat (length dataArray)) * 2)%float);
    [|now apply twice_of_int_positive].
  apply (mul_nonneg_inf (F64.of_int (Z.of_nat (maxIndexOf dataArray)))).
  - apply of_int_feature. unfold F64.array_length in Hlen. lia.
  - destruct (Silence.or_else_finite rate Hr) as (m & e & E). now exists m, e.
Qed.

Lemma of_int_uint8 (z : Z) :
  uint8 z ->
  positive_float (F64.of_int z) \/ Prim2SF (F64.of_int z) = S754_zero false.
Proof.
  unfold uint8. intros H. destruct (Z.eq_dec z 0) as [->|Hz].
  - right. vm_compute. reflexivity.
  - left. apply of_int_positive. change (2 ^ 53)%Z with 9007199254740992%Z. lia.
Qed.

Lemma varianceAround_feature (mean : @num Float64) (dataArray : list Z) :
  F64.array_length (length dataArray) -> Forall uint8 dataArray ->
  feature mean -> feature (varianceAround mean dataArray).
Proof.
  intros Hlen Hu Hm. rewrite Forall_forall in Hu. unfold varianceAround.
  apply (div_nonneg_inf _ (F64.of_int (Z.of_nat (length dataArray))));
    [|now apply of_int_positive].
  apply fold_feature; [|vm_compute; exact I].
  intros acc val Hval Hacc. apply in_map_iff in Hval. destruct Hval as (z & <- & Hz).
  apply add_nonneg_inf; [exact Hacc|]. unfold Math_pow2.
  apply mul_self_nonneg_inf. apply sub_number_l; [|exact Hm].
  apply of_int_uint8. now apply Hu.
Qed.

(** The samples that the analysis produces from frames without NaN are
    feature samples. *)
Lemma sampleOf_feature (rate : option (@num Float64)) (fr : Frame) (N : nat) :
  F64.array_length N -> frame_of_size N fr -> Examples.rate_ok rate ->
  Forall (fun x : @num Float64 => F64.is_nan x = false) (timeDomainArray fr) ->
  feature_sample (sampleOf rate fr).
Proof.
  intros HN (Hd & Ht & Hu) Hr Hnan. unfold sampleOf, extractSample.
  destruct (dataArray fr) as [|z rest] eqn:Ed.
  { unfold F64.array_length in HN. subst N. simpl in HN. lia. }
  cbn [map reduce1]. rewrite <- Ed in *. unfold feature_sample. cbn [pitch volume variance].
  repeat split.
  - apply pitchOf_feature; try assumption. now rewrite Hd.
  - apply volumeOf_feature; [now rewrite Ht|exact Hnan].
  - apply varianceAround_feature; try assumption; [now rewrite Hd|].
    apply (div_nonneg_inf _ (F64.of_int (Z.of_nat (length (dataArray fr)))));
      [|apply of_int_positive; now rewrite Hd].
    assert (Hz : forall y, In y (z :: rest) -> feature (F64.of_int y)).
    { intros y Hy. rewrite <- Ed in Hy. rewrite Forall_forall in Hu.
      specialize (Hu y Hy). unfold uint8 in Hu. apply of_int_feature.
      change (2 ^ 53)%Z with 9007199254740992%Z. lia. }
    apply fold_feature; [|apply Hz; now left].
    intros acc val Hval Hacc. apply in_map_iff in Hval.
    destruct Hval as (y & <- & Hy).
    apply add_nonneg_inf; [exact Hacc|]. apply Hz. now right.
Qed.

Lemma clean_inputs_nonempty inputs :
  Forall clean_input inputs -> nonempty_frames inputs.
Proof.
  intros H. unfold nonempty_frames. eapply Forall_impl; [|exact H].
  intros i (N & HN & (Hd & _) & _). cbv beta.
  destruct (dataArray (snd i)); [|discriminate].
  unfold F64.array_length in HN. subst N. simpl in HN. lia.
Qed.

Lemma samplesOf_features (rate : @num Float64) inputs :
  F64.positive_finite rate -> Forall clean_input inputs ->
  Forall feature_sample (samplesOf (Some rate) inputs).
Proof.
  intros Hr H. unfold samplesOf. apply Forall_map.
  eapply Forall_impl; [|exact H].
  intros i (N & HN & Hf & Hn). cbv beta.
  apply (sampleOf_feature (Some rate) (snd i) N); try assumption.
  intros r E. now injection E as <-.
Qed.

(** Every window the recorder classifies during a session of NaN-free
    frames is made of features, and holds at most 101 of them: the
    hypotheses of the bounds on the composite scores are met by all the
    windows that occur. *)
Lemma session_window_features (c : Component) (rate : @num Float64)
      (inputs : list ((nat -> @num Float64) * Frame))
      (i : (nat -> @num Float64) * Frame) :
  F64.positive_finite rate -> Forall clean_input (inputs ++ [i]) ->
  let before := ticks (startRecording c (Some rate)) inputs in
  let samples := emotionSamplesRef before ++ [sampleOf (Some rate) (snd i)] in
  F64.array_length (length samples) /\ Forall feature_sample samples.
Proof.
  intros Hr Hc before samples.
  pose proof (samplesOf_features rate _ Hr Hc) as Hf.
  rewrite samplesOf_snoc in Hf. apply Forall_app in Hf. destruct Hf as [Hf Hi].
  apply Forall_app in Hc. destruct Hc as [Hc _].
  destruct (ticks_window c rate inputs (clean_inputs_nonempty _ Hc)) as [_ Hw].
  fold before in Hw.
  assert (Hlen : 1 <= length samples <= 101).
  { unfold samples. rewrite length_app, Hw, slice_last_length. cbn [length]. lia. }
  split.
  - unfold F64.array_length. change (2 ^ 53)%Z with 9007199254740992%Z. lia.
  - unfold samples. apply Forall_app. split; [|exact Hi].
    rewrite Hw. unfold slice_last.
    rewrite <- (firstn_skipn (length (samplesOf (Some rate) inputs) - 100)) in Hf.
    apply Forall_app in Hf. exact (proj2 Hf).
Qed.

End ScoreBounds.

(* ================================================================== *)
(** * The theorems at concrete sessions *)
(* ================================================================== *)

Module Instances.

Import Examples.

(** The constants of the source, as binary64 literals. *)
Lemma literals_agree :
  map (@lit Float64)
      [0; 1; 2; 150; 200; 0.15; 800; 0.5; 0.35; 0.6; 0.4; 1.5; 0.3; 1.2;
       1.3; 0.25; 0.45; 0.1; 44100; 0.7]%Q
  = [0; 1; 2; 150; 200; 0.15; 800; 0.5; 0.35; 0.6; 0.4; 1.5; 0.3; 1.2;
     1.3; 0.25; 0.45; 0.1; 44100; 0.7]%float.
Proof. vm_compute. reflexivity. Qed.

Lemma humFrame_of_size : frame_of_size 1024 humFrame.
Proof.
  repeat split.
  apply Forall_forall. intros z Hz. unfold humFrame in Hz. cbn [dataArray] in Hz.
  apply in_app_or in Hz. unfold uint8.
  destruct Hz as [Hz|Hz]; apply repeat_spec in Hz; subst z; lia.
Defined.

Lemma humPrefix_last_nonempty : nonempty_frames (humPrefix ++ [humLast]).
Proof.
  apply Forall_forall. intros i Hi. apply in_app_or in Hi.
  destruct Hi as [[<-|Hi]|[<-|[]]]; try discriminate.
  apply repeat_spec in Hi. subst i. discriminate.
Defined.

Lemma nineTicks_recording : recording rate nineTicks.
Proof. split; [discriminate|reflexivity]. Defined.

Lemma currentLabel_follows_formulas_witness :
  recording rate nineTicks /\ dataArray humFrame <> [] /\
  let window := emotionSamplesRef nineTicks ++ [sampleOf (Some rate) humFrame] in
  10 <= length window /\
  ((exists c', analyzeAudioEmotion nineTicks humFrame = Normal c' /\
               detectedEmotion c' = Some (spec_currentLabel window)) /\
   pitchScore window = spec_pitchScore window /\
   volumeScore window = spec_loudnessScore window /\
   varianceScore window = spec_varianceScore window /\
   happyScore window = spec_happyScore window /\
   sadScore window = spec_sadScore window).
Proof.
  assert (H10 : 10 <= length (emotionSamplesRef nineTicks
                              ++ [sampleOf (Some rate) humFrame]))
    by (vm_compute; apply le_n).
  split; [exact nineTicks_recording|].
  split; [discriminate|].
  split; [exact H10|].
  apply (currentLabel_follows_formulas nineTicks humFrame rate);
    [exact nineTicks_recording|discriminate|exact H10].
Defined.

Lemma ingestFrame_features_witness :
  1 <= 1024 /\ frame_of_size 1024 humFrame /\ truthy rate = true /\
  first_maximum (dataArray humFrame) (maxIndexOf (dataArray humFrame)) /\
  extractSample (Some rate) humFrame
  = Normal (mkSample (spec_pitch (maxIndexOf (dataArray humFrame)) rate 1024)
                     (spec_loudness (timeDomainArray humFrame))
                     (spec_variance (map of_int (dataArray humFrame)))).
Proof.
  split; [lia|]. split; [exact humFrame_of_size|].
  split; [vm_compute; reflexivity|].
  apply (ingestFrame_features rate humFrame 1024);
    [lia|exact humFrame_of_size|vm_compute; reflexivity].
Defined.

Lemma window_is_last_hundred_witness :
  nonempty_frames humInputs /\
  let window := emotionSamplesRef humSession in
  length window <= 100 /\
  (100 < length humInputs ->
   length window = 100 /\
   window = skipn (length humInputs - 100) (samplesOf (Some rate) humInputs)).
Proof.
  split; [exact Sessions.humInputs_nonempty|].
  exact (window_is_last_hundred (mount (Some 1)) rate humInputs
                                Sessions.humInputs_nonempty).
Defined.

Lemma classification_precedes_eviction_witness :
  nonempty_frames (humPrefix ++ [humLast]) /\
  let before := ticks (startRecording (mount (Some 1)) (Some rate)) humPrefix in
  let after :=
    ticks (startRecording (mount (Some 1)) (Some rate)) (humPrefix ++ [humLast]) in
  let samples := emotionSamplesRef before ++ [sampleOf (Some rate) (snd humLast)] in
  10 <= length samples /\
  (detectedEmotion after = Some (classify samples) /\
   length samples <= 101 /\
   emotionSamplesRef after = slice_last 100 samples /\
   (length humPrefix = 100 ->
    samples = samplesOf (Some rate) (humPrefix ++ [humLast]))).
Proof.
  assert (H10 : 10 <= length
                  (emotionSamplesRef
                     (ticks (startRecording (mount (Some 1)) (Some rate)) humPrefix)
                   ++ [sampleOf (Some rate) (snd humLast)])).
  { rewrite length_app.
    destruct (ticks_window (mount (Some 1)) rate humPrefix) as [_ ->].
    - apply Forall_forall. intros i [<-|Hi]; [discriminate|].
      apply repeat_spec in Hi. subst i. discriminate.
    - rewrite slice_last_length, samplesOf_length. cbn [length]. simpl. lia. }
  split; [exact humPrefix_last_nonempty|].
  split; [exact H10|].
  exact (classification_precedes_eviction (mount (Some 1)) rate humPrefix humLast
           humPrefix_last_nonempty H10).
Defined.

Lemma label_is_deterministic_witness :
  map snd tenFrames = map snd tenFramesAgain /\
  nonempty_frames tenFrames /\ 10 <= length tenFrames /\
  detectedEmotion (ticks (startRecording (mount (Some 1)) (Some rate)) tenFrames)
  = Some happy /\
  detectedEmotion (ticks (startRecording (mount None) (Some rate)) tenFramesAgain)
  = Some happy.
Proof.
  assert (Hne : nonempty_frames tenFrames).
  { apply Forall_forall. intros i Hi. unfold tenFrames in Hi.
    apply repeat_spec in Hi. subst i. discriminate. }
  assert (Hlen : 10 <= length tenFrames) by (vm_compute; lia).
  split; [reflexivity|]. split; [exact Hne|]. split; [exact Hlen|].
  destruct (label_is_deterministic (Some 1) None rate tenFrames tenFramesAgain
              eq_refl) as [_ H].
  destruct (H Hne Hlen) as [H1 H2].
  assert (E : classify (slice_last 101 (samplesOf (Some rate) tenFrames)) = happy)
    by (vm_compute; reflexivity).
  rewrite E in H1, H2. split; [exact H1|exact H2].
Defined.

Lemma humSample_feature :
  F64Value.feature_sample (sampleOf (Some rate) humFrame).
Proof.
  unfold F64Value.feature_sample, F64Value.feature.
  split; [|split]; vm_compute; exact I.
Defined.

Lemma humWindow_features :
  Forall F64Value.feature_sample (repeat (sampleOf (Some rate) humFrame) 10).
Proof.
  apply Forall_forall. intros s Hs. apply repeat_spec in Hs. subst s.
  exact humSample_feature.
Defined.

Lemma humWindow_length :
  F64.array_length (length (repeat (sampleOf (Some rate) humFrame) 10)).
Proof.
  unfold F64.array_length. rewrite repeat_length. split; [lia|reflexivity].
Defined.

Lemma composite_scores_bounded_witness :
  let window := repeat (sampleOf (Some rate) humFrame) 10 in
  10 <= length window /\
  F64.array_length (length window) /\
  Forall F64Value.feature_sample window /\
  PrimFloat.leb 0 (happyScore window) = true /\
  PrimFloat.leb (happyScore window) 1 = true /\
  PrimFloat.leb 0 (sadScore window) = true /\
  PrimFloat.leb (sadScore window) 1 = true.
Proof.
  intros window.
  assert (H : 10 <= length window) by (unfold window; rewrite repeat_length; lia).
  split; [exact H|]. split; [exact humWindow_length|].
  split; [exact humWindow_features|].
  exact (ScoreBounds.composite_scores_bounded window H
           humWindow_length humWindow_features).
Defined.

End Instances.

(* ================================================================== *)
(** * Sessions: timer, interval and the saved row *)
(* ================================================================== *)

Section LifecycleFacts.

Context {J : JsNumber}.

(** What a tick of the interval leaves alone. *)
Lemma onInterval_frame (c : Component) (random : nat -> num) (fr : Frame) :
  user (onInterval c random fr) = user c /\
  recordingTime (onInterval c random fr) = recordingTime c /\
  length (waveformData (onInterval c random fr)) = length (waveformData c).
Proof.
  unfold onInterval, analyzeAudioEmotion.
  cbn [analyserRef audioContextRef emotionSamplesRef updateWaveform
       set_waveformData].
  assert (L : length (map (fun i => add (mul (random i) (lit 0.7)) (lit 0.3))
                          (seq 0 (length (waveformData c))))
              = length (waveformData c))
    by now rewrite length_map, length_seq.
  destruct (analyserRef c); [|repeat split; exact L].
  destruct (extractSample _ fr) as [s|e]; [|repeat split; exact L].
  destruct (10 <=? length (emotionSamplesRef c ++ [s])); repeat split; exact L.
Qed.

Lemma onTick_frame (c : Component) (t : Tick) :
  user (onTick c t) = user c /\
  mediaRecorderRef (onTick c t) = mediaRecorderRef c /\
  isRecording (onTick c t) = isRecording c /\
  length (waveformData (onTick c t)) = length (waveformData c).
Proof.
  destruct t as [random fr|]; [|repeat split].
  cbn [onTick].
  destruct (onInterval_frame c random fr) as (Hu & _ & Hw).
  destruct (onInterval_recorder c random fr) as (Hm & Hi).
  repeat split; assumption.
Qed.

Lemma run_frame (c : Component) (evs : list Tick) :
  user (fold_left onTick evs c) = user c /\
  mediaRecorderRef (fold_left onTick evs c) = mediaRecorderRef c /\
  isRecording (fold_left onTick evs c) = isRecording c /\
  length (waveformData (fold_left onTick evs c)) = length (waveformData c).
Proof.
  revert c. induction evs as [|t evs IH]; intros c; [repeat split|].
  cbn [fold_left]. destruct (IH (onTick c t)) as (E1 & E2 & E3 & E4).
  destruct (onTick_frame c t) as (F1 & F2 & F3 & F4).
  repeat split; congruence.
Qed.

(** The timer does not touch what the analysis reads and writes, and
    the analysis does not touch the time. *)
Lemma onTick_classifier_state (c c' : Component) (t : Tick) :
  classifier_state c = classifier_state c' ->
  classifier_state (onTick c t)
  = classifier_state (ticks c' (intervalInputs [t])).
Proof.
  intros E. destruct t as [random fr|].
  - cbn [intervalInputs ticks fold_left fst snd onTick].
    now apply onInterval_classifier_state.
  - exact E.
Qed.




(** The row of a session carries the label and the time that the
    component showed when the button was pressed to start. *)
Lemma runSession_row (c : Component) (s : Session) (row : NoteRow) :
  snd (runSession c s) = Some row ->
  user c = Some (user_id row) /\
  emotion row = match detectedEmotion c with Some e => e | None => neutral end /\
  duration row = recordingTime c /\
  saved s = true.
Proof.
  unfold runSession, saved. destruct (stream s) as [rate|]; [|discriminate].
  unfold stopAndSave, stopRecording.
  destruct (run_frame (startRecording c (Some rate)) (events s))
    as (_ & -> & -> & _).
  cbn [startRecording mediaRecorderRef isRecording].
  unfold run_onstop. cbn [onstop r_user r_detectedEmotion r_recordingTime].
  destruct (user c); [|discriminate].
  destruct (outcome s); try discriminate.
  cbn [snd]. intros E. injection E as <-. repeat split.
Qed.

(** A session of a logged-in user with a stream ends in a clean
    component, whatever the storage answered. *)
Lemma runSession_clean (c : Component) (s : Session) (u : UserId) :
  user c = Some u -> stream s <> None ->
  let c' := fst (runSession c s) in
  user c' = Some u /\ isRecording c' = false /\ recordingTime c' = 0%Z /\
  detectedEmotion c' = None /\ waveformData c' = repeat (lit 0.3) 20 /\
  analyserRef c' = None /\ audioContextRef c' = None /\
  (snd (runSession c s) <> None <-> saved s = true).
Proof.
  intros Hu Hs. unfold runSession, saved.
  destruct (stream s) as [rate|]; [|congruence].
  unfold stopAndSave, stopRecording.
  destruct (run_frame (startRecording c (Some rate)) (events s))
    as (Eu & -> & -> & _).
  cbn [startRecording mediaRecorderRef isRecording user] in *.
  unfold run_onstop. cbn [onstop r_user r_detectedEmotion r_recordingTime].
  rewrite Hu.
  destruct (outcome s); cbn [fst snd cleanup set_isRecording user isRecording
    recordingTime detectedEmotion waveformData analyserRef audioContextRef];
    rewrite ?Eu, ?Hu; repeat split; try congruence; try discriminate.
Qed.

Lemma runSession_no_stream (c : Component) (s : Session) :
  stream s = None -> runSession c s = (c, None).
Proof. unfold runSession. now intros ->. Qed.

(** Between the sessions of a logged-in user the component shows no
    label and the time 0:00. *)
Lemma runSession_between (c : Component) (s : Session) (u : UserId) :
  user c = Some u /\ recordingTime c = 0%Z /\ detectedEmotion c = None ->
  let c' := fst (runSession c s) in
  user c' = Some u /\ recordingTime c' = 0%Z /\ detectedEmotion c' = None.
Proof.
  intros (Hu & Ht & Hl). destruct (stream s) as [rate|] eqn:Es.
  - assert (Hs : stream s <> None) by congruence.
    pose proof (runSession_clean c s u Hu Hs) as H. cbv zeta in *. tauto.
  - rewrite (runSession_no_stream c s Es). cbn [fst]. tauto.
Qed.

Lemma runSession_saved (c : Component) (s : Session) (u : UserId) :
  user c = Some u ->
  (snd (runSession c s) <> None <-> saved s = true).
Proof.
  intros Hu. destruct (stream s) as [rate|] eqn:Es.
  - assert (Hs : stream s <> None) by congruence.
    apply (runSession_clean c s u Hu Hs).
  - rewrite (runSession_no_stream c s Es). unfold saved. rewrite Es.
    cbn [snd]. split; [congruence|discriminate].
Qed.

(** X2.  Whatever is recorded, every row that a logged-in user saves is
    tagged neutral and has the duration 0: the handler reads the
    label and the time of the render in which the recording was
    started, and those are the values left by the mount or by the
    cleanup of the recording before. *)
Theorem every_saved_row_is_neutral_and_empty (c : Component) (u : UserId)
        (ss : list Session) :
  user c = Some u -> recordingTime c = 0%Z -> detectedEmotion c = None ->
  Forall (fun row => user_id row = u /\ emotion row = neutral /\
                     duration row = 0%Z)
         (snd (runSessions c ss)).
Proof.
  revert c. induction ss as [|s ss IH]; intros c Hu Ht Hl; [constructor|].
  cbn [runSessions].
  destruct (runSession_between c s u (conj Hu (conj Ht Hl))) as (Hu1 & Ht1 & Hl1).
  pose proof (runSession_row c s) as Hrow.
  destruct (runSession c s) as [c1 row]. cbn [fst snd] in *.
  specialize (IH c1 Hu1 Ht1 Hl1).
  destruct (runSessions c1 ss) as [c2 rows]. cbn [snd] in *.
  destruct row as [row|]; [|exact IH].
  constructor; [|exact IH].
  destruct (Hrow row eq_refl) as (Hr1 & Hr2 & Hr3 & _).
  rewrite Hl in Hr2. rewrite Hu in Hr1. injection Hr1 as ->.
  repeat split; congruence.
Qed.

Lemma runSession_user (c : Component) (s : Session) :
  user (fst (runSession c s)) = user c.
Proof.
  unfold runSession. destruct (stream s) as [rate|]; [|reflexivity].
  unfold stopAndSave, stopRecording.
  destruct (run_frame (startRecording c (Some rate)) (events s))
    as (Eu & -> & -> & _).
  cbn [startRecording mediaRecorderRef isRecording user] in *.
  unfold run_onstop. cbn [onstop r_user].
  destruct (user c); [destruct (outcome s)|]; exact Eu.
Qed.

(** X3.  One row is inserted for each session of a logged-in user that got
    a stream and whose upload and insert succeeded, none for the
    others. *)
Theorem one_row_per_saved_session (c : Component) (u : UserId)
        (ss : list Session) :
  user c = Some u ->
  length (snd (runSessions c ss)) = length (filter saved ss).
Proof.
  revert c. induction ss as [|s ss IH]; intros c Hu; [reflexivity|].
  cbn [runSessions filter].
  pose proof (runSession_user c s) as Hu1. rewrite Hu in Hu1.
  pose proof (runSession_saved c s u Hu) as Hs.
  destruct (runSession c s) as [c1 row]. cbn [fst snd] in *.
  specialize (IH c1 Hu1).
  destruct (runSessions c1 ss) as [c2 rows]. cbn [snd] in *.
  destruct row as [row|].
  - replace (saved s) with true by (symmetry; apply Hs; discriminate).
    cbn [length]. now rewrite IH.
  - destruct (saved s); [exfalso; now apply Hs|exact IH].
Qed.

(** A logged-out user never inserts a row. *)
Lemma runSession_logged_out (c : Component) (s : Session) :
  user c = None -> snd (runSession c s) = None.
Proof.
  intros Hu. destruct (snd (runSession c s)) as [row|] eqn:E; [|reflexivity].
  destruct (runSession_row c s row E) as (H & _). congruence.
Qed.

(** X4.  A complete session of a logged-in user, that is one whose
    handler runs to its end before anything else happens, leaves the
    component, saved or not, with the time, the label and the
    waveform reset and the audio context released; the window of
    samples and the recorder are those the session had when it was
    stopped. *)
Theorem session_end_resets_recorder (c : Component) (u : UserId) (rate : num)
        (evs : list Tick) (out : StorageOutcome) :
  user c = Some u ->
  let running := fold_left onTick evs (startRecording c (Some rate)) in
  let c' := fst (runSession c (mkSession (Some rate) evs out)) in
  isRecording c' = false /\ recordingTime c' = 0%Z /\
  detectedEmotion c' = None /\ waveformData c' = repeat (lit 0.3) 20 /\
  analyserRef c' = None /\ audioContextRef c' = None /\
  emotionSamplesRef c' = emotionSamplesRef running /\
  mediaRecorderRef c' = mediaRecorderRef running.
Proof.
  intros Hu running c'.
  assert (Hs : stream (mkSession (Some rate) evs out) <> None) by discriminate.
  destruct (runSession_clean c _ u Hu Hs) as (_ & H1 & H2 & H3 & H4 & H5 & H6 & _).
  fold c' in H1, H2, H3, H4, H5, H6. repeat split; try assumption.
  - unfold c', runSession, stopAndSave, stopRecording. cbn [stream events outcome].
    fold running.
    destruct (run_frame (startRecording c (Some rate)) evs) as (Eu & Em & Ei & _).
    fold running in Eu, Em, Ei. rewrite Em, Ei.
    cbn [startRecording mediaRecorderRef isRecording user] in *.
    unfold run_onstop. cbn [onstop r_user]. rewrite Hu.
    destruct out; reflexivity.
  - unfold c', runSession, stopAndSave, stopRecording. cbn [stream events outcome].
    fold running.
    destruct (run_frame (startRecording c (Some rate)) evs) as (Eu & Em & Ei & _).
    fold running in Eu, Em, Ei. rewrite Em, Ei.
    cbn [startRecording mediaRecorderRef isRecording user] in *.
    unfold run_onstop. cbn [onstop r_user]. rewrite Hu.
    destruct out; cbn [fst cleanup mediaRecorderRef set_isRecording];
      rewrite Em, Hu; reflexivity.
Qed.

(** The waveform keeps its twenty bars. *)
Lemma runSession_bars (c : Component) (s : Session) :
  length (waveformData c) = 20 ->
  length (waveformData (fst (runSession c s))) = 20.
Proof.
  intros H. unfold runSession. destruct (stream s) as [rate|]; [|exact H].
  unfold stopAndSave, stopRecording.
  destruct (run_frame (startRecording c (Some rate)) (events s))
    as (_ & -> & -> & Ew).
  cbn [startRecording mediaRecorderRef isRecording waveformData] in *.
  unfold run_onstop. cbn [onstop r_user].
  destruct (user c); [destruct (outcome s)|];
    cbn [fst cleanup waveformData set_isRecording];
    rewrite ?repeat_length; congruence.
Qed.

(** X5.  Through any number of recordings, and at every moment of the
    next one, the waveform view has twenty bars. *)
Theorem waveform_has_twenty_bars (u : option UserId) (ss : list Session)
        (s : Session) :
  let c := fst (runSessions (mount u) ss) in
  length (waveformData (fold_left onTick (events s)
                                  (startRecording c (stream s)))) = 20.
Proof.
  cbv zeta.
  assert (H : forall c, length (waveformData c) = 20 ->
                        length (waveformData (fst (runSessions c ss))) = 20).
  { induction ss as [|s' ss IH]; intros c Hc; [exact Hc|].
    cbn [runSessions]. pose proof (runSession_bars c s' Hc) as H1.
    destruct (runSession c s') as [c1 row]. cbn [fst] in H1.
    specialize (IH c1 H1). now destruct (runSessions c1 ss). }
  destruct (run_frame (startRecording (fst (runSessions (mount u) ss)) (stream s))
                      (events s)) as (_ & _ & _ & ->).
  specialize (H (mount u) (repeat_length _ _)).
  destruct (stream s); exact H.
Qed.

(** ** Frames without bins *)

(** X6.  The analysis of a frame throws exactly when the frame has no
    bins ([reduce] of an empty array without an initial value).  The
    tick has then redrawn the waveform, and the window and the label
    are as before. *)
Theorem analysis_throws_on_empty_frame (c : Component) (random : nat -> num)
        (fr : Frame) :
  analyserRef c <> None ->
  (analyzeAudioEmotion c fr = Throw TypeError <-> dataArray fr = []) /\
  (dataArray fr = [] ->
   classifier_state (onInterval c random fr) = classifier_state c /\
   waveformData (onInterval c random fr)
   = waveformData (updateWaveform random c)).
Proof.
  intros Ha. split; [split|].
  - unfold analyzeAudioEmotion. destruct (analyserRef c); [|congruence].
    destruct (dataArray fr) as [|x rest] eqn:E; [reflexivity|].
    rewrite extractSample_Normal by congruence.
    destruct (10 <=? _); discriminate.
  - intros E. unfold analyzeAudioEmotion. destruct (analyserRef c); [|congruence].
    now rewrite (extractSample_Throw _ _ E).
  - intros E. unfold onInterval, analyzeAudioEmotion.
    cbn [analyserRef audioContextRef updateWaveform set_waveformData].
    destruct (analyserRef c); [|congruence].
    rewrite (extractSample_Throw _ _ E). split; reflexivity.
Qed.

(** ** A handler that finishes late *)




End LifecycleFacts.

(* ================================================================== *)
(** * Texts: numerals, digits and padding *)
(* ================================================================== *)

Module TextFacts.

Import String Text.
Local Open Scope string_scope.

Lemma length_append (s t : string) : length (s ++ t) = (length s + length t)%nat.
Proof. induction s as [|a s IH]; cbn; [reflexivity|now rewrite IH]. Qed.

(** Two texts that end in tails of the same length agree on both
    parts. *)
Lemma append_inj (s1 s2 t1 t2 : string) :
  length t1 = length t2 -> s1 ++ t1 = s2 ++ t2 -> s1 = s2 /\ t1 = t2.
Proof.
  revert s2. induction s1 as [|a s1 IH]; intros [|b s2] L E; cbn in E.
  - now split.
  - exfalso. apply (f_equal length) in E. cbn in E. rewrite length_append in E. lia.
  - exfalso. apply (f_equal length) in E. cbn in E. rewrite length_append in E. lia.
  - injection E as -> E. destruct (IH s2 L E) as [-> ->]. now split.
Qed.

(** Different integers print differently. *)
Lemma decimal_inj (x y : Z) : decimal x = decimal y -> x = y.
Proof.
  unfold decimal. intros E.
  assert (N : forall z, Z.to_int z <> Decimal.Pos Decimal.Nil
                        /\ Z.to_int z <> Decimal.Neg Decimal.Nil).
  { intros [|p|p]; cbn; split; try discriminate; intros H; injection H;
      apply DecimalPos.Unsigned.to_uint_nonnil. }
  apply (f_equal DecimalString.NilZero.int_of_string) in E.
  rewrite !DecimalString.NilZero.isi in E by apply N.
  injection E as E. apply (f_equal Z.of_int) in E.
  now rewrite !DecimalZ.of_to in E.
Qed.

(** The seconds below sixty, as [padStart] leaves them. *)
Lemma padded_seconds (k : Z) :
  (0 <= k < 60)%Z ->
  padStart (decimal k) 2 "0"
  = String (digit (k / 10)) (String (digit (k mod 10)) "").
Proof.
  intros H.
  assert (A : forallb (fun n => let k := Z.of_nat n in
                         padStart (decimal k) 2 "0"
                         =? String (digit (k / 10)) (String (digit (k mod 10)) ""))
                      (seq 0 60) = true) by (vm_compute; reflexivity).
  rewrite forallb_forall in A. specialize (A (Z.to_nat k)).
  cbv zeta in A. rewrite Z2Nat.id in A by lia.
  apply String.eqb_eq, A, in_seq. lia.
Qed.

Lemma digit_inj (a b : Z) :
  (0 <= a < 10)%Z -> (0 <= b < 10)%Z -> digit a = digit b -> a = b.
Proof.
  intros Ha Hb E. unfold digit in E. apply (f_equal Ascii.nat_of_ascii) in E.
  rewrite !Ascii.nat_ascii_embedding in E by lia. lia.
Qed.

End TextFacts.

(* ================================================================== *)
(** * The list of notes *)
(* ================================================================== *)

Module NotesFacts.

Import String Notes.
Local Open Scope string_scope.
Local Open Scope list_scope.

Lemma filter_other_ids (notes : list VoiceNote) (noteId : string) :
  ~ In noteId (map id notes) ->
  filter (fun note => negb (id note =? noteId)) notes = notes.
Proof.
  induction notes as [|n notes IH]; intros H; [reflexivity|].
  cbn [filter map In] in *.
  destruct (String.eqb_spec (id n) noteId) as [E|E]; [tauto|].
  cbn [negb]. rewrite IH; tauto.
Qed.

Lemma find_unknown_id (notes : list VoiceNote) (noteId : string) :
  ~ In noteId (map id notes) ->
  find (fun note => id note =? noteId) notes = None.
Proof.
  induction notes as [|n notes IH]; intros H; [reflexivity|].
  cbn [find map In] in *.
  destruct (String.eqb_spec (id n) noteId) as [E|E]; [tauto|]. apply IH. tauto.
Qed.

Lemma find_known_id (notes : list VoiceNote) (noteId : string) :
  In noteId (map id notes) ->
  find (fun note => id note =? noteId) notes <> None.
Proof.
  induction notes as [|n notes IH]; intros H; [contradiction|].
  cbn [find map In] in *.
  destruct (String.eqb_spec (id n) noteId) as [E|E]; [discriminate|].
  apply IH. tauto.
Qed.

(** X10.  Creating a note under a new id and deleting it again gives the
    list back, with one delete request sent for that id. *)
Theorem delete_undoes_create (note : VoiceNote) (notes : list VoiceNote) :
  ~ In (id note) (map id notes) ->
  let created := fst (handleNoteCreated note notes) in
  fst (handleDeleteNote created (id note) false) = (notes, Some (id note)).
Proof.
  intros H. cbn [handleNoteCreated fst]. unfold handleDeleteNote.
  cbn [find filter]. rewrite String.eqb_refl. cbn [negb fst].
  now rewrite filter_other_ids.
Qed.

(** X11.  With ids that are all different, a delete that the backend accepts
    takes exactly that note out and leaves the others in their
    order. *)
Theorem delete_removes_that_note (before after : list VoiceNote)
        (note : VoiceNote) :
  NoDup (map id (before ++ note :: after)) ->
  fst (fst (handleDeleteNote (before ++ note :: after) (id note) false))
  = before ++ after.
Proof.
  intros H. rewrite map_app in H. cbn [map] in H.
  pose proof (NoDup_remove_2 _ _ _ H) as Hn.
  rewrite in_app_iff in Hn.
  unfold handleDeleteNote.
  destruct (find _ (before ++ note :: after)) eqn:F.
  - cbn [fst]. rewrite filter_app. cbn [filter]. rewrite String.eqb_refl.
    cbn [negb]. rewrite !filter_other_ids by tauto. reflexivity.
  - exfalso. revert F. apply find_known_id. rewrite map_app, in_app_iff.
    right. now left.
Qed.

(** X12.  The list changes only through a delete request that was sent and
    accepted; a request is sent only for an id that is in the
    list. *)
Theorem delete_keeps_the_list_otherwise (notes : list VoiceNote)
        (noteId : string) (error : bool) :
  let result := handleDeleteNote notes noteId error in
  (snd (fst result) <> None <-> In noteId (map id notes)) /\
  (error = true \/ ~ In noteId (map id notes) -> fst (fst result) = notes).
Proof.
  cbv zeta. unfold handleDeleteNote. split; [split|].
  - intros H. destruct (in_dec string_dec noteId (map id notes)) as [I|I];
      [exact I|]. rewrite (find_unknown_id _ _ I) in H. now elim H.
  - intros I. pose proof (find_known_id _ _ I) as F.
    destruct (find _ notes); [|congruence]. now destruct error.
  - intros [->|I].
    + now destruct (find _ notes).
    + now rewrite (find_unknown_id _ _ I).
Qed.

(** ** From the recorder to the list *)

(** X13.  A recording that is saved puts one note at the head of the list,
    first in the preview of recent notes; its emotion and duration
    are the label and the time shown when the recording was started.
    A recording whose upload or insert fails leaves the list as it
    was. *)
Theorem saved_recording_heads_the_list {J : JsNumber} (c : Component)
        (u : UserId) (rate : num) (evs : list Tick) (out : StorageOutcome)
        (noteData : NoteData) (signedUrl : option string)
        (notes : list VoiceNote) :
  user c = Some u ->
  let running := fold_left onTick evs (startRecording c (Some rate)) in
  let notes' := snd (finishRecording running out noteData signedUrl notes) in
  match out with
  | Saved =>
      exists note,
        notes' = note :: notes /\ hd_error (recentNotes notes') = Some note /\
        id note = data_id noteData /\
        emotion note
        = match detectedEmotion c with Some e => e | None => neutral end /\
        duration note = recordingTime c
  | UploadError | DbError => notes' = notes
  end.
Proof.
  intros Hu running notes'. unfold notes', finishRecording.
  pose proof (runSession_row c (mkSession (Some rate) evs out)) as Hrow.
  pose proof (runSession_saved c (mkSession (Some rate) evs out) u Hu) as Hs.
  unfold runSession in Hrow, Hs. cbn [stream events outcome] in Hrow, Hs.
  fold running in Hrow, Hs.
  destruct (stopAndSave running out) as [c' [row|]]; cbn [snd] in *.
  - destruct (Hrow row eq_refl) as (_ & He & Hd & Hsv).
    unfold saved in Hsv. cbn [stream outcome] in Hsv.
    destruct out; try discriminate.
    eexists. split; [reflexivity|]. split; [reflexivity|].
    destruct row as [u' e d]. cbn in He, Hd |- *. repeat split; assumption.
  - destruct out; try reflexivity.
    exfalso. assert (E : @None NoteRow <> None) by (apply Hs; reflexivity).
    now apply E.
Qed.

(** ** The filter *)

Section FilterFacts.

Variable toLowerCase : string -> string.

Lemma includes_empty (s : string) : Text.includes s "" = true.
Proof. destruct s; reflexivity. Qed.

(** X14.  With no search term and the filter on All, the list shows every
    note. *)
Theorem no_filter_shows_every_note (notes : list VoiceNote) :
  toLowerCase "" = "" ->
  filteredNotes toLowerCase notes "" all = notes.
Proof.
  intros H. unfold filteredNotes, matches. rewrite H.
  induction notes as [|n notes IH]; [reflexivity|].
  cbn [filter]. rewrite includes_empty. cbn [andb]. now rewrite IH.
Qed.

(** X15.  Each note that matches the search term is listed under exactly
    one of the three emotions: the three filtered lists together are
    as long as the list under All. *)
Theorem emotion_filters_split_the_list (notes : list VoiceNote)
        (searchTerm : string) :
  List.length (filteredNotes toLowerCase notes searchTerm all)
  = List.length (filteredNotes toLowerCase notes searchTerm (only happy))
    + List.length (filteredNotes toLowerCase notes searchTerm (only neutral))
    + List.length (filteredNotes toLowerCase notes searchTerm (only sad)).
Proof.
  unfold filteredNotes, matches.
  induction notes as [|n notes IH]; [reflexivity|].
  cbn [filter].
  destruct (Text.includes _ _); cbn [andb]; [|exact IH].
  destruct (emotion n);
    repeat match goal with
           | |- context [emotion_eqb ?a ?b] =>
               is_constructor a; is_constructor b;
               let v := eval vm_compute in (emotion_eqb a b) in
               change (emotion_eqb a b) with v
           end; cbn [List.length]; rewrite IH; lia.
Qed.

End FilterFacts.

(** ** The distribution chart *)

Lemma increment_sum (acc : Totals) (e : EmotionType) :
  (increment acc e happy + increment acc e neutral + increment acc e sad
   = acc happy + acc neutral + acc sad + 1)%Z.
Proof.
  unfold increment.
  destruct e; repeat (destruct (EmotionType_eq_dec _ _); try congruence); lia.
Qed.

Lemma totals_from (acc : Totals) (notes : list VoiceNote) :
  let t := fold_left (fun acc note => increment acc (emotion note)) notes acc in
  (t happy + t neutral + t sad
   = acc happy + acc neutral + acc sad + Z.of_nat (List.length notes))%Z /\
  (forall e, acc e <= t e)%Z.
Proof.
  revert acc. induction notes as [|n notes IH]; intros acc; cbn [fold_left List.length].
  - split; [lia|intros; lia].
  - destruct (IH (increment acc (emotion n))) as [S M]. split.
    + rewrite S, increment_sum. lia.
    + intros e. specialize (M e). unfold increment in M at 1.
      destruct (EmotionType_eq_dec e (emotion n)); lia.
Qed.

Lemma totals_nonneg (notes : list VoiceNote) (e : EmotionType) :
  (0 <= totals notes e)%Z.
Proof. apply (totals_from (fun _ => 0%Z) notes). Qed.

(** X16.  The slices of the pie add up to the number of notes, and every
    slice shown counts at least one note. *)
Theorem pie_slices_count_the_notes (notes : list VoiceNote) :
  fold_right Z.add 0%Z (map value (pieData notes)) = Z.of_nat (List.length notes) /\
  Forall (fun item => (0 < value item)%Z) (pieData notes).
Proof.
  unfold pieData. split.
  - destruct (totals_from (fun _ => 0%Z) notes) as [S _]. fold (totals notes) in S.
    pose proof (totals_nonneg notes happy).
    pose proof (totals_nonneg notes neutral).
    pose proof (totals_nonneg notes sad).
    cbn [filter value].
    destruct (Z.ltb_spec 0 (totals notes happy));
      destruct (Z.ltb_spec 0 (totals notes neutral));
      destruct (Z.ltb_spec 0 (totals notes sad)); cbn [map fold_right value]; lia.
  - apply Forall_forall. intros item H. apply filter_In in H.
    now apply Z.ltb_lt.
Qed.

(** X17.  The pie has no slice exactly when there is no note. *)
Theorem pie_is_empty_without_notes (notes : list VoiceNote) :
  pieData notes = [] <-> notes = [].
Proof.
  split.
  - intros E. destruct (totals_from (fun _ => 0%Z) notes) as [S _].
    fold (totals notes) in S. unfold pieData in E. cbn [filter value] in E.
    destruct (Z.ltb_spec 0 (totals notes happy)); [discriminate|].
    destruct (Z.ltb_spec 0 (totals notes neutral)); [discriminate|].
    destruct (Z.ltb_spec 0 (totals notes sad)); [discriminate|].
    pose proof (totals_nonneg notes happy).
    pose proof (totals_nonneg notes neutral).
    pose proof (totals_nonneg notes sad).
    destruct notes; [reflexivity|]. cbn [List.length] in S. lia.
  - intros ->. reflexivity.
Qed.

End NotesFacts.

(* ================================================================== *)
(** * Searching the list *)
(* ================================================================== *)

Module SearchFacts.

Import String Notes.
Local Open Scope string_scope.
Local Open Scope list_scope.

Lemma append_assoc (a b c : string) : ((a ++ b) ++ c = a ++ (b ++ c))%string.
Proof. induction a as [|x a IH]; cbn; [reflexivity|now rewrite IH]. Qed.

Lemma prefix_iff (sub s : string) :
  prefix sub s = true <-> exists post, s = (sub ++ post)%string.
Proof.
  revert s. induction sub as [|a sub IH]; intros s.
  - split; [intros _; now exists s|intros _; now destruct s].
  - destruct s as [|b s]; cbn.
    + split; [discriminate|intros (post & H); discriminate].
    + destruct (Ascii.ascii_dec a b) as [->|Ne].
      * rewrite IH. split; intros (post & H); exists post; [now rewrite H|].
        now injection H.
      * split; [discriminate|]. intros (post & H). injection H as H _. congruence.
Qed.

(** [includes] finds [sub] somewhere in [s]. *)
Lemma includes_iff (s sub : string) :
  Text.includes s sub = true
  <-> exists pre post, s = (pre ++ sub ++ post)%string.
Proof.
  induction s as [|a s IH]; cbn [Text.includes].
  - rewrite orb_false_r, prefix_iff. split.
    + intros (post & H). now exists "", post.
    + intros (pre & post & H). destruct pre; [now exists post|discriminate].
  - rewrite orb_true_iff, prefix_iff, IH. split.
    + intros [(post & H)|(pre & post & H)].
      * now exists "", post.
      * exists (String a pre), post. cbn. now rewrite H.
    + intros (pre & post & H). destruct pre as [|b pre].
      * left. now exists post.
      * right. cbn in H. injection H as _ H. now exists pre, post.
Qed.

Lemma includes_trans (a b c : string) :
  Text.includes a b = true -> Text.includes b c = true ->
  Text.includes a c = true.
Proof.
  rewrite !includes_iff. intros (p1 & q1 & ->) (p2 & q2 & ->).
  exists (p1 ++ p2)%string, (q2 ++ q1)%string.
  now rewrite !append_assoc.
Qed.

Section Search.

Variable toLowerCase : string -> string.

(** X18.  Refining the search narrows the list: when the new term, in lower
    case, contains the old one, every note listed for the new term
    was listed for the old one. *)
Theorem refined_search_narrows (notes : list VoiceNote)
        (oldTerm newTerm : string) (selectedEmotion : EmotionFilter) :
  Text.includes (toLowerCase newTerm) (toLowerCase oldTerm) = true ->
  incl (filteredNotes toLowerCase notes newTerm selectedEmotion)
       (filteredNotes toLowerCase notes oldTerm selectedEmotion).
Proof.
  intros H note Hin. unfold filteredNotes in *.
  apply filter_In in Hin. destruct Hin as [Hin Hm]. apply filter_In.
  split; [exact Hin|]. unfold matches in *.
  apply andb_true_iff in Hm. destruct Hm as [Hs He].
  apply andb_true_iff. split; [|exact He].
  now apply (includes_trans _ (toLowerCase newTerm)).
Qed.

End Search.

End SearchFacts.

(* ================================================================== *)
(** * Decisions of the classifier on binary64 *)
(* ================================================================== *)

Module Decisions.

Import F64Value Rounding Signs ScoreBounds.
Local Open Scope R_scope.

Lemma ltb_of_value_lt (x y : float) :
  nonneg (Prim2SF x) -> nonneg (Prim2SF y) ->
  value (Prim2SF x) < value (Prim2SF y) -> (x <? y)%float = true.
Proof.
  intros Nx Ny H. rewrite FloatAxioms.ltb_spec. unfold SFltb.
  pose proof (compare_nonneg _ _ (Prim2SF_valid x) (Prim2SF_valid y) Nx Ny) as C.
  destruct (SFcompare (Prim2SF x) (Prim2SF y)) as [[| |]|];
    try reflexivity; try contradiction; lra.
Qed.

Lemma ltb_of_value_le (x y : float) :
  nonneg (Prim2SF x) -> nonneg (Prim2SF y) ->
  value (Prim2SF y) <= value (Prim2SF x) -> (x <? y)%float = false.
Proof.
  intros Nx Ny H. rewrite FloatAxioms.ltb_spec. unfold SFltb.
  pose proof (compare_nonneg _ _ (Prim2SF_valid x) (Prim2SF_valid y) Nx Ny) as C.
  destruct (SFcompare (Prim2SF x) (Prim2SF y)) as [[| |]|];
    try reflexivity; try contradiction; lra.
Qed.

(** A score under a knee. *)
Lemma below_knee (s k : float) :
  below s (value (Prim2SF 1)) -> positive_float k ->
  (s <? k)%float = true -> below s (value (Prim2SF k)).
Proof.
  intros [N _] Hk E. split; [exact N|]. apply Rlt_le.
  apply ltb_true_value; [exact N|now apply nonneg_constant|exact E].
Qed.

(** [(1 - s) * c * w] for a score above a knee. *)
Lemma falling_term (s k c w B1 B2 B3 : float) :
  below s (value (Prim2SF 1)) -> positive_float k -> (k <? s)%float = true ->
  normal c -> normal w ->
  positive_float B1 -> positive_float B2 -> positive_float B3 ->
  value (Prim2SF 1) - value (Prim2SF k) <= value (Prim2SF B1) ->
  value (Prim2SF B1) * value (Prim2SF c) <= value (Prim2SF B2) ->
  value (Prim2SF B2) * value (Prim2SF w) <= value (Prim2SF B3) ->
  below ((1 - s) * c * w)%float (value (Prim2SF B3)).
Proof.
  intros Hs Hk E Hc Hw H1 H2 H3 L1 L2 L3.
  apply (mul_below _ w B3 (value (Prim2SF B2))); try assumption.
  apply (mul_below _ c B2 (value (Prim2SF B1))); try assumption.
  apply (sub_below 1 s B1 (value (Prim2SF k))); try assumption; [constant|].
  apply Rlt_le, ltb_true_value; [now apply nonneg_constant|apply Hs|exact E].
Qed.

(** [s * c * w] for a score under a knee. *)
Lemma rising_term (s k c w B2 B3 : float) :
  below s (value (Prim2SF k)) -> normal c -> normal w ->
  positive_float B2 -> positive_float B3 ->
  value (Prim2SF k) * value (Prim2SF c) <= value (Prim2SF B2) ->
  value (Prim2SF B2) * value (Prim2SF w) <= value (Prim2SF B3) ->
  below (s * c * w)%float (value (Prim2SF B3)).
Proof.
  intros Hs Hc Hw H2 H3 L2 L3.
  apply (mul_below _ w B3 (value (Prim2SF B2))); try assumption.
  apply (mul_below _ c B2 (value (Prim2SF k))); assumption.
Qed.

Lemma knee_not_under (s k k' : float) :
  below s (value (Prim2SF 1)) -> positive_float k -> positive_float k' ->
  (k <? s)%float = true -> value (Prim2SF k') <= value (Prim2SF k) ->
  (s <? k')%float = false.
Proof.
  intros [N _] Hk Hk' E L.
  apply ltb_of_value_le; [exact N|now apply nonneg_constant|].
  pose proof (ltb_true_value k s (nonneg_constant _ Hk) N E). lra.
Qed.

Lemma knee_not_over (s k k' : float) :
  below s (value (Prim2SF 1)) -> positive_float k -> positive_float k' ->
  (s <? k)%float = true -> value (Prim2SF k) <= value (Prim2SF k') ->
  (k' <? s)%float = false.
Proof.
  intros [N _] Hk Hk' E L.
  apply ltb_of_value_le; [now apply nonneg_constant|exact N|].
  pose proof (ltb_true_value s k N (nonneg_constant _ Hk) E). lra.
Qed.

(** All three scores past their upper knees: happyScore is 1, sadScore
    stays under 0.875, and the first branch of the decision fires. *)
Lemma decide_happy (p v x : @num Float64) :
  below p (value (Prim2SF 1)) -> below v (value (Prim2SF 1)) ->
  below x (value (Prim2SF 1)) ->
  lt (lit 0.5) p = true -> lt (lit 0.6) v = true -> lt (lit 0.4) x = true ->
  happyScoreOf p v x = 1%float /\
  decideEmotion (happyScoreOf p v x) (sadScoreOf p v x) = happy.
Proof.
  intros Hp Hv Hx Ep Ev Ex. revert Ep Ev Ex. literals. intros Ep Ev Ex.
  assert (Eh : happyScoreOf p v x = 1%float).
  { unfold happyScoreOf. literals. rewrite Ep, Ev, Ex. vm_compute. reflexivity. }
  assert (Bs : below (sadScoreOf p v x) (value (Prim2SF 0.875))).
  { unfold sadScoreOf. literals.
    rewrite (knee_not_under p 0.5 0.4 Hp) by (first [constant|exact Ep|dyadic]).
    rewrite (knee_not_under v 0.6 0.5 Hv) by (first [constant|exact Ev|dyadic]).
    rewrite (knee_not_under x 0.4 0.35 Hx) by (first [constant|exact Ex|dyadic]).
    apply (add_below _ _ 0.875 (value (Prim2SF 0.625)) (value (Prim2SF 0.25)));
      [| |constant|dyadic].
    - apply (add_below _ _ 0.625 (value (Prim2SF 0.3)) (value (Prim2SF 0.3)));
        [| |constant|dyadic].
      + apply (falling_term p 0.5 1.5 0.35 0.5 0.75 0.3);
          first [exact Hp|exact Ep|constant|dyadic].
      + apply (falling_term v 0.6 1.2 0.4 0.5 0.625 0.3);
          first [exact Hv|exact Ev|constant|dyadic].
    - apply (falling_term x 0.4 1.3 0.25 0.625 0.875 0.25);
        first [exact Hx|exact Ex|constant|dyadic]. }
  split; [exact Eh|].
  unfold decideEmotion. rewrite Eh. literals.
  assert (B1 : below (sadScoreOf p v x + 0.1)%float (value (Prim2SF 0.984375))).
  { apply (add_below _ _ 0.984375 (value (Prim2SF 0.875)) (value (Prim2SF 0.1)));
      [exact Bs| |constant|dyadic].
    split; [vm_compute; exact I|lra]. }
  replace ((sadScoreOf p v x + 0.1 <? 1)%float) with true.
  - vm_compute. reflexivity.
  - symmetry. apply ltb_of_value_lt; [apply B1|vm_compute; exact I|].
    destruct B1 as [_ B1]. apply Rle_lt_trans with (1 := B1). dyadic.
Qed.

(** All three scores under their lower knees: sadScore is 1, happyScore
    stays under 0.6875, and the second branch of the decision fires. *)
Lemma decide_sad (p v x : @num Float64) :
  below p (value (Prim2SF 1)) -> below v (value (Prim2SF 1)) ->
  below x (value (Prim2SF 1)) ->
  lt p (lit 0.4) = true -> lt v (lit 0.5) = true -> lt x (lit 0.35) = true ->
  sadScoreOf p v x = 1%float /\
  decideEmotion (happyScoreOf p v x) (sadScoreOf p v x) = sad.
Proof.
  intros Hp Hv Hx Ep Ev Ex. revert Ep Ev Ex. literals. intros Ep Ev Ex.
  assert (Es : sadScoreOf p v x = 1%float).
  { unfold sadScoreOf. literals. rewrite Ep, Ev, Ex. vm_compute. reflexivity. }
  assert (Bh : below (happyScoreOf p v x) (value (Prim2SF 0.6875))).
  { unfold happyScoreOf. literals.
    rewrite (knee_not_over p 0.4 0.5 Hp) by (first [constant|exact Ep|dyadic]).
    rewrite (knee_not_over v 0.5 0.6 Hv) by (first [constant|exact Ev|dyadic]).
    rewrite (knee_not_over x 0.35 0.4 Hx) by (first [constant|exact Ex|dyadic]).
    apply (add_below _ _ 0.6875 (value (Prim2SF 0.5)) (value (Prim2SF 0.1875)));
      [| |constant|dyadic].
    - apply (add_below _ _ 0.5 (value (Prim2SF 0.3125)) (value (Prim2SF 0.1875)));
        [| |constant|dyadic].
      + apply (rising_term p 0.4 2 0.35 0.875 0.3125);
          first [apply below_knee; [exact Hp|constant|exact Ep]|constant|dyadic].
      + apply (mul_below v 0.35 0.1875 (value (Prim2SF 0.5)));
          first [apply below_knee; [exact Hv|constant|exact Ev]|constant|dyadic].
    - apply (rising_term x 0.35 1.5 0.3 0.5625 0.1875);
        first [apply below_knee; [exact Hx|constant|exact Ex]|constant|dyadic]. }
  split; [exact Es|].
  unfold decideEmotion. rewrite Es. literals.
  assert (B1 : below (happyScoreOf p v x + 0.1)%float (value (Prim2SF 0.8125))).
  { apply (add_below _ _ 0.8125 (value (Prim2SF 0.6875)) (value (Prim2SF 0.1)));
      [exact Bh| |constant|dyadic].
    split; [vm_compute; exact I|lra]. }
  replace ((1 + 0.1 <? happyScoreOf p v x)%float) with false.
  - rewrite andb_false_r.
    replace ((happyScoreOf p v x + 0.1 <? 1)%float) with true.
    + vm_compute. reflexivity.
    + symmetry. apply ltb_of_value_lt; [apply B1|vm_compute; exact I|].
      destruct B1 as [_ B1]. apply Rle_lt_trans with (1 := B1). dyadic.
  - symmetry. apply ltb_of_value_le; [vm_compute; exact I|apply Bh|].
    destruct Bh as [_ Bh]. apply Rle_trans with (1 := Bh). dyadic.
Qed.

Lemma window_scores_below (samples : list (Sample (J := Float64))) :
  F64.array_length (length samples) -> Forall feature_sample samples ->
  below (pitchScore samples) (value (Prim2SF 1)) /\
  below (volumeScore samples) (value (Prim2SF 1)) /\
  below (varianceScore samples) (value (Prim2SF 1)).
Proof.
  intros Hlen Hs. rewrite Forall_forall in Hs. split; [|split].
  - apply pitchScoreOf_below, average_feature; [exact Hlen|].
    intros s Hin. apply (Hs s Hin).
  - apply volumeScoreOf_below, average_feature; [exact Hlen|].
    intros s Hin. apply (Hs s Hin).
  - apply varianceScoreOf_below, average_feature; [exact Hlen|].
    intros s Hin. apply (Hs s Hin).
Qed.

(** X19.  A window whose three scores are past the upper knees (pitch score
    above 0.5, volume score above 0.6, variance score above 0.4) has
    the happy score 1 and is classified happy. *)
Theorem confident_window_is_happy (samples : list (Sample (J := Float64))) :
  F64.array_length (length samples) -> Forall feature_sample samples ->
  lt (lit 0.5) (pitchScore samples) = true ->
  lt (lit 0.6) (volumeScore samples) = true ->
  lt (lit 0.4) (varianceScore samples) = true ->
  happyScore samples = 1%float /\ classify samples = happy.
Proof.
  intros Hlen Hs Ep Ev Ex.
  destruct (window_scores_below samples Hlen Hs) as (Hp & Hv & Hx).
  exact (decide_happy _ _ _ Hp Hv Hx Ep Ev Ex).
Qed.

(** X20.  A window whose three scores are under the lower knees (pitch score
    below 0.4, volume score below 0.5, variance score below 0.35) has
    the sad score 1 and is classified sad. *)
Theorem subdued_window_is_sad (samples : list (Sample (J := Float64))) :
  F64.array_length (length samples) -> Forall feature_sample samples ->
  lt (pitchScore samples) (lit 0.4) = true ->
  lt (volumeScore samples) (lit 0.5) = true ->
  lt (varianceScore samples) (lit 0.35) = true ->
  sadScore samples = 1%float /\ classify samples = sad.
Proof.
  intros Hlen Hs Ep Ev Ex.
  destruct (window_scores_below samples Hlen Hs) as (Hp & Hv & Hx).
  exact (decide_sad _ _ _ Hp Hv Hx Ep Ev Ex).
Qed.

End Decisions.

(* ================================================================== *)
(** * NaN in the audio data *)
(* ================================================================== *)

Module NotANumber.

Import F64Value.

Lemma is_nan_true (x : float) : F64.is_nan x = true <-> Prim2SF x = S754_nan.
Proof.
  pose proof (ScoreBounds.is_nan_number x) as H. unfold number in H.
  destruct (F64.is_nan x); split; try discriminate; try reflexivity.
  - intros _. destruct (Prim2SF x); try reflexivity;
      exfalso; assert (E : true = false) by (apply H; discriminate); discriminate.
  - intros E. exfalso. now apply (proj1 H).
Qed.

Lemma add_nan_l (x y : float) :
  F64.is_nan x = true -> F64.is_nan (x + y)%float = true.
Proof.
  rewrite !is_nan_true, FloatAxioms.add_spec. intros ->. reflexivity.
Qed.

Lemma add_nan_r (x y : float) :
  F64.is_nan y = true -> F64.is_nan (x + y)%float = true.
Proof.
  rewrite !is_nan_true, FloatAxioms.add_spec. intros ->.
  destruct (Prim2SF x) as [s|s| |s m e]; reflexivity.
Qed.

Lemma sub_nan_l (x y : float) :
  F64.is_nan x = true -> F64.is_nan (x - y)%float = true.
Proof.
  rewrite !is_nan_true, FloatAxioms.sub_spec. intros ->. reflexivity.
Qed.

Lemma sub_nan_r (x y : float) :
  F64.is_nan y = true -> F64.is_nan (x - y)%float = true.
Proof.
  rewrite !is_nan_true, FloatAxioms.sub_spec. intros ->.
  destruct (Prim2SF x) as [s|s| |s m e]; reflexivity.
Qed.

Lemma mul_nan_l (x y : float) :
  F64.is_nan x = true -> F64.is_nan (x * y)%float = true.
Proof.
  rewrite !is_nan_true, FloatAxioms.mul_spec. intros ->. reflexivity.
Qed.

Lemma div_nan_l (x y : float) :
  F64.is_nan x = true -> F64.is_nan (x / y)%float = true.
Proof.
  rewrite !is_nan_true, FloatAxioms.div_spec. intros ->. reflexivity.
Qed.

Lemma sqrt_nan (x : float) :
  F64.is_nan x = true -> F64.is_nan (PrimFloat.sqrt x) = true.
Proof.
  rewrite !is_nan_true, FloatAxioms.sqrt_spec. intros ->. reflexivity.
Qed.

Lemma abs_nan (x : float) :
  F64.is_nan x = true -> F64.is_nan (PrimFloat.abs x) = true.
Proof.
  rewrite !is_nan_true, FloatAxioms.abs_spec. intros ->. reflexivity.
Qed.

Lemma ltb_nan_l (x y : float) : F64.is_nan x = true -> (x <? y)%float = false.
Proof.
  rewrite is_nan_true, FloatAxioms.ltb_spec. intros ->. reflexivity.
Qed.

Lemma ltb_nan_r (x y : float) : F64.is_nan y = true -> (x <? y)%float = false.
Proof.
  rewrite is_nan_true, FloatAxioms.ltb_spec. intros ->.
  destruct (Prim2SF x) as [s|s| |s m e]; reflexivity.
Qed.

Lemma clamp_nan (y : float) :
  F64.is_nan y = true -> F64.is_nan (F64.min (F64.max y 0) 1) = true.
Proof.
  intros H. unfold F64.max. rewrite H. cbn [orb].
  unfold F64.min. change (F64.is_nan nan) with true. reflexivity.
Qed.

(** A sum that meets a NaN is NaN from then on. *)
Lemma fold_nan_acc {A : Type} (g : A -> @num Float64) (l : list A)
      (a : @num Float64) :
  F64.is_nan a = true ->
  F64.is_nan (fold_left (fun sum s => add sum (g s)) l a) = true.
Proof.
  revert a. induction l as [|x l IH]; intros a H; [exact H|].
  cbn [fold_left]. apply IH. now apply add_nan_l.
Qed.

Lemma fold_nan {A : Type} (g : A -> @num Float64) (l : list A)
      (a : @num Float64) :
  Exists (fun s => F64.is_nan (g s) = true) l ->
  F64.is_nan (fold_left (fun sum s => add sum (g s)) l a) = true.
Proof.
  intros H. revert a. induction H as [x l H|x l H IH]; intros a; cbn [fold_left].
  - apply fold_nan_acc. now apply add_nan_r.
  - apply IH.
Qed.

Lemma average_nan (f : Sample -> @num Float64) (w : list Sample) :
  Exists (fun s => F64.is_nan (f s) = true) w ->
  F64.is_nan (average f w) = true.
Proof. intros H. unfold average. apply div_nan_l. now apply fold_nan. Qed.

Lemma happyScoreOf_nan (p v x : @num Float64) :
  F64.is_nan p = true \/ F64.is_nan v = true \/ F64.is_nan x = true ->
  F64.is_nan (happyScoreOf p v x) = true.
Proof.
  unfold happyScoreOf. ScoreBounds.literals. intros [H|[H|H]].
  - apply add_nan_l, add_nan_l, mul_nan_l.
    rewrite (ltb_nan_r _ _ H). now apply mul_nan_l.
  - apply add_nan_l, add_nan_r, mul_nan_l. now rewrite (ltb_nan_r _ _ H).
  - apply add_nan_r, mul_nan_l. rewrite (ltb_nan_r _ _ H). now apply mul_nan_l.
Qed.

Lemma sadScoreOf_nan (p v x : @num Float64) :
  F64.is_nan p = true \/ F64.is_nan v = true \/ F64.is_nan x = true ->
  F64.is_nan (sadScoreOf p v x) = true.
Proof.
  unfold sadScoreOf. ScoreBounds.literals. intros [H|[H|H]].
  - apply add_nan_l, add_nan_l, mul_nan_l.
    rewrite (ltb_nan_l _ _ H). now apply mul_nan_l, sub_nan_r.
  - apply add_nan_l, add_nan_r, mul_nan_l.
    rewrite (ltb_nan_l _ _ H). now apply mul_nan_l, sub_nan_r.
  - apply add_nan_r, mul_nan_l.
    rewrite (ltb_nan_l _ _ H). now apply mul_nan_l, sub_nan_r.
Qed.

Lemma decideEmotion_nan (h s : @num Float64) :
  F64.is_nan h = true -> F64.is_nan s = true -> decideEmotion h s = neutral.
Proof.
  intros Hh Hs. unfold decideEmotion. ScoreBounds.literals.
  change (@Math_abs Float64) with PrimFloat.abs.
  rewrite (ltb_nan_r 0.45 h Hh), (ltb_nan_r 0.45 s Hs). cbn [andb].
  rewrite (ltb_nan_l (PrimFloat.abs (h - s)) 0.1)
    by now apply abs_nan, sub_nan_l.
  reflexivity.
Qed.

(** A window that holds a sample with a NaN feature is classified
    neutral: the mean of that feature is NaN, so are both scores, and
    every comparison of the decision fails. *)
Lemma nan_feature_gives_neutral (samples : list (Sample (J := Float64))) :
  Exists (fun s : Sample (J := Float64) =>
            F64.is_nan (pitch s) = true \/ F64.is_nan (volume s) = true
            \/ F64.is_nan (variance s) = true) samples ->
  classify samples = neutral.
Proof.
  intros H.
  assert (N : F64.is_nan (pitchScore samples) = true
              \/ F64.is_nan (volumeScore samples) = true
              \/ F64.is_nan (varianceScore samples) = true).
  { apply Exists_exists in H. destruct H as (s & Hin & [H|[H|H]]).
    - left. unfold pitchScore, pitchScoreOf. apply clamp_nan, div_nan_l, sub_nan_l.
      apply average_nan, Exists_exists. now exists s.
    - right; left. unfold volumeScore, volumeScoreOf. apply clamp_nan, div_nan_l.
      apply average_nan, Exists_exists. now exists s.
    - right; right. unfold varianceScore, varianceScoreOf.
      apply clamp_nan, div_nan_l.
      apply average_nan, Exists_exists. now exists s. }
  unfold classify, happyScore, sadScore.
  apply decideEmotion_nan; [now apply happyScoreOf_nan|now apply sadScoreOf_nan].
Qed.

Lemma sumSquares_nan (timeDomainArray : list (@num Float64)) :
  Exists (fun x => F64.is_nan x = true) timeDomainArray ->
  F64.is_nan (sumSquares timeDomainArray) = true.
Proof.
  intros H. unfold sumSquares.
  apply (fold_nan (fun x : @num Float64 => mul x x)).
  eapply Exists_impl; [|exact H]. intros x Hx. now apply mul_nan_l.
Qed.

(** X21.  One NaN among the time-domain values of a frame is enough: the
    volume of its sample is NaN, and every window that holds the
    sample is classified neutral, whatever the other samples are. *)
Theorem nan_in_frame_gives_neutral (rate : option (@num Float64)) (fr : Frame)
        (samples : list (Sample (J := Float64))) :
  dataArray fr <> [] ->
  Exists (fun x : @num Float64 => F64.is_nan x = true) (timeDomainArray fr) ->
  In (sampleOf rate fr) samples ->
  F64.is_nan (volume (sampleOf rate fr)) = true /\ classify samples = neutral.
Proof.
  intros Hd Hn Hin.
  assert (V : F64.is_nan (volume (sampleOf rate fr)) = true).
  { unfold sampleOf, extractSample.
    destruct (dataArray fr) as [|b rest]; [congruence|].
    cbn [reduce1 volume]. unfold volumeOf.
    apply sqrt_nan, div_nan_l. now apply sumSquares_nan. }
  split; [exact V|].
  apply nan_feature_gives_neutral, Exists_exists.
  exists (sampleOf rate fr). split; [exact Hin|]. right; left. exact V.
Qed.

End NotANumber.

(* ================================================================== *)
(** * Rounding does not go under a representable bound *)
(* ================================================================== *)

Module RoundingUp.

Import F64Value F64Lower Rounding.
Local Open Scope R_scope.

Lemma bpow_lt (a b : Z) : (a < b)%Z -> bpow a < bpow b.
Proof.
  intros H. replace b with (a + (b - a))%Z by lia. rewrite bpow_add.
  rewrite (bpow_nonneg_exp (b - a)) by lia.
  assert (2 <= IZR (2 ^ (b - a))).
  { apply IZR_le. replace (b - a)%Z with (Z.succ (b - a - 1)) by lia.
    rewrite Z.pow_succ_r by lia.
    assert (0 < 2 ^ (b - a - 1))%Z by (apply Z.pow_pos_nonneg; lia). lia. }
  pose proof (bpow_pos a). nra.
Qed.

Lemma bpow_le_inv (a b : Z) : bpow a <= bpow b -> (a <= b)%Z.
Proof.
  intros H. destruct (Z_lt_le_dec b a) as [L|L]; [|exact L].
  apply bpow_lt in L. lra.
Qed.

(** The exact value [M * 2^E] lies on or above the bound
    [mc * 2^ec]: so does what it is rounded to. *)
Lemma binary_round_aux_lower (M : positive) (E : Z) (mc : positive) (ec : Z) :
  (E <= fexp prec emax (Z.pos (digits2_pos M) + E))%Z ->
  canonical_mantissa prec emax mc ec = true ->
  IZR (Z.pos mc) * bpow ec <= IZR (Z.pos M) * bpow E ->
  above_sf (binary_round_aux prec emax false (Z.pos M) E loc_Exact)
           (IZR (Z.pos mc) * bpow ec).
Proof.
  intros Hn Hc Hq.
  set (d := Z.pos (digits2_pos M)) in *.
  set (dc := Z.pos (digits2_pos mc)) in *.
  set (e1 := fexp prec emax (d + E)) in *.
  destruct (digits_bounds_R M E) as [LoM UpM]. fold d in LoM, UpM.
  destruct (digits_bounds_R mc ec) as [LoC UpC]. fold dc in LoC, UpC.
  assert (Hec : ec = fexp prec emax (dc + ec)).
  { unfold canonical_mantissa in Hc. apply Z.eqb_eq in Hc. fold dc in Hc. lia. }
  assert (Hdd : (dc + ec <= d + E)%Z).
  { assert (bpow (dc - 1 + ec) < bpow (d + E)) by lra.
    apply bpow_lt_inv in H. lia. }
  assert (He1 : (-1074 <= e1)%Z) by (unfold e1, fexp, emin, prec, emax; lia).
  set (n := (e1 - E)%Z).
  assert (Hn0 : (0 <= n)%Z) by (unfold n; lia).
  assert (Pn : (0 < 2 ^ n)%Z) by (apply Z.pow_pos_nonneg; lia).
  assert (HE : bpow e1 = bpow n * bpow E)
    by (rewrite <- bpow_add; f_equal; unfold n; lia).
  (* an integer of the result's grid between the bound and the value *)
  assert (Hj : exists j : Z, (1 <= j)%Z /\
             IZR (Z.pos mc) * bpow ec <= IZR j * bpow e1 /\
             IZR j * bpow e1 <= IZR (Z.pos M) * bpow E).
  { destruct (Z.eq_dec ec e1) as [Eq|Ne].
    - exists (Z.pos mc). rewrite <- Eq. repeat split; [lia|lra|lra].
    - assert (Hlt : (ec < e1)%Z).
      { rewrite Hec. unfold e1, fexp, emin, prec, emax in *. lia. }
      assert (Hd1 : (e1 = d + E - 53)%Z)
        by (unfold e1, fexp, emin, prec, emax in *; lia).
      assert (Hd2 : (dc + ec <= d + E - 1)%Z)
        by (unfold e1, fexp, emin, prec, emax in *; lia).
      exists (2 ^ 52)%Z. split; [lia|].
      assert (Ej : IZR (2 ^ 52) * bpow e1 = bpow (d - 1 + E)).
      { rewrite <- (bpow_nonneg_exp 52) by lia. rewrite <- bpow_add.
        f_equal. lia. }
      rewrite Ej. split; [|exact LoM].
      apply Rle_trans with (bpow (dc + ec)); [lra|]. apply bpow_le. lia. }
  destruct Hj as (j & Hj1 & HjC & HjM).
  assert (HjM' : (j * 2 ^ n <= Z.pos M)%Z).
  { apply le_IZR. rewrite mult_IZR, <- bpow_nonneg_exp by lia.
    pose proof (bpow_pos E) as PE. rewrite HE in HjM. nra. }
  unfold binary_round_aux, shr_fexp.
  change (Zdigits2 (Z.pos M)) with d. fold e1. fold n.
  change (shr_record_of_loc (Z.pos M) loc_Exact)
    with (Build_shr_record (Z.pos M) false false).
  destruct (shr_exact_spec (Z.pos M) E n) as (mrs & -> & Hm & _); [lia|].
  rewrite Z.max_l in * by lia.
  replace (E + n)%Z with e1 by (unfold n; lia).
  set (m1 := shr_m mrs) in *.
  set (m2 := round_nearest_even m1 (loc_of_shr_record mrs)).
  destruct (round_nearest_even_bounds m1 (loc_of_shr_record mrs)) as [Hb _].
  fold m2 in Hb.
  assert (Hm1j : (j <= m1)%Z).
  { rewrite Hm. apply Z.div_le_lower_bound; lia. }
  assert (Hm1u : (m1 < 2 ^ 53)%Z).
  { rewrite Hm. apply Z.div_lt_upper_bound; [lia|].
    destruct (digits_bounds M) as [_ U]. fold d in U.
    assert (2 ^ d <= 2 ^ n * 2 ^ 53)%Z.
    { rewrite <- Z.pow_add_r by lia. apply Z.pow_le_mono_r; [lia|].
      unfold n, e1, fexp, emin, prec, emax. lia. }
    lia. }
  change (shr_record_of_loc m2 loc_Exact) with (Build_shr_record m2 false false).
  destruct (shr_exact_spec m2 e1 (fexp prec emax (Zdigits2 m2 + e1) - e1))
    as (mrs2 & -> & Hm3 & _); [lia|].
  set (k := Z.max (fexp prec emax (Zdigits2 m2 + e1) - e1) 0) in *.
  assert (Hk : (0 <= k)%Z) by (unfold k; lia).
  assert (Hm3' : (shr_m mrs2 * 2 ^ k = m2)%Z).
  { destruct (Z_lt_le_dec m2 (2 ^ 53)) as [Lt|Ge].
    - assert (k = 0)%Z.
      { unfold k. destruct m2 as [|p2|p2]; [| |lia].
        - cbn [Zdigits2]. unfold fexp, emin, prec, emax. lia.
        - change (Zdigits2 (Z.pos p2)) with (Z.pos (digits2_pos p2)).
          pose proof (digits_le_of_lt_pow p2 53 Lt).
          unfold fexp, emin, prec, emax. lia. }
      rewrite Hm3, H. change (2 ^ 0)%Z with 1%Z. rewrite Z.div_1_r.
      apply Z.mul_1_r.
    - assert (E2 : m2 = (2 ^ 53)%Z) by lia.
      assert (k = 1)%Z.
      { unfold k. rewrite E2. change (Zdigits2 (2 ^ 53)) with 54%Z.
        unfold fexp, emin, prec, emax. lia. }
      rewrite Hm3, H, E2. reflexivity. }
  assert (Hval : IZR (Z.pos mc) * bpow ec <= IZR (shr_m mrs2) * bpow (e1 + k)).
  { rewrite (Z.add_comm e1 k), bpow_add, (bpow_nonneg_exp k) by lia.
    rewrite <- Rmult_assoc, <- mult_IZR, Hm3'.
    apply Rle_trans with (1 := HjC). pose proof (bpow_pos e1).
    assert (IZR j <= IZR m2) by (apply IZR_le; lia). nra. }
  assert (Hpos : (0 < shr_m mrs2)%Z).
  { assert (0 < 2 ^ k)%Z by (apply Z.pow_pos_nonneg; lia). nia. }
  destruct (shr_m mrs2) as [|m3|m3] eqn:E3; [lia| |lia].
  destruct (e1 + k <=? emax - prec)%Z.
  - split; [exact I|]. right. exact Hval.
  - split; [exact I|]. now left.
Qed.

Lemma binary_round_lower (M : positive) (E : Z) (mc : positive) (ec : Z) :
  canonical_mantissa prec emax mc ec = true ->
  IZR (Z.pos mc) * bpow ec <= IZR (Z.pos M) * bpow E ->
  above_sf (binary_round prec emax false M E) (IZR (Z.pos mc) * bpow ec).
Proof.
  intros Hc Hq. unfold binary_round.
  destruct (shl_align_spec M E (fexp prec emax (Z.pos (digits2_pos M) + E)))
    as (mz & ez & -> & He & Hm & Hd).
  apply binary_round_aux_lower; try assumption.
  - rewrite Hd. replace (Z.pos (digits2_pos M) + (E - ez) + ez)%Z
      with (Z.pos (digits2_pos M) + E)%Z by lia. lia.
  - rewrite Hm, bpow_shift by lia. exact Hq.
Qed.

(** ** Lower bounds through the operations *)

Lemma above_nonneg (x : float) : nonneg_inf (Prim2SF x) -> above x 0.
Proof. intros H. split; [exact H|]. right. apply value_nonneg. Qed.

Lemma above_weaken (x : float) (a b : R) : above x a -> b <= a -> above x b.
Proof. intros [N [H|H]] L; (split; [exact N|]); [now left|right; lra]. Qed.

Lemma above_self (c : float) : positive_float c -> above c (value (Prim2SF c)).
Proof. intros (m & e & E). split; [rewrite E; exact I|right; lra]. Qed.

Lemma mul_above (x c B : float) (a : R) :
  above x a -> normal c -> positive_float B ->
  value (Prim2SF B) <= a * value (Prim2SF c) ->
  above (x * c)%float (value (Prim2SF B)).
Proof.
  intros [Nx Vx] (mc & ec & Ec & Dc) (mB & eB & EB) Hab.
  destruct (valid_repr _ _ _ _ EB) as [CB LB].
  pose proof (value_finite_pos mB eB) as PB.
  pose proof (value_finite_pos mc ec) as PC.
  unfold above. rewrite FloatAxioms.mul_spec, Ec, EB in *. cbn [value] in *.
  destruct (Prim2SF x) as [sx|sx| |sx mx ex]; try contradiction.
  - exfalso. destruct Vx as [Vx|Vx]; [discriminate|]. cbn in Vx. nra.
  - destruct sx; [contradiction|]. cbn. split; [exact I|now left].
  - destruct sx; [contradiction|]. cbn [SF64mul SFmul xorb].
    apply binary_round_aux_lower; try assumption.
    + assert (53 <= Z.pos (digits2_pos (mx * mc)))%Z.
      { apply digits_ge_of_pow_le. destruct (digits_bounds mc) as [L _].
        rewrite Dc in L. rewrite Pos2Z.inj_mul. change (53 - 1)%Z with 52%Z in *. nia. }
      unfold fexp, emin, prec, emax. lia.
    + destruct Vx as [Vx|Vx]; [discriminate|]. cbn [value] in Vx.
      rewrite Pos2Z.inj_mul, mult_IZR, bpow_add.
      apply Rle_trans with (1 := Hab).
      replace (IZR (Z.pos mx) * IZR (Z.pos mc) * (bpow ex * bpow ec))
        with (IZR (Z.pos mx) * bpow ex * (IZR (Z.pos mc) * bpow ec)) by ring.
      apply Rmult_le_compat_r; lra.
Qed.

Lemma add_above (x y B : float) (a b : R) :
  above x a -> above y b -> positive_float B ->
  value (Prim2SF B) <= a + b ->
  above (x + y)%float (value (Prim2SF B)).
Proof.
  intros [Nx Vx] [Ny Vy] (mB & eB & EB) Hab.
  destruct (valid_repr _ _ _ _ EB) as [CB LB].
  pose proof (value_finite_pos mB eB) as PB.
  pose proof (value_nonneg (Prim2SF x)) as Px.
  pose proof (value_nonneg (Prim2SF y)) as Py.
  unfold above. rewrite FloatAxioms.add_spec, EB in *. cbn [value] in Hab, PB |- *.
  destruct (Prim2SF x) as [sx|sx| |sx mx ex]; try contradiction;
    destruct (Prim2SF y) as [sy|sy| |sy my ey]; try contradiction.
  - exfalso. destruct Vx as [Vx|Vx]; [discriminate|].
    destruct Vy as [Vy|Vy]; [discriminate|]. cbn in Vx, Vy. lra.
  - destruct sy; [contradiction|]. cbn. split; [exact I|now left].
  - destruct sy; [contradiction|]. cbn [SF64add SFadd]. split; [exact I|].
    right. destruct Vx as [Vx|Vx]; [discriminate|].
    destruct Vy as [Vy|Vy]; [discriminate|]. cbn [value] in *. lra.
  - destruct sx; [contradiction|]. cbn. split; [exact I|now left].
  - destruct sx, sy; try contradiction. cbn. split; [exact I|now left].
  - destruct sx; [contradiction|]. cbn. split; [exact I|now left].
  - destruct sx; [contradiction|]. cbn [SF64add SFadd]. split; [exact I|].
    right. destruct Vx as [Vx|Vx]; [discriminate|].
    destruct Vy as [Vy|Vy]; [discriminate|]. cbn [value] in *. lra.
  - destruct sy; [contradiction|]. cbn. split; [exact I|now left].
  - destruct sx, sy; try contradiction. cbn [SF64add SFadd cond_Zopp].
    set (ez := Z.min ex ey).
    pose proof (aligned_value mx ex ez ltac:(unfold ez; lia)) as Ax.
    pose proof (aligned_value my ey ez ltac:(unfold ez; lia)) as Ay.
    change (Z.pos (fst (shl_align mx ex ez)) + Z.pos (fst (shl_align my ey ez)))%Z
      with (Z.pos (fst (shl_align mx ex ez) + fst (shl_align my ey ez))).
    cbn [binary_normalize].
    apply binary_round_lower; try assumption.
    rewrite Pos2Z.inj_add, plus_IZR, Rmult_plus_distr_r, Ax, Ay.
    destruct Vx as [Vx|Vx]; [discriminate|].
    destruct Vy as [Vy|Vy]; [discriminate|]. cbn [value] in Vx, Vy. lra.
Qed.

(** ** Comparisons *)

Lemma above_ltb (k x : float) (b : R) :
  nonneg (Prim2SF k) -> above x b -> value (Prim2SF k) < b ->
  (k <? x)%float = true.
Proof.
  intros Nk [Nx Vx] H. rewrite FloatAxioms.ltb_spec. unfold SFltb.
  destruct Vx as [Vx|Vx].
  - rewrite Vx. destruct (Prim2SF k) as [s|s| |s m e]; try contradiction;
      [reflexivity|]. destruct s; [contradiction|reflexivity].
  - assert (Nx' : nonneg (Prim2SF x)).
    { destruct (Prim2SF x) as [s|[|]| |[|] m e]; try contradiction; try exact I.
      exfalso. cbn in Vx. pose proof (value_nonneg (Prim2SF k)). lra. }
    pose proof (compare_nonneg _ _ (Prim2SF_valid k) (Prim2SF_valid x) Nk Nx') as C.
    destruct (SFcompare (Prim2SF k) (Prim2SF x)) as [[| |]|];
      try reflexivity; try contradiction; lra.
Qed.

Lemma above_leb (k x : float) :
  nonneg (Prim2SF k) -> above x (value (Prim2SF k)) -> (k <=? x)%float = true.
Proof.
  intros Nk [Nx Vx]. rewrite FloatAxioms.leb_spec. unfold SFleb.
  destruct Vx as [Vx|Vx].
  - rewrite Vx. destruct (Prim2SF k) as [s|s| |s m e]; try contradiction;
      [reflexivity|]. destruct s; [contradiction|reflexivity].
  - destruct (Prim2SF x) as [s|s| |s m e] eqn:Ex; try contradiction.
    + pose proof (compare_nonneg _ _ (Prim2SF_valid k) (Prim2SF_valid x) Nk) as C.
      rewrite Ex in C. specialize (C I).
      destruct (SFcompare (Prim2SF k) (S754_zero s)) as [[| |]|];
        try reflexivity; try contradiction. cbn [value] in *. lra.
    + destruct s; [contradiction|].
      destruct (Prim2SF k) as [s|s| |s m e]; try contradiction;
        [reflexivity|]. destruct s; [contradiction|reflexivity].
    + destruct s; [contradiction|].
      pose proof (compare_nonneg _ _ (Prim2SF_valid k) (Prim2SF_valid x) Nk) as C.
      rewrite Ex in C. specialize (C I).
      destruct (SFcompare (Prim2SF k) (S754_finite false m e)) as [[| |]|];
        try reflexivity; try contradiction. lra.
Qed.

End RoundingUp.

(* ================================================================== *)
(** * The waveform and the neutral label on binary64 *)
(* ================================================================== *)

Module LowerBounds.

Import F64Value F64Lower Rounding Signs ScoreBounds RoundingUp Decisions.
Local Open Scope R_scope.

Lemma above_constant (c : float) (b : R) :
  positive_float c -> b <= value (Prim2SF c) -> above c b.
Proof. intros H L. apply (above_weaken c (value (Prim2SF c))); [now apply above_self|exact L]. Qed.

Lemma below_above (x : float) (b : R) : below x b -> above x 0.
Proof.
  intros [N _]. apply above_nonneg.
  destruct (Prim2SF x) as [s|s| |[|] m e]; try contradiction; exact I.
Qed.

(** What [Math.random] returns: a number from 0 up to, not including,
    1. *)
Lemma unit_interval_below (r : float) :
  (0 <=? r)%float = true -> (r <? 1)%float = true ->
  below r (value (Prim2SF 1)).
Proof.
  intros H0 H1.
  assert (N : nonneg (Prim2SF r)).
  { revert H0 H1. rewrite FloatAxioms.leb_spec, FloatAxioms.ltb_spec.
    replace (Prim2SF 0) with (S754_zero false) by (vm_compute; reflexivity).
    replace (Prim2SF 1) with (S754_finite false 4503599627370496 (-52))
      by (vm_compute; reflexivity).
    unfold SFleb, SFltb.
    destruct (Prim2SF r) as [s|[|]| |[|] m e]; cbn [SFcompare];
      try discriminate; intros; exact I. }
  split; [exact N|]. apply Rlt_le.
  apply ltb_true_value; [exact N|vm_compute; exact I|exact H1].
Qed.

(** One bar of the animation: [Math.random() * 0.7 + 0.3]. *)
Lemma bar_between (r : float) :
  below r (value (Prim2SF 1)) ->
  (0.3 <=? r * 0.7 + 0.3)%float = true /\ (r * 0.7 + 0.3 <=? 1)%float = true.
Proof.
  intros Hr.
  assert (Hm : below (r * 0.7)%float (value (Prim2SF 0.7)))
    by (apply weighted; [exact Hr|constant]).
  split.
  - apply above_leb; [vm_compute; exact I|].
    apply (add_above _ _ 0.3 0 (value (Prim2SF 0.3))); [|  |constant|lra].
    + now apply (below_above _ _ Hm).
    + apply above_self. constant.
  - apply (below_leb _ 1); [vm_compute; exact I|].
    apply (add_below _ _ 1 (value (Prim2SF 0.7)) (value (Prim2SF 0.3)));
      [exact Hm| |constant|dyadic].
    split; [vm_compute; exact I|lra].
Qed.

(** X22.  Every bar that [updateWaveform] draws is between 0.3 and 1: a
    height from 30% to 100%. *)
Theorem waveform_bars_between (random : nat -> @num Float64)
        (c : Component (J := Float64)) :
  (forall i, PrimFloat.leb 0 (random i) = true
             /\ PrimFloat.ltb (random i) 1 = true) ->
  Forall (fun height : @num Float64 =>
            PrimFloat.leb (@lit Float64 0.3) height = true
            /\ PrimFloat.leb height 1 = true)
         (waveformData (updateWaveform random c)).
Proof.
  intros Hr. unfold updateWaveform. cbn [waveformData set_waveformData].
  apply Forall_forall. intros h Hin. apply in_map_iff in Hin.
  destruct Hin as (i & <- & _). literals.
  apply bar_between. apply unit_interval_below; apply Hr.
Qed.

(** ** The scores are never both low *)

Lemma sad_terms_below (p v x : float) :
  below p (value (Prim2SF 1)) -> below v (value (Prim2SF 1)) ->
  below x (value (Prim2SF 1)) ->
  below ((if (p <? 0.4) then 1 else (1 - p) * 1.5) * 0.35)%float
        (value (Prim2SF 0.35)) /\
  below ((if (v <? 0.5) then 1 else (1 - v) * 1.2) * 0.4)%float
        (value (Prim2SF 0.4)) /\
  below ((if (x <? 0.35) then 1 else (1 - x) * 1.3) * 0.25)%float
        (value (Prim2SF 0.25)).
Proof.
  intros Hp Hv Hx. split; [|split].
  - apply weighted; [|constant].
    apply (boosted_down p 0.4 1.5 0.625);
      [exact Hp|constant|constant|constant|dyadic|dyadic].
  - apply weighted; [|constant].
    apply (boosted_down v 0.5 1.2 0.5);
      [exact Hv|constant|constant|constant|dyadic|dyadic].
  - apply weighted; [|constant].
    apply (boosted_down x 0.35 1.3 0.75);
      [exact Hx|constant|constant|constant|dyadic|dyadic].
Qed.

Lemma happy_term_x_below (x : float) :
  below x (value (Prim2SF 1)) ->
  below ((if (0.4 <? x) then 1 else x * 1.5) * 0.3)%float (value (Prim2SF 0.3)).
Proof.
  intros Hx. apply weighted; [|constant].
  apply boosted_up; [exact Hx|constant|constant|dyadic].
Qed.

(** A pitch score of 0.4 or more brings at least 0.27 to the happy
    score, a volume score of 0.5 or more at least 0.17. *)
Lemma happy_term_p_above (p : float) :
  below p (value (Prim2SF 1)) -> (p <? 0.4)%float = false ->
  above ((if (0.5 <? p) then 1 else p * 2) * 0.35)%float (value (Prim2SF 0.27)).
Proof.
  intros Hp E. destruct (0.5 <? p)%float.
  - replace (1 * 0.35)%float with 0.35%float by (vm_compute; reflexivity).
    apply above_constant; [constant|dyadic].
  - apply (mul_above _ 0.35 0.27 (value (Prim2SF 0.8))); [|constant|constant|dyadic].
    apply (mul_above p 2 0.8 (value (Prim2SF 0.4))); [|constant|constant|dyadic].
    split; [destruct Hp as [N _];
            destruct (Prim2SF p) as [s|s| |[|] m e]; try contradiction; exact I|].
    right. apply (ltb_false_value p 0.4); [apply Hp|vm_compute; exact I|exact E].
Qed.

Lemma happy_term_v_above (v : float) :
  below v (value (Prim2SF 1)) -> (v <? 0.5)%float = false ->
  above ((if (0.6 <? v) then 1 else v) * 0.35)%float (value (Prim2SF 0.17)).
Proof.
  intros Hv E. destruct (0.6 <? v)%float.
  - replace (1 * 0.35)%float with 0.35%float by (vm_compute; reflexivity).
    apply above_constant; [constant|dyadic].
  - apply (mul_above v 0.35 0.17 (value (Prim2SF 0.5))); [|constant|constant|dyadic].
    split; [destruct Hv as [N _];
            destruct (Prim2SF v) as [s|s| |[|] m e]; try contradiction; exact I|].
    right. apply (ltb_false_value v 0.5); [apply Hv|vm_compute; exact I|exact E].
Qed.

(** One of the two scores is above 0.3, whatever the three feature
    scores are. *)
Lemma scores_not_both_low (p v x : @num Float64) :
  below p (value (Prim2SF 1)) -> below v (value (Prim2SF 1)) ->
  below x (value (Prim2SF 1)) ->
  lt (lit 0.3) (happyScoreOf p v x) = true
  \/ lt (lit 0.3) (sadScoreOf p v x) = true.
Proof.
  intros Hp Hv Hx.
  destruct (sad_terms_below p v x Hp Hv Hx) as (Sp & Sv & Sx).
  unfold happyScoreOf, sadScoreOf. literals.
  destruct (p <? 0.4)%float eqn:Ep.
  - right. apply (above_ltb _ _ (value (Prim2SF 0.35))); [vm_compute; exact I| |dyadic].
    replace (1 * 0.35)%float with 0.35%float by (vm_compute; reflexivity).
    apply (add_above _ _ 0.35 (value (Prim2SF 0.35)) 0); [| |constant|lra].
    + apply (add_above _ _ 0.35 (value (Prim2SF 0.35)) 0); [| |constant|lra].
      * apply above_self. constant.
      * exact (below_above _ _ Sv).
    + exact (below_above _ _ Sx).
  - destruct (v <? 0.5)%float eqn:Ev.
    + right.
      apply (above_ltb _ _ (value (Prim2SF 0.4))); [vm_compute; exact I| |dyadic].
      replace (1 * 0.4)%float with 0.4%float by (vm_compute; reflexivity).
      apply (add_above _ _ 0.4 (value (Prim2SF 0.4)) 0); [| |constant|lra].
      * apply (add_above _ _ 0.4 0 (value (Prim2SF 0.4))); [| |constant|lra].
        -- exact (below_above _ _ Sp).
        -- apply above_self. constant.
      * exact (below_above _ _ Sx).
    + left.
      apply (above_ltb _ _ (value (Prim2SF 0.44))); [vm_compute; exact I| |dyadic].
      apply (add_above _ _ 0.44 (value (Prim2SF 0.44)) 0); [| |constant|lra].
      * apply (add_above _ _ 0.44 (value (Prim2SF 0.27)) (value (Prim2SF 0.17)));
          [| |constant|dyadic].
        -- now apply happy_term_p_above.
        -- now apply happy_term_v_above.
      * exact (below_above _ _ (happy_term_x_below x Hx)).
Qed.

(** X23.  The code comments the last branch of the decision as the default
    "when both scores are low".  For a window of non-negative
    features that never happens: one of the two scores is above 0.3.
    A window is classified neutral only when the scores are at least
    0.1 apart. *)
Theorem neutral_needs_a_gap (samples : list (Sample (J := Float64))) :
  F64.array_length (length samples) -> Forall feature_sample samples ->
  (lt (lit 0.3) (happyScore samples) = true
   \/ lt (lit 0.3) (sadScore samples) = true) /\
  (classify samples = neutral ->
   lt (Math_abs (sub (happyScore samples) (sadScore samples))) (lit 0.1)
   = false).
Proof.
  intros Hlen Hs.
  destruct (window_scores_below samples Hlen Hs) as (Hp & Hv & Hx).
  pose proof (scores_not_both_low _ _ _ Hp Hv Hx) as L.
  fold (happyScore samples) in L. fold (sadScore samples) in L.
  split; [exact L|].
  unfold classify, decideEmotion.
  destruct (lt (lit 0.45) (happyScore samples)
            && lt (add (sadScore samples) (lit 0.1)) (happyScore samples));
    [discriminate|].
  destruct (lt (lit 0.45) (sadScore samples)
            && lt (add (happyScore samples) (lit 0.1)) (sadScore samples));
    [discriminate|].
  destruct (lt (Math_abs (sub (happyScore samples) (sadScore samples))) (lit 0.1));
    [|reflexivity].
  replace (lt (lit 0.3) (happyScore samples) || lt (lit 0.3) (sadScore samples))
    with true by (destruct L as [-> | ->]; [reflexivity|now rewrite orb_true_r]).
  cbn [andb]. destruct (lt (sadScore samples) (happyScore samples)); discriminate.
Qed.

End LowerBounds.

(* ================================================================== *)
(** * Rounding a quotient *)
(* ================================================================== *)

Module Quotients.

Import F64Value F64Lower Rounding RoundingUp.
Local Open Scope R_scope.

(** ** Right shifts of a mantissa with a remainder *)

Lemma shr_1_mantissa (mrs : shr_record) :
  (0 <= shr_m mrs)%Z -> shr_m (shr_1 mrs) = (shr_m mrs / 2)%Z.
Proof.
  destruct mrs as [m r s]. cbn [shr_m]. intros H.
  destruct m as [|[p|p|]|p]; try lia; cbn [shr_1 shr_m].
  - reflexivity.
  - rewrite Pos2Z.inj_xI. Z.to_euclidean_division_equations; lia.
  - rewrite Pos2Z.inj_xO. Z.to_euclidean_division_equations; lia.
  - reflexivity.
Qed.

Lemma iter_shr_1_mantissa (k : nat) (mrs : shr_record) :
  (0 <= shr_m mrs)%Z ->
  shr_m (Nat.iter k shr_1 mrs) = (shr_m mrs / 2 ^ Z.of_nat k)%Z.
Proof.
  intros H. induction k as [|k IH].
  - cbn [Nat.iter]. change (2 ^ Z.of_nat 0)%Z with 1%Z. now rewrite Z.div_1_r.
  - change (Nat.iter (S k) shr_1 mrs) with (shr_1 (Nat.iter k shr_1 mrs)).
    assert (P : (0 < 2 ^ Z.of_nat k)%Z) by (apply Z.pow_pos_nonneg; lia).
    rewrite shr_1_mantissa by (rewrite IH; apply Z.div_pos; lia).
    rewrite IH, Nat2Z.inj_succ, Z.pow_succ_r, Z.div_div by lia.
    f_equal. lia.
Qed.

(** [shr] divides the mantissa, whatever was shifted out before. *)
Lemma shr_mantissa (M E n : Z) (l : location) :
  (0 <= M)%Z ->
  exists mrs,
    shr (shr_record_of_loc M l) E n = (mrs, (E + Z.max n 0)%Z) /\
    shr_m mrs = (M / 2 ^ Z.max n 0)%Z.
Proof.
  intros HM.
  assert (Hl : shr_m (shr_record_of_loc M l) = M) by (now destruct l as [|[| |]]).
  destruct n as [|p|p]; cbn [shr].
  - exists (shr_record_of_loc M l). cbn [Z.max Z.compare].
    rewrite Z.add_0_r, Hl. change (2 ^ 0)%Z with 1%Z. now rewrite Z.div_1_r.
  - eexists. rewrite Z.max_l by lia. split; [reflexivity|].
    rewrite iter_pos_nat, iter_shr_1_mantissa, Hl, positive_nat_Z by now rewrite Hl.
    reflexivity.
  - exists (shr_record_of_loc M l). rewrite Z.max_r by lia.
    rewrite Z.add_0_r, Hl. change (2 ^ 0)%Z with 1%Z. now rewrite Z.div_1_r.
Qed.

(** Rounding a quotient whose integer part [M * 2^E] lies strictly
    below a representable bound: wherever the rest of the quotient
    lies, the result does not exceed the bound. *)
Lemma binary_round_aux_under (M : positive) (E : Z) (l : location)
      (mc : positive) (ec : Z) :
  (E <= fexp prec emax (Z.pos (digits2_pos M) + E))%Z ->
  canonical_mantissa prec emax mc ec = true -> (ec <= 971)%Z ->
  IZR (Z.pos M) * bpow E < IZR (Z.pos mc) * bpow ec ->
  nonneg (binary_round_aux prec emax false (Z.pos M) E l) /\
  value (binary_round_aux prec emax false (Z.pos M) E l)
    <= IZR (Z.pos mc) * bpow ec.
Proof.
  intros Hn Hc Hec Hq.
  destruct (canonical_facts _ _ Hc) as (Lc & Dc & _).
  set (d := Z.pos (digits2_pos M)) in *.
  set (e1 := fexp prec emax (d + E)) in *.
  destruct (digits_bounds_R M E) as [LoM _]. fold d in LoM.
  destruct (digits_bounds_R mc ec) as [_ UpC].
  assert (He1 : (e1 <= ec)%Z).
  { assert (bpow (d - 1 + E) < bpow (Z.pos (digits2_pos mc) + ec)) by lra.
    apply bpow_lt_inv in H. unfold e1, fexp, emin, prec, emax. lia. }
  assert (He1' : (-1074 <= e1)%Z) by (unfold e1, fexp, emin, prec, emax; lia).
  set (n := (e1 - E)%Z).
  set (K := (Z.pos mc * 2 ^ (ec - e1))%Z).
  assert (HK : IZR (Z.pos mc) * bpow ec = IZR K * bpow e1).
  { unfold K. rewrite mult_IZR, <- bpow_nonneg_exp by lia.
    replace ec with ((ec - e1) + e1)%Z at 1 by lia. rewrite bpow_add. ring. }
  assert (HMK : (Z.pos M < K * 2 ^ n)%Z).
  { apply lt_IZR. rewrite mult_IZR, <- bpow_nonneg_exp by (unfold n; lia).
    pose proof (bpow_pos E) as PE.
    assert (HE : bpow e1 = bpow n * bpow E)
      by (rewrite <- bpow_add; f_equal; unfold n; lia).
    rewrite HK, HE in Hq. nra. }
  assert (Pn : (0 < 2 ^ n)%Z) by (apply Z.pow_pos_nonneg; unfold n; lia).
  unfold binary_round_aux, shr_fexp.
  change (Zdigits2 (Z.pos M)) with d. fold e1. fold n.
  destruct (shr_mantissa (Z.pos M) E n l) as (mrs & -> & Hm); [lia|].
  rewrite Z.max_l in * by (unfold n; lia).
  replace (E + n)%Z with e1 by (unfold n; lia).
  set (m1 := shr_m mrs) in *.
  set (m2 := round_nearest_even m1 (loc_of_shr_record mrs)).
  destruct (round_nearest_even_bounds m1 (loc_of_shr_record mrs)) as [Hb _].
  fold m2 in Hb.
  assert (Hm1 : (0 <= m1)%Z) by (rewrite Hm; apply Z.div_pos; lia).
  assert (Hm2K : (m2 <= K)%Z).
  { assert (m1 < K)%Z by (rewrite Hm; apply Z.div_lt_upper_bound; lia). lia. }
  change (shr_record_of_loc m2 loc_Exact) with (Build_shr_record m2 false false).
  destruct (shr_exact_spec m2 e1 (fexp prec emax (Zdigits2 m2 + e1) - e1))
    as (mrs2 & -> & Hm3 & _); [lia|].
  set (k := Z.max (fexp prec emax (Zdigits2 m2 + e1) - e1) 0) in *.
  assert (Hk : (0 <= k)%Z) by (unfold k; lia).
  assert (Pk : (0 < 2 ^ k)%Z) by (apply Z.pow_pos_nonneg; lia).
  assert (Hm3' : (shr_m mrs2 * 2 ^ k <= m2)%Z).
  { rewrite Hm3. pose proof (Z.div_mod m2 (2 ^ k)).
    pose proof (Z.mod_pos_bound m2 (2 ^ k) Pk). nia. }
  assert (Hm3pos : (0 <= shr_m mrs2)%Z) by (rewrite Hm3; apply Z.div_pos; lia).
  assert (Hval : IZR (shr_m mrs2) * bpow (e1 + k) <= IZR (Z.pos mc) * bpow ec).
  { rewrite HK, (Z.add_comm e1 k), bpow_add, bpow_nonneg_exp by lia.
    rewrite <- Rmult_assoc, <- mult_IZR.
    pose proof (bpow_pos e1). apply IZR_le in Hm3', Hm2K. nra. }
  destruct (shr_m mrs2) as [|m3|m3] eqn:E3; [| |lia].
  - split; [exact I|]. cbn. rewrite HK. pose proof (bpow_pos e1).
    assert (0 <= IZR K) by (apply IZR_le; unfold K; nia).
    pose proof (Z.pow_pos_nonneg 2 (ec - e1)). nra.
  - assert (He3 : (e1 + k <= 971)%Z).
    { unfold k. destruct (Z.max_spec (fexp prec emax (Zdigits2 m2 + e1) - e1) 0)
        as [[_ ->]|[_ ->]]; [lia|].
      assert (0 < m2)%Z by nia.
      destruct m2 as [|p2|p2]; [lia| |lia].
      change (Zdigits2 (Z.pos p2)) with (Z.pos (digits2_pos p2)).
      assert (Hp2 : (Z.pos p2 < 2 ^ (53 + ec - e1))%Z).
      { destruct (digits_bounds mc) as [_ U].
        assert (2 ^ Z.pos (digits2_pos mc) <= 2 ^ 53)%Z by (apply Z.pow_le_mono_r; lia).
        replace (53 + ec - e1)%Z with (53 + (ec - e1))%Z by lia.
        rewrite Z.pow_add_r by lia.
        pose proof (Z.pow_pos_nonneg 2 (ec - e1)). unfold K in Hm2K. nia. }
      apply digits_le_of_lt_pow in Hp2. unfold fexp, emin, prec, emax. lia. }
    destruct (Z.leb_spec (e1 + k) (emax - prec)) as [_|H];
      [|unfold emax, prec in H; lia].
    split; [exact I|exact Hval].
Qed.

(** The integer part of a quotient lies on or above a representable
    bound: so does what the quotient is rounded to. *)
Lemma binary_round_aux_over (M : positive) (E : Z) (l : location)
      (mc : positive) (ec : Z) :
  (E <= fexp prec emax (Z.pos (digits2_pos M) + E))%Z ->
  canonical_mantissa prec emax mc ec = true ->
  IZR (Z.pos mc) * bpow ec <= IZR (Z.pos M) * bpow E ->
  above_sf (binary_round_aux prec emax false (Z.pos M) E l)
           (IZR (Z.pos mc) * bpow ec).
Proof.
  intros Hn Hc Hq.
  set (d := Z.pos (digits2_pos M)) in *.
  set (dc := Z.pos (digits2_pos mc)) in *.
  set (e1 := fexp prec emax (d + E)) in *.
  destruct (digits_bounds_R M E) as [LoM UpM]. fold d in LoM, UpM.
  destruct (digits_bounds_R mc ec) as [LoC UpC]. fold dc in LoC, UpC.
  assert (Hec : ec = fexp prec emax (dc + ec)).
  { unfold canonical_mantissa in Hc. apply Z.eqb_eq in Hc. fold dc in Hc. lia. }
  assert (Hdd : (dc + ec <= d + E)%Z).
  { assert (bpow (dc - 1 + ec) < bpow (d + E)) by lra.
    apply bpow_lt_inv in H. lia. }
  assert (He1 : (-1074 <= e1)%Z) by (unfold e1, fexp, emin, prec, emax; lia).
  set (n := (e1 - E)%Z).
  assert (Hn0 : (0 <= n)%Z) by (unfold n; lia).
  assert (Pn : (0 < 2 ^ n)%Z) by (apply Z.pow_pos_nonneg; lia).
  assert (HE : bpow e1 = bpow n * bpow E)
    by (rewrite <- bpow_add; f_equal; unfold n; lia).
  assert (Hj : exists j : Z, (1 <= j)%Z /\
             IZR (Z.pos mc) * bpow ec <= IZR j * bpow e1 /\
             IZR j * bpow e1 <= IZR (Z.pos M) * bpow E).
  { destruct (Z.eq_dec ec e1) as [Eq|Ne].
    - exists (Z.pos mc). rewrite <- Eq. repeat split; [lia|lra|lra].
    - assert (Hlt : (ec < e1)%Z).
      { rewrite Hec. unfold e1, fexp, emin, prec, emax in *. lia. }
      assert (Hd1 : (e1 = d + E - 53)%Z)
        by (unfold e1, fexp, emin, prec, emax in *; lia).
      assert (Hd2 : (dc + ec <= d + E - 1)%Z)
        by (unfold e1, fexp, emin, prec, emax in *; lia).
      exists (2 ^ 52)%Z. split; [lia|].
      assert (Ej : IZR (2 ^ 52) * bpow e1 = bpow (d - 1 + E)).
      { rewrite <- (bpow_nonneg_exp 52) by lia. rewrite <- bpow_add.
        f_equal. lia. }
      rewrite Ej. split; [|exact LoM].
      apply Rle_trans with (bpow (dc + ec)); [lra|]. apply bpow_le. lia. }
  destruct Hj as (j & Hj1 & HjC & HjM).
  assert (HjM' : (j * 2 ^ n <= Z.pos M)%Z).
  { apply le_IZR. rewrite mult_IZR, <- bpow_nonneg_exp by lia.
    pose proof (bpow_pos E) as PE. rewrite HE in HjM. nra. }
  unfold binary_round_aux, shr_fexp.
  change (Zdigits2 (Z.pos M)) with d. fold e1. fold n.
  destruct (shr_mantissa (Z.pos M) E n l) as (mrs & -> & Hm); [lia|].
  rewrite Z.max_l in * by lia.
  replace (E + n)%Z with e1 by (unfold n; lia).
  set (m1 := shr_m mrs) in *.
  set (m2 := round_nearest_even m1 (loc_of_shr_record mrs)).
  destruct (round_nearest_even_bounds m1 (loc_of_shr_record mrs)) as [Hb _].
  fold m2 in Hb.
  assert (Hm1j : (j <= m1)%Z).
  { rewrite Hm. apply Z.div_le_lower_bound; lia. }
  assert (Hm1u : (m1 < 2 ^ 53)%Z).
  { rewrite Hm. apply Z.div_lt_upper_bound; [lia|].
    destruct (digits_bounds M) as [_ U]. fold d in U.
    assert (2 ^ d <= 2 ^ n * 2 ^ 53)%Z.
    { rewrite <- Z.pow_add_r by lia. apply Z.pow_le_mono_r; [lia|].
      unfold n, e1, fexp, emin, prec, emax. lia. }
    lia. }
  change (shr_record_of_loc m2 loc_Exact) with (Build_shr_record m2 false false).
  destruct (shr_exact_spec m2 e1 (fexp prec emax (Zdigits2 m2 + e1) - e1))
    as (mrs2 & -> & Hm3 & _); [lia|].
  set (k := Z.max (fexp prec emax (Zdigits2 m2 + e1) - e1) 0) in *.
  assert (Hk : (0 <= k)%Z) by (unfold k; lia).
  assert (Hm3' : (shr_m mrs2 * 2 ^ k = m2)%Z).
  { destruct (Z_lt_le_dec m2 (2 ^ 53)) as [Lt|Ge].
    - assert (k = 0)%Z.
      { unfold k. destruct m2 as [|p2|p2]; [| |lia].
        - cbn [Zdigits2]. unfold fexp, emin, prec, emax. lia.
        - change (Zdigits2 (Z.pos p2)) with (Z.pos (digits2_pos p2)).
          pose proof (digits_le_of_lt_pow p2 53 Lt).
          unfold fexp, emin, prec, emax. lia. }
      rewrite Hm3, H. change (2 ^ 0)%Z with 1%Z. rewrite Z.div_1_r.
      apply Z.mul_1_r.
    - assert (E2 : m2 = (2 ^ 53)%Z) by lia.
      assert (k = 1)%Z.
      { unfold k. rewrite E2. change (Zdigits2 (2 ^ 53)) with 54%Z.
        unfold fexp, emin, prec, emax. lia. }
      rewrite Hm3, H, E2. reflexivity. }
  assert (Hval : IZR (Z.pos mc) * bpow ec <= IZR (shr_m mrs2) * bpow (e1 + k)).
  { rewrite (Z.add_comm e1 k), bpow_add, (bpow_nonneg_exp k) by lia.
    rewrite <- Rmult_assoc, <- mult_IZR, Hm3'.
    apply Rle_trans with (1 := HjC). pose proof (bpow_pos e1).
    assert (IZR j <= IZR m2) by (apply IZR_le; lia). nra. }
  assert (Hpos : (0 < shr_m mrs2)%Z).
  { assert (0 < 2 ^ k)%Z by (apply Z.pow_pos_nonneg; lia). nia. }
  destruct (shr_m mrs2) as [|m3|m3] eqn:E3; [lia| |lia].
  destruct (e1 + k <=? emax - prec)%Z.
  - split; [exact I|]. right. exact Hval.
  - split; [exact I|]. now left.
Qed.

(** ** Numbers that need no rounding *)

(** Two positive binary64 numbers of the same value are the same. *)
Lemma finite_unique (m1 m2 : positive) (e1 e2 : Z) :
  canonical_mantissa prec emax m1 e1 = true ->
  canonical_mantissa prec emax m2 e2 = true ->
  IZR (Z.pos m1) * bpow e1 = IZR (Z.pos m2) * bpow e2 ->
  m1 = m2 /\ e1 = e2.
Proof.
  intros C1 C2 E. pose proof (compare_finite m1 m2 e1 e2 C1 C2) as H.
  cbn [SFcompare] in H.
  destruct (Z.compare_spec e1 e2) as [Ee|Ee|Ee]; try lra.
  change (Pos.compare_cont Eq m1 m2) with (Pos.compare m1 m2) in H.
  destruct (Pos.compare_spec m1 m2) as [Em|Em|Em]; try lra.
  now split.
Qed.

(** A mantissa and exponent that stand for a binary64 number are
    rounded to that number. *)
Lemma binary_round_exact (M : positive) (E : Z) (mc : positive) (ec : Z) :
  canonical_mantissa prec emax mc ec = true -> (ec <= 971)%Z ->
  IZR (Z.pos M) * bpow E = IZR (Z.pos mc) * bpow ec ->
  binary_round prec emax false M E = S754_finite false mc ec.
Proof.
  intros Hc Hec Hv. unfold binary_round.
  destruct (digits_bounds_R M E) as [LoM UpM].
  destruct (digits_bounds_R mc ec) as [LoC UpC].
  assert (Hd : (Z.pos (digits2_pos M) + E = Z.pos (digits2_pos mc) + ec)%Z).
  { assert (H1 : bpow (Z.pos (digits2_pos M) - 1 + E)
                 < bpow (Z.pos (digits2_pos mc) + ec)) by lra.
    assert (H2 : bpow (Z.pos (digits2_pos mc) - 1 + ec)
                 < bpow (Z.pos (digits2_pos M) + E)) by lra.
    apply bpow_lt_inv in H1, H2. lia. }
  assert (Hf : fexp prec emax (Z.pos (digits2_pos M) + E) = ec).
  { rewrite Hd. unfold canonical_mantissa in Hc. apply Z.eqb_eq in Hc. exact Hc. }
  rewrite Hf.
  destruct (shl_align_spec M E ec) as (mz & ez & -> & He & Hm & Hdz).
  assert (Hz : Z.pos mz = (Z.pos mc * 2 ^ (ec - ez))%Z).
  { apply eq_IZR. pose proof (bpow_pos ez) as Pz.
    assert (A : IZR (Z.pos mz) * bpow ez = IZR (Z.pos M) * bpow E)
      by (rewrite Hm; apply bpow_shift; lia).
    assert (B : IZR (Z.pos mc * 2 ^ (ec - ez)) * bpow ez
                = IZR (Z.pos mc) * bpow ec) by (apply bpow_shift; lia).
    apply Rmult_eq_reg_r with (bpow ez); [|lra]. lra. }
  assert (P : (0 < 2 ^ (ec - ez))%Z) by (apply Z.pow_pos_nonneg; lia).
  unfold binary_round_aux, shr_fexp.
  change (Zdigits2 (Z.pos mz)) with (Z.pos (digits2_pos mz)).
  replace (Z.pos (digits2_pos mz) + ez)%Z with (Z.pos (digits2_pos mc) + ec)%Z
    by lia.
  assert (Hf' : fexp prec emax (Z.pos (digits2_pos mc) + ec) = ec).
  { unfold canonical_mantissa in Hc. apply Z.eqb_eq in Hc. exact Hc. }
  rewrite Hf'.
  change (shr_record_of_loc (Z.pos mz) loc_Exact)
    with (Build_shr_record (Z.pos mz) false false).
  destruct (shr_exact_spec (Z.pos mz) ez (ec - ez)) as (mrs & -> & Hm1 & Hloc);
    [lia|].
  rewrite Z.max_l in * by lia.
  replace (ez + (ec - ez))%Z with ec by lia.
  assert (E1 : shr_m mrs = Z.pos mc) by (rewrite Hm1, Hz; now apply Z.div_mul; lia).
  assert (E2 : loc_of_shr_record mrs = loc_Exact).
  { apply Hloc. rewrite Hz. apply Z.mod_mul. lia. }
  rewrite E1, E2. cbn [round_nearest_even].
  change (Zdigits2 (Z.pos mc)) with (Z.pos (digits2_pos mc)).
  rewrite Hf', Z.sub_diag. cbn [shr shr_record_of_loc shr_m].
  destruct (Z.leb_spec ec (emax - prec)) as [_|H];
    [reflexivity|unfold emax, prec in H; lia].
Qed.

(** The number of an integer below [2^53] is that integer. *)
Lemma of_int_exact (n : Z) :
  (1 <= n < 2 ^ 53)%Z ->
  exists m e, Prim2SF (F64.of_int n) = S754_finite false m e /\
              IZR (Z.pos m) * bpow e = IZR n /\ (-52 <= e <= 0)%Z /\
              digits2_pos m = 53%positive.
Proof.
  intros Hn. destruct (F64Facts.of_int_normal n Hn) as (m & e & Hr & Hd & He).
  exists m, e. split; [exact Hr|]. split; [|split; assumption].
  destruct (valid_repr _ _ _ _ Hr) as [Hc Hle].
  revert Hr. unfold F64.of_int.
  rewrite FloatAxioms.of_uint63_spec, Uint63.of_Z_spec.
  rewrite Z.mod_small by (unfold Uint63.wB; simpl; lia).
  destruct n as [|p|p]; try lia. cbn [binary_normalize]. intros Hr.
  (* the number with the 53 digits of [p] *)
  set (dp := Z.pos (digits2_pos p)).
  assert (Hdp : (dp <= 53)%Z) by (apply (digits_le_of_lt_pow p 53); lia).
  destruct (shl_align_spec p 0 (dp - 53)) as (mz & ez & Hs & Hez & Hmz & Hdz).
  assert (Cz : canonical_mantissa prec emax mz ez = true).
  { unfold canonical_mantissa. apply Z.eqb_eq. rewrite Hdz. fold dp.
    unfold fexp, emin, prec, emax. lia. }
  assert (Vz : IZR (Z.pos p) * bpow 0 = IZR (Z.pos mz) * bpow ez).
  { rewrite Hmz. symmetry. apply bpow_shift. lia. }
  rewrite (binary_round_exact p 0 mz ez Cz ltac:(lia) Vz) in Hr.
  injection Hr as <- <-. rewrite <- Vz. unfold bpow. cbn [powerRZ]. ring.
Qed.

End Quotients.

(* ================================================================== *)
(** * Minutes and seconds on binary64 *)
(* ================================================================== *)

Module Sixty.

Import F64Value F64Lower Rounding RoundingUp Quotients.
Local Open Scope R_scope.

(** The literal [60]. *)
Lemma Prim2SF_sixty :
  Prim2SF (F64.lit 60) = S754_finite false 8444249301319680 (-47).
Proof. vm_compute. reflexivity. Qed.

(** The quotient of two normal numbers before it is rounded. *)
Lemma SFdiv_core_normal (m1 m2 : positive) (e1 e2 : Z) :
  digits2_pos m1 = 53%positive -> digits2_pos m2 = 53%positive ->
  (-1074 <= e1 - e2 - 53)%Z ->
  SFdiv_core_binary prec emax (Z.pos m1) e1 (Z.pos m2) e2
  = ((Z.pos m1 * 2 ^ 53 / Z.pos m2)%Z, (e1 - e2 - 53)%Z,
     new_location (Z.pos m2) ((Z.pos m1 * 2 ^ 53) mod Z.pos m2)%Z).
Proof.
  intros D1 D2 He. unfold SFdiv_core_binary.
  change (Zdigits2 (Z.pos m1)) with (Z.pos (digits2_pos m1)).
  change (Zdigits2 (Z.pos m2)) with (Z.pos (digits2_pos m2)).
  rewrite D1, D2.
  change IntDef.Z.min with Z.min. change IntDef.Z.shiftl with Z.shiftl.
  change IntDef.Z.div_eucl with Z.div_eucl.
  replace (Z.min (fexp prec emax (53 + e1 - (53 + e2))) (e1 - e2))
    with (e1 - e2 - 53)%Z by (unfold fexp, emin, prec, emax; lia).
  replace (e1 - e2 - (e1 - e2 - 53))%Z with 53%Z by lia.
  cbv beta iota zeta. rewrite Z.shiftl_mul_pow2 by lia.
  unfold Z.div, Z.modulo.
  now destruct (Z.div_eucl (Z.pos m1 * 2 ^ 53) (Z.pos m2)) as [q r].
Qed.

(** What [of_int_exact] says, on the integers. *)
Lemma mantissa_of_value (m : positive) (e n : Z) :
  (e <= 0)%Z -> IZR (Z.pos m) * bpow e = IZR n ->
  Z.pos m = (n * 2 ^ (- e))%Z.
Proof.
  intros He Hv. apply eq_IZR. rewrite mult_IZR, <- bpow_nonneg_exp by lia.
  rewrite <- Hv, Rmult_assoc, <- bpow_add.
  replace (e + - e)%Z with 0%Z by lia. unfold bpow. cbn [powerRZ]. ring.
Qed.

(** [seconds / 60] for whole seconds: the quotient is rounded to a
    number between the whole minutes and 63/64 above them. *)
Lemma quotient_by_sixty (s : Z) :
  (60 <= s < 2 ^ 52)%Z ->
  exists m e,
    Prim2SF (PrimFloat.div (F64.of_int s) (F64.lit 60)) = S754_finite false m e /\
    IZR (s / 60) <= IZR (Z.pos m) * bpow e <= IZR (s / 60) + 63 / 64.
Proof.
  intros Hs. set (k := (s / 60)%Z).
  assert (Hk : (1 <= k < 2 ^ 47)%Z)
    by (unfold k; Z.to_euclidean_division_equations; lia).
  assert (Hr : (60 * k <= s <= 60 * k + 59)%Z)
    by (unfold k; Z.to_euclidean_division_equations; lia).
  destruct (of_int_exact s ltac:(lia)) as (m1 & e1 & R1 & V1 & E1 & D1).
  destruct (of_int_exact k ltac:(lia)) as (mk & ek & Rk & Vk & Ek & Dk).
  destruct (of_int_exact (64 * k + 63) ltac:(lia)) as (mu & eu & Ru & Vu & Eu & Du).
  destruct (valid_repr _ _ _ _ Rk) as [Ck _].
  assert (Cu : canonical_mantissa prec emax mu (eu - 6) = true).
  { unfold canonical_mantissa. apply Z.eqb_eq. rewrite Du.
    unfold fexp, emin, prec, emax. lia. }
  assert (Vu' : IZR (Z.pos mu) * bpow (eu - 6) = IZR k + 63 / 64).
  { replace (eu - 6)%Z with (eu + -6)%Z by lia.
    rewrite bpow_add, <- Rmult_assoc, Vu, plus_IZR, mult_IZR.
    unfold bpow. cbn [powerRZ]. simpl. lra. }
  rewrite FloatAxioms.div_spec, R1, Prim2SF_sixty. unfold SF64div, SFdiv.
  rewrite SFdiv_core_normal by (try assumption; try reflexivity; lia).
  cbn [xorb].
  set (M60 := 8444249301319680%positive).
  set (q := (Z.pos m1 * 2 ^ 53 / Z.pos M60)%Z).
  set (l := new_location (Z.pos M60) ((Z.pos m1 * 2 ^ 53) mod Z.pos M60)).
  replace (e1 - -47 - 53)%Z with (e1 - 6)%Z by lia.
  pose proof (mantissa_of_value m1 e1 s ltac:(lia) V1) as Hm1.
  assert (P1 : (0 < 2 ^ (- e1))%Z) by (apply Z.pow_pos_nonneg; lia).
  assert (HM : Z.pos M60 = (60 * 2 ^ 47)%Z) by reflexivity.
  (* the integer part of the quotient, on the grid of [2^(e1 - 6)] *)
  assert (Hq1 : (k * (64 * 2 ^ (- e1)) <= q)%Z).
  { unfold q. apply Z.div_le_lower_bound; [lia|]. rewrite Hm1, HM.
    change (2 ^ 53)%Z with (2 ^ 47 * 64)%Z.
    replace (60 * 2 ^ 47 * (k * (64 * 2 ^ (- e1))))%Z
      with (60 * k * (2 ^ 47 * 64 * 2 ^ (- e1)))%Z by ring.
    replace (s * 2 ^ (- e1) * (2 ^ 47 * 64))%Z
      with (s * (2 ^ 47 * 64 * 2 ^ (- e1)))%Z by ring.
    apply Z.mul_le_mono_nonneg_r; lia. }
  assert (Hq2 : (q * 60 <= s * (64 * 2 ^ (- e1)))%Z).
  { assert (q * Z.pos M60 <= Z.pos m1 * 2 ^ 53)%Z.
    { unfold q. rewrite Z.mul_comm. apply Z.mul_div_le. lia. }
    rewrite Hm1, HM in H. change (2 ^ 53)%Z with (2 ^ 47 * 64)%Z in H.
    replace (q * (60 * 2 ^ 47))%Z with (q * 60 * 2 ^ 47)%Z in H by ring.
    replace (s * 2 ^ (- e1) * (2 ^ 47 * 64))%Z
      with (s * (64 * 2 ^ (- e1)) * 2 ^ 47)%Z in H by ring.
    apply Z.mul_le_mono_pos_r in H; [exact H|lia]. }
  assert (Hq0 : (2 ^ 52 <= q)%Z).
  { unfold q. apply Z.div_le_lower_bound; [lia|].
    destruct (digits_bounds m1) as [L _]. rewrite D1 in L.
    change (53 - 1)%Z with 52%Z in L. rewrite HM.
    apply Z.le_trans with (2 ^ 52 * 2 ^ 53)%Z; [vm_compute; discriminate|].
    apply Z.mul_le_mono_nonneg_r; lia. }
  destruct q as [|pq|pq] eqn:Eq; try lia.
  assert (Dq : (53 <= Z.pos (digits2_pos pq))%Z).
  { apply digits_ge_of_pow_le. exact Hq0. }
  assert (T : bpow (e1 - 6) * IZR (64 * 2 ^ (- e1)) = 1).
  { rewrite mult_IZR, <- bpow_nonneg_exp by lia.
    replace (e1 - 6)%Z with (e1 + -6)%Z by lia. rewrite bpow_add.
    replace (bpow e1 * bpow (-6) * (64 * bpow (- e1)))
      with (bpow (e1 + - e1) * (bpow (-6) * 64)) by (rewrite bpow_add; ring).
    replace (e1 + - e1)%Z with 0%Z by lia. unfold bpow. cbn [powerRZ]. simpl. lra. }
  pose proof (bpow_pos (e1 - 6)) as Pb.
  assert (PT : 0 < IZR (64 * 2 ^ (- e1))) by (apply IZR_lt; lia).
  assert (Lo : IZR k <= IZR (Z.pos pq) * bpow (e1 - 6)).
  { apply IZR_le in Hq1. rewrite mult_IZR in Hq1.
    replace (IZR k) with (IZR k * (bpow (e1 - 6) * IZR (64 * 2 ^ (- e1))))
      by (rewrite T; ring). nra. }
  assert (Up : IZR (Z.pos pq) * bpow (e1 - 6) < IZR k + 63 / 64).
  { apply IZR_le in Hq2. rewrite !mult_IZR in Hq2.
    assert (IZR (Z.pos pq) * bpow (e1 - 6) * 60 <= IZR s).
    { replace (IZR s) with (IZR s * (bpow (e1 - 6) * IZR (64 * 2 ^ (- e1))))
        by (rewrite T; ring).
      rewrite mult_IZR. rewrite mult_IZR in PT. nra. }
    assert (IZR s <= 60 * IZR k + 59).
    { replace (60 * IZR k + 59) with (IZR (60 * k + 59))
        by (rewrite plus_IZR, mult_IZR; reflexivity). apply IZR_le. lia. }
    lra. }
  assert (Hf : (e1 - 6 <= fexp prec emax (Z.pos (digits2_pos pq) + (e1 - 6)))%Z)
    by (unfold fexp, emin, prec, emax; lia).
  destruct (binary_round_aux_under pq (e1 - 6) l mu (eu - 6) Hf Cu ltac:(lia))
    as [Nn Vn]; [rewrite Vu'; exact Up|].
  pose proof (binary_round_aux_over pq (e1 - 6) l mk ek Hf Ck) as [_ Va];
    [rewrite Vk; exact Lo|].
  rewrite Vu' in Vn. rewrite Vk in Va. fold k.
  destruct (binary_round_aux prec emax false (Z.pos pq) (e1 - 6) l)
    as [sz|sz| |sz mz ez]; try contradiction.
  - exfalso. destruct Va as [Va|Va]; [discriminate|]. cbn [value] in Va.
    assert (1 <= IZR k) by (apply IZR_le; lia). lra.
  - destruct sz; [contradiction|]. exists mz, ez. split; [reflexivity|].
    destruct Va as [Va|Va]; [discriminate|]. cbn [value] in Va, Vn. lra.
Qed.

(** [Math.floor] of a number between [k] and [k + 63/64]. *)
Lemma floor_between (x : float) (m : positive) (e k : Z) :
  Prim2SF x = S754_finite false m e -> (1 <= k < 2 ^ 53)%Z ->
  IZR k <= IZR (Z.pos m) * bpow e <= IZR k + 63 / 64 ->
  Text.Math_floor x = F64.of_int k.
Proof.
  intros Hx Hk [Lo Up]. unfold Text.Math_floor. rewrite Hx. cbn [cond_Zopp].
  destruct (Z.ltb_spec e 0) as [He|He].
  - assert (P : (0 < 2 ^ (- e))%Z) by (apply Z.pow_pos_nonneg; lia).
    assert (T : bpow e * IZR (2 ^ (- e)) = 1).
    { rewrite <- bpow_nonneg_exp, <- bpow_add by lia.
      replace (e + - e)%Z with 0%Z by lia. reflexivity. }
    pose proof (bpow_pos e) as Pb. apply IZR_lt in P.
    assert (E : (Z.pos m / 2 ^ (- e) = k)%Z).
    { apply Z.le_antisymm.
      - apply Z.lt_succ_r, Z.div_lt_upper_bound; [now apply lt_IZR|].
        apply lt_IZR. rewrite mult_IZR, succ_IZR.
        replace (IZR (Z.pos m))
          with (IZR (Z.pos m) * (bpow e * IZR (2 ^ (- e)))) by (rewrite T; ring).
        nra.
      - apply Z.div_le_lower_bound; [now apply lt_IZR|].
        apply le_IZR. rewrite mult_IZR.
        replace (IZR (Z.pos m))
          with (IZR (Z.pos m) * (bpow e * IZR (2 ^ (- e)))) by (rewrite T; ring).
        nra. }
    rewrite E. unfold Text.of_integer.
    destruct (Z.leb_spec 0 k) as [_|H]; [reflexivity|lia].
  - apply Prim2SF_inj. rewrite Hx.
    destruct (of_int_exact k Hk) as (mk & ek & Rk & Vk & _).
    rewrite Rk.
    destruct (valid_repr _ _ _ _ Hx) as [Cx _].
    destruct (valid_repr _ _ _ _ Rk) as [Ck _].
    assert (V : IZR (Z.pos m) * bpow e = IZR (Z.pos m * 2 ^ e))
      by (rewrite mult_IZR, <- bpow_nonneg_exp by lia; reflexivity).
    assert (E : (Z.pos m * 2 ^ e = k)%Z).
    { rewrite V in Lo, Up. apply le_IZR in Lo.
      assert (Z.pos m * 2 ^ e < k + 1)%Z by (apply lt_IZR; rewrite plus_IZR; lra).
      lia. }
    destruct (finite_unique m mk e ek Cx Ck) as [-> ->]; [|reflexivity].
    rewrite V, E. now symmetry.
Qed.

(** Whole seconds below a minute, by computation. *)
Lemma under_a_minute (s : Z) :
  (0 <= s < 60)%Z ->
  Text.Math_floor (PrimFloat.div (F64.of_int s) (F64.lit 60)) = F64.of_int 0.
Proof.
  intros H. replace s with (Z.of_nat (Z.to_nat s)) by lia.
  assert (Hn : (Z.to_nat s < 60)%nat) by lia. revert Hn.
  generalize (Z.to_nat s). intros n Hn.
  do 60 (destruct n as [|n]; [vm_compute; reflexivity|]). lia.
Qed.

(** [Math.floor(seconds / 60)] is the number of whole minutes. *)
Lemma minutes_of_seconds (s : Z) :
  (0 <= s < 2 ^ 52)%Z ->
  Text.Math_floor (PrimFloat.div (F64.of_int s) (F64.lit 60))
  = F64.of_int (s / 60).
Proof.
  intros Hs. destruct (Z_lt_le_dec s 60) as [Lt|Ge].
  - rewrite Z.div_small by lia. apply under_a_minute. lia.
  - destruct (quotient_by_sixty s ltac:(lia)) as (m & e & Hx & Hv).
    apply (floor_between _ m e); [exact Hx| |exact Hv].
    Z.to_euclidean_division_equations; lia.
Qed.

Lemma Prim2SF_zero : Prim2SF (F64.of_int 0) = S754_zero false.
Proof. vm_compute. reflexivity. Qed.

(** [seconds % 60] is the number of seconds past the minute. *)
Lemma seconds_past_minute (s : Z) :
  (0 <= s < 2 ^ 53)%Z ->
  Text.remainder (F64.of_int s) (F64.lit 60) = F64.of_int (s mod 60).
Proof.
  intros Hs. destruct (Z.eq_dec s 0) as [->|Hs0]; [vm_compute; reflexivity|].
  destruct (of_int_exact s ltac:(lia)) as (m1 & e1 & R1 & V1 & E1 & D1).
  unfold Text.remainder. rewrite R1, Prim2SF_sixty. cbn [cond_Zopp].
  set (e := Z.min e1 (-47)).
  pose proof (mantissa_of_value m1 e1 s ltac:(lia) V1) as Hm1.
  assert (HN : (Z.pos m1 * 2 ^ (e1 - e) = s * 2 ^ (- e))%Z).
  { rewrite Hm1, <- Z.mul_assoc, <- Z.pow_add_r by (unfold e; lia).
    do 2 f_equal. lia. }
  assert (HD : (8444249301319680 * 2 ^ (-47 - e) = 60 * 2 ^ (- e))%Z).
  { change 8444249301319680%Z with (60 * 2 ^ 47)%Z.
    rewrite <- Z.mul_assoc, <- Z.pow_add_r by (unfold e; lia).
    do 2 f_equal. lia. }
  rewrite HN, HD.
  assert (P : (0 < 2 ^ (- e))%Z) by (apply Z.pow_pos_nonneg; unfold e; lia).
  rewrite Z.mul_mod_distr_r by lia.
  pose proof (Z.mod_pos_bound s 60 ltac:(lia)) as Ht.
  set (t := (s mod 60)%Z) in *.
  destruct (Z.eq_dec t 0) as [->|Ht0].
  - cbn [Z.mul binary_normalize]. rewrite <- Prim2SF_zero. apply SF2Prim_Prim2SF.
  - destruct (of_int_exact t ltac:(lia)) as (mt & et & Rt & Vt & _).
    destruct (valid_repr _ _ _ _ Rt) as [Ct Lt].
    destruct (t * 2 ^ (- e))%Z as [|R|R] eqn:ER; try lia.
    cbn [binary_normalize].
    rewrite (binary_round_exact R e mt et Ct Lt).
    + rewrite <- Rt. apply SF2Prim_Prim2SF.
    + rewrite Vt, <- ER, mult_IZR, <- bpow_nonneg_exp by (unfold e; lia).
      rewrite Rmult_assoc, <- bpow_add.
      replace (- e + e)%Z with 0%Z by lia. unfold bpow. cbn [powerRZ]. ring.
Qed.

End Sixty.

(* ================================================================== *)
(** * The displayed time *)
(* ================================================================== *)

Module TimeFacts.

Import String Text TextFacts.
Local Open Scope string_scope.

(** The time of whole seconds, as it is displayed. *)
Lemma formatTime_shape (toString : float -> string) (seconds : Z) :
  prints_integers toString -> (0 <= seconds < 2 ^ 52)%Z ->
  formatTime toString (F64.of_int seconds)
  = decimal (seconds / 60) ++ ":"
    ++ String (digit (seconds mod 60 / 10))
              (String (digit (seconds mod 60 mod 10)) "").
Proof.
  intros Hp Hs. unfold formatTime.
  rewrite Sixty.minutes_of_seconds by exact Hs.
  rewrite Sixty.seconds_past_minute by lia.
  pose proof (Z.mod_pos_bound seconds 60 ltac:(lia)) as Hm.
  rewrite !Hp by (Z.to_euclidean_division_equations; lia).
  now rewrite padded_seconds.
Qed.

(** X8.  The time is shown as the minutes, a colon and the seconds on two
    digits: 65 seconds read 1:05.  The minutes are those of
    [Math.floor(seconds / 60)] on binary64, where the quotient is
    rounded before the floor is taken, the seconds those of [%];
    below [2^52] seconds the rounding never reaches the next
    minute.  The list of notes shows its durations in the same
    way. *)
Theorem formatTime_minutes_and_two_digits (toString : float -> string)
        (seconds : Z) :
  prints_integers toString -> (0 <= seconds < 2 ^ 52)%Z ->
  exists tens units : Z,
    (0 <= tens < 6)%Z /\ (0 <= units < 10)%Z /\
    (seconds = 60 * (seconds / 60) + 10 * tens + units)%Z /\
    formatTime toString (F64.of_int seconds)
    = decimal (seconds / 60) ++ ":"
      ++ String (digit tens) (String (digit units) "") /\
    formatDuration toString (F64.of_int seconds)
    = formatTime toString (F64.of_int seconds).
Proof.
  intros Hp H. exists (seconds mod 60 / 10)%Z, (seconds mod 60 mod 10)%Z.
  pose proof (Z.mod_pos_bound seconds 60 ltac:(lia)).
  repeat split; try (Z.to_euclidean_division_equations; lia).
  now apply formatTime_shape.
Qed.

(** X9.  Two durations below [2^52] seconds that read the same are the
    same. *)
Theorem formatTime_is_injective (toString : float -> string) (a b : Z) :
  prints_integers toString ->
  (0 <= a < 2 ^ 52)%Z -> (0 <= b < 2 ^ 52)%Z ->
  formatTime toString (F64.of_int a) = formatTime toString (F64.of_int b) ->
  a = b.
Proof.
  intros Hp Ha Hb E. rewrite !formatTime_shape in E by assumption.
  apply append_inj in E; [|reflexivity]. destruct E as [Em Es].
  apply decimal_inj in Em. injection Es as E1 E2.
  pose proof (Z.mod_pos_bound a 60 ltac:(lia)).
  pose proof (Z.mod_pos_bound b 60 ltac:(lia)).
  apply digit_inj in E1; [|Z.to_euclidean_division_equations; lia ..].
  apply digit_inj in E2; [|Z.to_euclidean_division_equations; lia ..].
  Z.to_euclidean_division_equations; lia.
Qed.

End TimeFacts.

(* ================================================================== *)
(** * The sessions, notes and windows of [Scenes] *)
(* ================================================================== *)

Module SceneInstances.

Import Examples Scenes.

Lemma every_saved_row_is_neutral_and_empty_witness :
  Forall (fun row => user_id row = 1 /\ emotion row = neutral /\
                     duration row = 0%Z)
         (snd (runSessions (mount (Some 1)) threeSessions)).
Proof.
  apply (every_saved_row_is_neutral_and_empty (mount (Some 1)) 1 threeSessions);
    reflexivity.
Defined.

Lemma one_row_per_saved_session_witness :
  length (snd (runSessions (mount (Some 1)) threeSessions))
  = length (filter saved threeSessions).
Proof.
  apply (one_row_per_saved_session (mount (Some 1)) 1 threeSessions).
  reflexivity.
Defined.

Lemma session_end_resets_recorder_witness :
  let running := fold_left onTick humEvents started in
  let c' := fst (runSession (mount (Some 1)) (mkSession (Some rate) humEvents Saved)) in
  isRecording c' = false /\ recordingTime c' = 0%Z /\
  detectedEmotion c' = None /\ waveformData c' = repeat (lit 0.3) 20 /\
  analyserRef c' = None /\ audioContextRef c' = None /\
  emotionSamplesRef c' = emotionSamplesRef running /\
  mediaRecorderRef c' = mediaRecorderRef running.
Proof.
  apply (session_end_resets_recorder (mount (Some 1)) 1 rate humEvents Saved).
  reflexivity.
Defined.

Lemma analysis_throws_on_empty_frame_witness :
  (analyzeAudioEmotion started emptyFrame = Throw TypeError
   <-> dataArray emptyFrame = []) /\
  (dataArray emptyFrame = [] ->
   classifier_state (onInterval started random emptyFrame)
   = classifier_state started /\
   waveformData (onInterval started random emptyFrame)
   = waveformData (updateWaveform random started)).
Proof.
  apply (analysis_throws_on_empty_frame started random emptyFrame).
  discriminate.
Defined.


Lemma brightSample_feature :
  F64Value.feature_sample (sampleOf (Some rate) brightFrame).
Proof.
  unfold F64Value.feature_sample, F64Value.feature.
  split; [|split]; vm_compute; exact I.
Defined.

Lemma window_of_ten (s : Sample (J := Float64)) :
  F64Value.feature_sample s ->
  F64.array_length (length (repeat s 10))
  /\ Forall F64Value.feature_sample (repeat s 10).
Proof.
  intros H. split.
  - unfold F64.array_length. rewrite repeat_length. split; [lia|reflexivity].
  - apply Forall_forall. intros s' Hs. apply repeat_spec in Hs. now subst s'.
Defined.

Lemma confident_window_is_happy_witness :
  let window := repeat (sampleOf (Some rate) brightFrame) 10 in
  happyScore window = 1%float /\ classify window = happy.
Proof.
  intros window.
  destruct (window_of_ten _ brightSample_feature) as [L F].
  apply (Decisions.confident_window_is_happy window L F);
    vm_compute; reflexivity.
Defined.

Lemma silentSample_feature :
  F64Value.feature_sample (sampleOf (Some rate) silentFrame).
Proof.
  unfold F64Value.feature_sample, F64Value.feature.
  split; [|split]; vm_compute; exact I.
Defined.

Lemma subdued_window_is_sad_witness :
  let window := repeat (sampleOf (Some rate) silentFrame) 10 in
  sadScore window = 1%float /\ classify window = sad.
Proof.
  intros window.
  destruct (window_of_ten _ silentSample_feature) as [L F].
  apply (Decisions.subdued_window_is_sad window L F);
    vm_compute; reflexivity.
Defined.

Lemma nan_in_frame_gives_neutral_witness :
  let window := repeat (sampleOf (Some rate) brightFrame) 9
                ++ [sampleOf (Some rate) nanFrame] in
  F64.is_nan (volume (sampleOf (Some rate) nanFrame)) = true
  /\ classify window = neutral.
Proof.
  intros window.
  apply (NotANumber.nan_in_frame_gives_neutral (Some rate) nanFrame window).
  - discriminate.
  - apply Exists_cons_hd. reflexivity.
  - apply in_or_app. right. now left.
Defined.

Lemma neutral_needs_a_gap_witness :
  let window := repeat (sampleOf (Some rate) humFrame) 10 in
  (lt (lit 0.3) (happyScore window) = true
   \/ lt (lit 0.3) (sadScore window) = true) /\
  (classify window = neutral ->
   lt (Math_abs (sub (happyScore window) (sadScore window))) (lit 0.1) = false).
Proof.
  intros window.
  destruct (window_of_ten _ Instances.humSample_feature) as [L F].
  exact (LowerBounds.neutral_needs_a_gap window L F).
Defined.

Lemma waveform_bars_between_witness :
  Forall (fun height : @num Float64 =>
            PrimFloat.leb (@lit Float64 0.3) height = true
            /\ PrimFloat.leb height 1 = true)
         (waveformData (updateWaveform random started)).
Proof.
  apply (LowerBounds.waveform_bars_between random started).
  intros i. split; reflexivity.
Defined.

End SceneInstances.

Module NoteInstances.

Import Examples Scenes String.
Local Open Scope string_scope.
Local Open Scope list_scope.

Lemma printWhole_prints_integers : Text.prints_integers printWhole.
Proof.
  intros n Hn. destruct (Z.eq_dec n 0) as [->|Hn0]; [vm_compute; reflexivity|].
  destruct (Quotients.of_int_exact n ltac:(lia)) as (m & e & Hr & Hv & He & _).
  pose proof (Sixty.mantissa_of_value m e n ltac:(lia) Hv) as Hm.
  assert (P : (0 < 2 ^ (- e))%Z) by (apply Z.pow_pos_nonneg; lia).
  assert (B : (Z.abs n <? 2 ^ 53)%Z = true) by (apply Z.ltb_lt; lia).
  unfold printWhole, wholeOf. rewrite Hr. cbn [cond_Zopp].
  destruct (Z.leb_spec 0 e) as [Le|Gt].
  - replace e with 0%Z in * by lia. change (2 ^ (- 0))%Z with 1%Z in Hm.
    change (2 ^ 0)%Z with 1%Z. rewrite Z.mul_1_r.
    now rewrite Hm, Z.mul_1_r, B.
  - rewrite Hm, Z.mod_mul, Z.div_mul by lia. cbn [Z.eqb]. now rewrite B.
Qed.

Lemma formatTime_minutes_and_two_digits_witness :
  Text.prints_integers printWhole /\ (0 <= 3725 < 2 ^ 52)%Z /\
  exists tens units : Z,
    (0 <= tens < 6)%Z /\ (0 <= units < 10)%Z /\
    (3725 = 60 * (3725 / 60) + 10 * tens + units)%Z /\
    Text.formatTime printWhole (F64.of_int 3725)
    = (Text.decimal (3725 / 60) ++ ":"
       ++ String (Text.digit tens) (String (Text.digit units) ""))%string /\
    Text.formatDuration printWhole (F64.of_int 3725)
    = Text.formatTime printWhole (F64.of_int 3725).
Proof.
  split; [exact printWhole_prints_integers|]. split; [lia|].
  apply (TimeFacts.formatTime_minutes_and_two_digits printWhole 3725
           printWhole_prints_integers).
  lia.
Defined.

Lemma formatTime_is_injective_witness :
  Text.prints_integers printWhole /\
  (0 <= 3725 < 2 ^ 52)%Z /\ (0 <= 3600 + 125 < 2 ^ 52)%Z /\
  Text.formatTime printWhole (F64.of_int 3725)
  = Text.formatTime printWhole (F64.of_int (3600 + 125)) /\
  (3725 = 3600 + 125)%Z.
Proof.
  split; [exact printWhole_prints_integers|].
  split; [lia|]. split; [lia|]. split; [reflexivity|].
  apply (TimeFacts.formatTime_is_injective printWhole 3725 (3600 + 125)
           printWhole_prints_integers); [lia|lia|reflexivity].
Defined.

Lemma an_hour_two_minutes_five :
  Text.formatTime printWhole (F64.of_int 3725) = "62:05".
Proof. vm_compute. reflexivity. Qed.

Lemma delete_undoes_create_witness :
  fst (Notes.handleDeleteNote
         (fst (Notes.handleNoteCreated morning [evening]))
         (Notes.id morning) false)
  = ([evening], Some (Notes.id morning)).
Proof.
  apply (NotesFacts.delete_undoes_create morning [evening]).
  cbn. intros [H|[]]. discriminate.
Defined.

Lemma delete_removes_that_note_witness :
  fst (fst (Notes.handleDeleteNote ([morning] ++ evening :: [])
                                   (Notes.id evening) false))
  = [morning] ++ [].
Proof.
  apply (NotesFacts.delete_removes_that_note [morning] [] evening).
  cbn. repeat constructor; cbn; intuition discriminate.
Defined.

Lemma saved_recording_heads_the_list_witness :
  let running := fold_left onTick humEvents started in
  let notes' :=
    snd (Notes.finishRecording running Saved inserted None [morning]) in
  exists note,
    notes' = note :: [morning] /\
    hd_error (Notes.recentNotes notes') = Some note /\
    Notes.id note = Notes.data_id inserted /\
    Notes.emotion note = neutral /\ Notes.duration note = 0%Z.
Proof.
  apply (NotesFacts.saved_recording_heads_the_list
           (mount (Some 1)) 1 rate humEvents Saved inserted None [morning]).
  reflexivity.
Defined.

Lemma no_filter_shows_every_note_witness :
  Notes.filteredNotes asciiLower [morning; evening] "" Notes.all
  = [morning; evening].
Proof.
  apply (NotesFacts.no_filter_shows_every_note asciiLower [morning; evening]).
  reflexivity.
Defined.

Lemma refined_search_narrows_witness :
  incl (Notes.filteredNotes asciiLower [morning; evening] newTerm Notes.all)
       (Notes.filteredNotes asciiLower [morning; evening] oldTerm Notes.all).
Proof.
  apply (SearchFacts.refined_search_narrows asciiLower [morning; evening]
           oldTerm newTerm Notes.all).
  reflexivity.
Defined.

End NoteInstances.
